(** * Delphes reconstruction core: Calorimeter, FastJetFinder, BTagging

    A shallow embedding of the three reconstruction modules
    [modules/Calorimeter.cc], [modules/FastJetFinder.cc] and
    [modules/BTagging.cc], with the properties of the specification stated
    and settled against it.

    Conventions.
    - [Double_t] and [Float_t] values are real numbers ([R]): arithmetic is
      the exact one, so rounding, overflow, infinities and NaN are outside
      the model.  Comparisons are decided with [decide].
    - Integer fields ([Int_t], [UInt_t], [Short_t], [Long64_t]) are [Z];
      where the code narrows or wraps, the wrap-around is written out.
    - ROOT, the STL and FastJet are libraries outside the repository; the
      parts the modules call are modelled by their documented behaviour
      (module [Root], [lower_bound], [sort]) or taken as an interface
      (class [FastJet]).  So is the filter of ExRootAnalysis that the
      b-tagger selects its partons with ([BTagging.GetSubArray]).
    - The process-wide generator [gRandom] is an explicit state threaded
      through every function that draws from it. *)

From Stdlib Require Import Reals Lra Lia ZArith List Bool Sorted Permutation.
From stdpp Require Import gmap sorting.
Import ListNotations.

(** ** Decidable comparisons on reals *)

#[global] Instance Rlt_decision : RelDecision Rlt := Rlt_dec.
#[global] Instance Rle_decision : RelDecision Rle := Rle_dec.
#[global] Instance Rgt_decision : RelDecision Rgt := Rgt_dec.
#[global] Instance Rge_decision : RelDecision Rge := Rge_dec.
#[global] Instance Req_decision : EqDecision R := Req_dec_T.

(** Evaluation on explicit inputs.  [eval_Rabs] rewrites an absolute value
    whose sign linear arithmetic settles; [decide_step] rewrites a decision
    that arithmetic or propositional reasoning settles, the ones that
    depend on another being left for later. *)
Ltac eval_Rabs :=
  repeat match goal with
  | |- context [Rabs ?x] =>
      first [ rewrite (Rabs_pos_eq x) by lra
            | rewrite (Rabs_left x) by lra ]
  end.

Ltac settle := simpl; first [lra | lia | tauto | intuition lra].

Ltac decide_step :=
  match goal with
  | |- context [decide ?P] =>
      first [ rewrite (decide_True (P:=P)) by settle
            | rewrite (decide_False (P:=P)) by settle ]
  end.

Ltac eval_decide := simpl; repeat (first [decide_step | progress eval_Rabs]; simpl).

(** ** The part of ROOT the modules use *)

Module Root.
Local Open Scope R_scope.

(** [TLorentzVector], seen through the accessors the modules call
    ([Pt()], [Eta()], [Phi()], [E()]); [SetPtEtaPhiE] builds one from the
    same four numbers. *)
Record TLorentzVector : Type := SetPtEtaPhiE {
  Pt : R;
  Eta : R;
  Phi : R;
  E : R
}.

(** The default-constructed vector (0, 0, 0, 0). *)
Definition TLorentzVector0 : TLorentzVector := SetPtEtaPhiE 0 0 0 0.

(** [TVector2::Phi_mpi_pi]: brings an angle difference back to [-pi, pi).
    One step is enough for the difference of two angles of [-pi, pi]. *)
Definition Phi_mpi_pi (x : R) : R :=
  if decide (x >= PI) then x - 2 * PI
  else if decide (x < - PI) then x + 2 * PI
  else x.

Definition DeltaPhi (a b : TLorentzVector) : R := Phi_mpi_pi (Phi a - Phi b).

Definition DeltaR (a b : TLorentzVector) : R :=
  let deta := Eta a - Eta b in
  let dphi := DeltaPhi a b in
  sqrt (deta * deta + dphi * dphi).

(** [TObjArray::At] and vector indexing with a C++ integer index; [None]
    outside the range (where the code would dereference a null pointer or
    read past the vector). *)
Definition vec_at {A : Type} (v : list A) (i : Z) : option A :=
  if decide (0 <= i)%Z then v !! Z.to_nat i else None.

Arguments vec_at : simpl never.

(** The process-wide generator [gRandom]: the stream of the values it will
    return and the number of values already drawn. *)
Record TRandom : Type := mkRandom {
  draws : nat -> R;
  drawn : nat
}.

Definition next_draw (g : TRandom) : R * TRandom :=
  (draws g (drawn g), mkRandom (draws g) (S (drawn g))).

(** [gRandom->Gaus(0, 1)] and [gRandom->Uniform()] each take the next value
    of the stream. *)
Definition Gaus01 (g : TRandom) : R * TRandom := next_draw g.
Definition Uniform (g : TRandom) : R * TRandom := next_draw g.

End Root.

(** ** The candidate object model ([classes/DelphesClasses.h]) *)

Module Classes.
Import Root.

(** The seven flavour-definition variants; [Candidate] has one [BTag...]
    and one [flavour...] field ([UInt_t]) for each. *)
Record Variants : Type := mkVariants {
  Algo : Z;
  Default : Z;
  Physics : Z;
  Nearest2 : Z;
  Nearest3 : Z;
  Heaviest : Z;
  HighestPt : Z
}.

(** Generator level info. *)
Record GenInfo : Type := mkGenInfo {
  PID : Z;
  Status : Z;
  M1 : Z;
  M2 : Z;
  D1 : Z;
  D2 : Z;
  Charge : Z
}.

(** Substructure info written by the jet finder.  [NSubJets], [MassDrop],
    [WTag], [TopTag] and [HTag] are the names [FastJetFinder.cc] writes. *)
Record Substructure : Type := mkSubstructure {
  Tau1 : R;
  Tau2 : R;
  Tau3 : R;
  TrimmedMass : R;
  NSubJets : Z;
  MassDrop : R;
  WTag : Z;
  TopTag : Z;
  HTag : Z
}.

(** Calorimeter info: [Eem], [Ehad], [nTimes], [Edges[4]] and the
    per-tower vector [ecal_E_t] of (energy, time) pairs. *)
Record TowerInfo : Type := mkTowerInfo {
  Eem : R;
  Ehad : R;
  nTimes : Z;
  Edges : R * R * R * R;
  ecal_E_t : list (R * R)
}.

(** The fields of [Candidate] the three modules read or write.  The
    composition [fArray] holds the objects added by [AddCandidate], each
    named by its position in the input array it was taken from. *)
Record Candidate : Type := mkCandidate {
  Momentum : TLorentzVector;
  Position : TLorentzVector;
  Area : TLorentzVector;
  gen : GenInfo;
  IsPU : Z;
  BTag : Variants;
  flavour : Variants;
  sub : Substructure;
  calo : TowerInfo;
  DeltaEta : R;
  DeltaPhi : R;
  fArray : list nat
}.



Definition Variants0 : Variants := mkVariants 0 0 0 0 0 0 0.
Definition Substructure0 : Substructure := mkSubstructure 0 0 0 0 0 0 0 0 0.
Definition TowerInfo0 : TowerInfo := mkTowerInfo 0 0 0 (0%R, 0%R, 0%R, 0%R) [].

(** Modelled from the spec: [DelphesFactory::NewCandidate] and the
    [Candidate] constructor are in files outside [src/]; the specification
    says the new object is zero-initialised (no mother or daughter: -1 is
    the value for an absent index). *)
Definition NewCandidate : Candidate :=
  mkCandidate TLorentzVector0 TLorentzVector0 TLorentzVector0
    (mkGenInfo 0 0 (-1) (-1) (-1) (-1) 0) 0 Variants0 Variants0
    Substructure0 TowerInfo0 0 0 [].

Definition set_Momentum (v : TLorentzVector) (c : Candidate) : Candidate :=
  mkCandidate v (Position c) (Area c) (gen c) (IsPU c) (BTag c) (flavour c)
    (sub c) (calo c) (DeltaEta c) (DeltaPhi c) (fArray c).
Definition set_Position (v : TLorentzVector) (c : Candidate) : Candidate :=
  mkCandidate (Momentum c) v (Area c) (gen c) (IsPU c) (BTag c) (flavour c)
    (sub c) (calo c) (DeltaEta c) (DeltaPhi c) (fArray c).
Definition set_Area (v : TLorentzVector) (c : Candidate) : Candidate :=
  mkCandidate (Momentum c) (Position c) v (gen c) (IsPU c) (BTag c) (flavour c)
    (sub c) (calo c) (DeltaEta c) (DeltaPhi c) (fArray c).
Definition set_gen (v : GenInfo) (c : Candidate) : Candidate :=
  mkCandidate (Momentum c) (Position c) (Area c) v (IsPU c) (BTag c) (flavour c)
    (sub c) (calo c) (DeltaEta c) (DeltaPhi c) (fArray c).
Definition set_BTag (v : Variants) (c : Candidate) : Candidate :=
  mkCandidate (Momentum c) (Position c) (Area c) (gen c) (IsPU c) v (flavour c)
    (sub c) (calo c) (DeltaEta c) (DeltaPhi c) (fArray c).
Definition set_flavour (v : Variants) (c : Candidate) : Candidate :=
  mkCandidate (Momentum c) (Position c) (Area c) (gen c) (IsPU c) (BTag c) v
    (sub c) (calo c) (DeltaEta c) (DeltaPhi c) (fArray c).
Definition set_sub (v : Substructure) (c : Candidate) : Candidate :=
  mkCandidate (Momentum c) (Position c) (Area c) (gen c) (IsPU c) (BTag c)
    (flavour c) v (calo c) (DeltaEta c) (DeltaPhi c) (fArray c).
Definition set_calo (v : TowerInfo) (c : Candidate) : Candidate :=
  mkCandidate (Momentum c) (Position c) (Area c) (gen c) (IsPU c) (BTag c)
    (flavour c) (sub c) v (DeltaEta c) (DeltaPhi c) (fArray c).
Definition set_DeltaEta (v : R) (c : Candidate) : Candidate :=
  mkCandidate (Momentum c) (Position c) (Area c) (gen c) (IsPU c) (BTag c)
    (flavour c) (sub c) (calo c) v (DeltaPhi c) (fArray c).
Definition set_DeltaPhi (v : R) (c : Candidate) : Candidate :=
  mkCandidate (Momentum c) (Position c) (Area c) (gen c) (IsPU c) (BTag c)
    (flavour c) (sub c) (calo c) (DeltaEta c) v (fArray c).

(** [fTower->PID = pdgCode]. *)
Definition set_PID (v : Z) (c : Candidate) : Candidate :=
  let g := gen c in
  set_gen (mkGenInfo v (Status g) (M1 g) (M2 g) (D1 g) (D2 g) (Charge g)) c.

(** [Candidate::AddCandidate]: appends to the composition. *)
Definition AddCandidate (object : nat) (c : Candidate) : Candidate :=
  mkCandidate (Momentum c) (Position c) (Area c) (gen c) (IsPU c) (BTag c)
    (flavour c) (sub c) (calo c) (DeltaEta c) (DeltaPhi c) (fArray c ++ [object]).

(** Modelled from the spec: [Candidate::Clone] is in a file outside
    [src/]; the specification says it is a shallow copy of the attributes
    with a fresh empty composition. *)
Definition Clone (c : Candidate) : Candidate :=
  mkCandidate (Momentum c) (Position c) (Area c) (gen c) (IsPU c) (BTag c)
    (flavour c) (sub c) (calo c) (DeltaEta c) (DeltaPhi c) [].

End Classes.

(** ** Calorimeter *)

Module Calorimeter.
Import Root Classes.
Local Open Scope R_scope.

(** [std::lower_bound] on a vector sorted in ascending order: the index of
    the first element that is not less than [x] ([length v] when there is
    none). *)
Fixpoint lower_bound (v : list R) (x : R) : nat :=
  match v with
  | [] => 0%nat
  | e :: v' => if decide (e < x) then S (lower_bound v' x) else 0%nat
  end.

(** Lines 215-217 and 260-262 (and 223-225, 268-270 for phi): the iterator
    returned by [lower_bound] is rejected when it is [begin()] or [end()];
    otherwise its distance to [begin()] is the bin number. *)
Definition find_bin (bins : list R) (x : R) : option nat :=
  let it := lower_bound bins x in
  if decide (it = 0%nat \/ it = length bins) then None else Some it.

(** The bin lookup as the specification words it: edges inclusive-lower,
    exclusive-upper, so bin [k] is [bins[k-1] <= x < bins[k]].  This is
    [std::upper_bound]: the index of the first element greater than [x]. *)
Fixpoint upper_bound (v : list R) (x : R) : nat :=
  match v with
  | [] => 0%nat
  | e :: v' => if decide (x < e) then 0%nat else S (upper_bound v' x)
  end.

Definition spec_find_bin (bins : list R) (x : R) : option nat :=
  let it := upper_bound bins x in
  if decide (it = 0%nat \/ it = length bins) then None else Some it.

(** Conversion to [Short_t] (16 bits, two's complement). *)
Definition Short_t (z : Z) : Z := ((z + 2 ^ 15) mod 2 ^ 16 - 2 ^ 15)%Z.

(** The configuration [Init] leaves in the module: the sorted eta edges
    and, for every eta edge, the sorted phi edges; the energy fractions per
    absolute PDG code; the two resolution formulas, as functions of the
    tower's eta and energy ([Eval(0.0, eta, 0.0, energy)]); the timing
    threshold; and [electronsFromTrack], which [Init] sets to [false]. *)
Record Config : Type := {
  fEtaBins : list R;
  fPhiBins : list (list R);
  fFractionMap : gmap Z (R * R);
  fECalResolutionFormula : R -> R -> R;
  fHCalResolutionFormula : R -> R -> R;
  fTimingEMin : R;
  electronsFromTrack : bool
}.

(** Lines 214-225 (tracks) and 259-270 (particles): the eta bin, then the
    phi bin among the phi edges of that eta bin; [None] is the [continue]
    that drops the object.  ([fPhiBins[etaBin]] is read without a bounds
    check; [Init] gives [fPhiBins] the length of [fEtaBins], so the lookup
    is in range.) *)
Definition FindTower (cfg : Config) (eta phi : R) : option (Z * Z) :=
  itEtaBin ← find_bin (fEtaBins cfg) eta;
  let etaBin := Short_t (Z.of_nat itEtaBin) in
  phiBins ← vec_at (fPhiBins cfg) etaBin;
  itPhiBin ← find_bin phiBins phi;
  let phiBin := Short_t (Z.of_nat itPhiBin) in
  Some (etaBin, phiBin).

(** What [Init] guarantees for the segmentation: edges read from a
    [std::map] and from [std::set]s are strictly increasing, there is one
    phi vector per eta edge, and the bin numbers fit a [Short_t]. *)
Record wf_bins (cfg : Config) : Prop := {
  wf_eta_sorted : StronglySorted Rlt (fEtaBins cfg);
  wf_phi_sorted : Forall (StronglySorted Rlt) (fPhiBins cfg);
  wf_phi_length : length (fPhiBins cfg) = length (fEtaBins cfg);
  wf_eta_short : (Z.of_nat (length (fEtaBins cfg)) < 2 ^ 15)%Z;
  wf_phi_short : Forall (fun v => (Z.of_nat (length v) < 2 ^ 15)%Z) (fPhiBins cfg)
}.

(** Lines 202-208 and 243-250: the fractions of the PDG code, or those of
    code 0 when the code has none.  ([Init] always stores code 0; [None]
    stands for dereferencing [end()].) *)
Definition find_fraction (m : gmap Z (R * R)) (pdgCode : Z) : option (R * R) :=
  match m !! pdgCode with
  | Some p => Some p
  | None => m !! 0%Z
  end.

(** Lines 230 and 276: the packed hit,
    [(etaBin << 48) | (phiBin << 32) | (flags << 24) | number].
    The operands are [Short_t] and [Int_t] values widened to [Long64_t]:
    a 16-bit value shifted by 48 bits and a 32-bit value are within the
    64-bit range, so nothing wraps. *)
Definition towerHit (etaBin phiBin flags number : Z) : Z :=
  Z.lor (Z.lor (Z.lor (Z.shiftl etaBin 48) (Z.shiftl phiBin 32))
               (Z.shiftl flags 24)) number.

(** What one pass of an input loop leaves for one object: its two
    fractions, its absolute PDG code and, unless it was dropped, its hit. *)
Record Entry : Type := mkEntry {
  entry_ecal : R;
  entry_hcal : R;
  entry_pdg : Z;
  entry_hit : option Z
}.

(** Lines 195-233, the body of the loop over tracks. *)
Definition track_entry (cfg : Config) (number : Z) (track : Candidate) : option Entry :=
  let pdgCode := Z.abs (PID (gen track)) in
  '(ecalFraction, hcalFraction) ← find_fraction (fFractionMap cfg) pdgCode;
  Some (mkEntry ecalFraction hcalFraction pdgCode
          ('(etaBin, phiBin) ← FindTower cfg (Eta (Position track)) (Phi (Position track));
           let flags := 1%Z in
           Some (towerHit etaBin phiBin flags number))).

(** Lines 238-278, the body of the loop over particles. *)
Definition particle_entry (cfg : Config) (number : Z) (particle : Candidate) : option Entry :=
  let pdgCode := Z.abs (PID (gen particle)) in
  '(ecalFraction, hcalFraction) ← find_fraction (fFractionMap cfg) pdgCode;
  Some (mkEntry ecalFraction hcalFraction pdgCode
          (if decide (ecalFraction < 1e-9 /\ hcalFraction < 1e-9) then None
           else
             '(etaBin, phiBin) ← FindTower cfg (Eta (Position particle)) (Phi (Position particle));
             let flags :=
               Z.lor 0 (Z.shiftl (Z.b2z (bool_decide (pdgCode = 11%Z \/ pdgCode = 22%Z))) 1) in
             Some (towerHit etaBin phiBin flags number))).

(** [number = -1; while(...) { ++number; ... }] *)
Fixpoint input_loop (body : Z -> Candidate -> option Entry) (number : Z)
    (l : list Candidate) : option (list Entry) :=
  match l with
  | [] => Some []
  | c :: l' =>
      e ← body (number + 1)%Z c;
      es ← input_loop body (number + 1)%Z l';
      Some (e :: es)
  end.

(** The vectors filled by the two input loops. *)
Record HitTables : Type := {
  fTowerHits : list Z;
  fTrackECalFractions : list R;
  fTrackHCalFractions : list R;
  fTrackPDGId : list Z;
  fTowerECalFractions : list R;
  fTowerHCalFractions : list R;
  fParticlePDGId : list Z
}.

Definition fill_tables (cfg : Config) (tracks particles : list Candidate) : option HitTables :=
  te ← input_loop (track_entry cfg) (-1) tracks;
  pe ← input_loop (particle_entry cfg) (-1) particles;
  Some {| fTowerHits := omap entry_hit te ++ omap entry_hit pe;
          fTrackECalFractions := map entry_ecal te;
          fTrackHCalFractions := map entry_hcal te;
          fTrackPDGId := map entry_pdg te;
          fTowerECalFractions := map entry_ecal pe;
          fTowerHCalFractions := map entry_hcal pe;
          fParticlePDGId := map entry_pdg pe |}.

(** Line 283, [std::sort] on [Long64_t] values: the ascending
    rearrangement of the vector. *)
Definition sort (hits : list Z) : list Z := merge_sort Z.le hits.

(** The fields of a hit as the scan reads them back (lines 290-292). *)
Definition hit_flags (towerHit : Z) : Z := Z.land (Z.shiftr towerHit 24) 255.
Definition hit_number (towerHit : Z) : Z := Z.land towerHit 16777215.
Definition hit_EtaPhi (towerHit : Z) : Z := Z.shiftr towerHit 32.

(** Line 331, [flags & 1]: the hit is a track hit. *)
Definition is_track_hit (towerHit : Z) : bool :=
  negb (Z.land (hit_flags towerHit) 1 =? 0)%Z.

(** Line 371, [flags & 2]: the hit is an electron or photon particle. *)
Definition is_photon_hit (towerHit : Z) : bool :=
  negb (Z.land (hit_flags towerHit) 2 =? 0)%Z.

(** The members that describe the tower being filled. *)
Record Tower : Type := mkTower {
  fTower : option Candidate;
  fTowerEta : R;
  fTowerPhi : R;
  fTowerEdges : R * R * R * R;
  fTowerECalEnergy : R;
  fTowerHCalEnergy : R;
  fTrackECalEnergy : R;
  fTrackHCalEnergy : R;
  fTowerTrackHits : Z;
  fTowerPhotonHits : Z;
  fTowerTrackArray : list Candidate
}.

(** The four exported arrays. *)
Record Output : Type := mkOutput {
  fTowerOutputArray : list Candidate;
  fPhotonOutputArray : list Candidate;
  fEFlowTrackOutputArray : list Candidate;
  fEFlowTowerOutputArray : list Candidate
}.

(** Lines 496-511. *)
Definition LogNormal (mean sigma : R) (g : TRandom) : R * TRandom :=
  if decide (mean > 0) then
    let b := sqrt (ln (1 + (sigma * sigma) / (mean * mean))) in
    let a := ln mean - 0.5 * b * b in
    let '(x, g') := Gaus01 g in
    (exp (a + b * x), g')
  else (0, g).

(** Lines 432-447: the energy-weighted time of the tower, 999999 when no
    entry carries weight. *)
Definition tower_time (ecal_E_t : list (R * R)) : R :=
  let tow_sumT := foldl (fun acc p => acc + sqrt (fst p) * snd p) 0 ecal_E_t in
  let tow_sumW := foldl (fun acc p => acc + sqrt (fst p)) 0 ecal_E_t in
  if decide (tow_sumW > 0) then tow_sumT / tow_sumW else 999999.

(** Lines 418-422: the smeared ECAL and HCAL energies of the tower, and
    the generator after the draws. *)
Definition smear (cfg : Config) (t : Tower) (g : TRandom) : R * R * TRandom :=
  let ecalSigma := fECalResolutionFormula cfg (fTowerEta t) (fTowerECalEnergy t) in
  let '(ecalEnergy, g1) := LogNormal (fTowerECalEnergy t) ecalSigma g in
  let hcalSigma := fHCalResolutionFormula cfg (fTowerEta t) (fTowerHCalEnergy t) in
  let '(hcalEnergy, g2) := LogNormal (fTowerHCalEnergy t) hcalSigma g1 in
  (ecalEnergy, hcalEnergy, g2).

(** Lines 424-457: the fields written to [*fTower]. *)
Definition finalized (t : Tower) (ecalEnergy hcalEnergy : R) (tower0 : Candidate)
    : Candidate :=
  let energy := ecalEnergy + hcalEnergy in
  let eta := fTowerEta t in
  let phi := fTowerPhi t in
  let pt := energy / cosh eta in
  let times := ecal_E_t (calo tower0) in
  set_calo (mkTowerInfo ecalEnergy hcalEnergy (Z.of_nat (length times))
              (fTowerEdges t) times)
    (set_Momentum (SetPtEtaPhiE pt eta phi energy)
       (set_Position (SetPtEtaPhiE 1 eta phi (tower_time times)) tower0)).

(** Lines 474-491: the energy-flow tower, when energy is left after the
    tracks' share is taken out. *)
Definition eflow_tower (t : Tower) (ecalEnergy hcalEnergy : R) (tower : Candidate)
    : list Candidate :=
  let ecalEnergy' :=
    if decide (ecalEnergy - fTrackECalEnergy t < 0) then 0
    else ecalEnergy - fTrackECalEnergy t in
  let hcalEnergy' :=
    if decide (hcalEnergy - fTrackHCalEnergy t < 0) then 0
    else hcalEnergy - fTrackHCalEnergy t in
  let energy := ecalEnergy' + hcalEnergy' in
  if decide (energy > 0) then
    let pt := energy / cosh (fTowerEta t) in
    [set_calo (mkTowerInfo ecalEnergy' hcalEnergy' (nTimes (calo tower))
                 (Edges (calo tower)) (ecal_E_t (calo tower)))
       (set_Momentum (SetPtEtaPhiE pt (fTowerEta t) (fTowerPhi t) energy)
          (Clone tower))]
  else [].

(** Lines 409-492, [Calorimeter::FinalizeTower]. *)
Definition FinalizeTower (cfg : Config) (t : Tower) (out : Output) (g : TRandom)
    : Output * TRandom :=
  match fTower t with
  | None => (out, g)
  | Some tower0 =>
      let '(ecalEnergy, hcalEnergy, g') := smear cfg t g in
      let energy := ecalEnergy + hcalEnergy in
      let tower := finalized t ecalEnergy hcalEnergy tower0 in
      (* fill calorimeter towers and photon candidates *)
      let photons :=
        if decide (energy > 0) then
          if decide ((fTowerPhotonHits t > 0)%Z /\ fTowerTrackHits t = 0%Z)
          then fPhotonOutputArray out ++ [tower]
          else fPhotonOutputArray out
        else fPhotonOutputArray out in
      let towers :=
        if decide (energy > 0) then fTowerOutputArray out ++ [tower]
        else fTowerOutputArray out in
      (* save all the tracks as energy flow tracks *)
      let eflowTracks := fEFlowTrackOutputArray out ++ fTowerTrackArray t in
      (* save ECAL and/or HCAL energy excess as an energy flow tower *)
      let eflowTowers :=
        fEFlowTowerOutputArray out ++ eflow_tower t ecalEnergy hcalEnergy tower in
      (mkOutput towers photons eflowTracks eflowTowers, g')
  end.

(** The state of the scan over the sorted hits (lines 286-404). *)
Record Scan : Type := mkScan {
  towerEtaPhi : Z;
  tower : Tower;
  output : Output;
  gRandom : TRandom
}.

(** Lines 300-327: the new tower of the hit's (eta bin, phi bin). *)
Definition new_tower (cfg : Config) (towerHit : Z) : option Tower :=
  let phiBin := Short_t (Z.land (Z.shiftr towerHit 32) 65535) in
  let etaBin := Short_t (Z.land (Z.shiftr towerHit 48) 65535) in
  phiBins ← vec_at (fPhiBins cfg) etaBin;
  etaLo ← vec_at (fEtaBins cfg) (etaBin - 1);
  etaHi ← vec_at (fEtaBins cfg) etaBin;
  phiLo ← vec_at phiBins (phiBin - 1);
  phiHi ← vec_at phiBins phiBin;
  Some (mkTower (Some NewCandidate) (0.5 * (etaLo + etaHi)) (0.5 * (phiLo + phiHi))
          (etaLo, etaHi, phiLo, phiHi) 0 0 0 0 0 0 []).

(** [fTower->ecal_E_t.push_back(...)] *)
Definition push_time (energy time : R) (c : Candidate) : Candidate :=
  let k := calo c in
  set_calo (mkTowerInfo (Eem k) (Ehad k) (nTimes k) (Edges k)
              (ecal_E_t k ++ [(energy, time)])) c.

(** Lines 331-368: a track hit. *)
Definition track_step (cfg : Config) (tabs : HitTables) (tracks : list Candidate)
    (t : Tower) (number : Z) : option Tower :=
  track ← vec_at tracks number;
  ecalFraction ← vec_at (fTrackECalFractions tabs) number;
  hcalFraction ← vec_at (fTrackHCalFractions tabs) number;
  let ecalEnergy := E (Momentum track) * ecalFraction in
  let hcalEnergy := E (Momentum track) * hcalFraction in
  let tower' :=
    match fTower t with
    | Some c =>
        if decide (ecalEnergy > fTimingEMin cfg) then
          if electronsFromTrack cfg
          then Some (push_time ecalEnergy (E (Position track)) c)
          else Some c
        else Some c
    | None => None
    end in
  Some (mkTower tower' (fTowerEta t) (fTowerPhi t) (fTowerEdges t)
          (fTowerECalEnergy t) (fTowerHCalEnergy t)
          (fTrackECalEnergy t + ecalEnergy) (fTrackHCalEnergy t + hcalEnergy)
          (fTowerTrackHits t + 1) (fTowerPhotonHits t)
          (fTowerTrackArray t ++ [track])).

(** Lines 370-400: a particle hit.  [fTower->PID = ...] dereferences the
    tower without a test. *)
Definition particle_step (cfg : Config) (tabs : HitTables) (particles : list Candidate)
    (t : Tower) (flags number : Z) : option Tower :=
  let photonHits :=
    if decide (Z.land flags 2 <> 0%Z) then (fTowerPhotonHits t + 1)%Z
    else fTowerPhotonHits t in
  particle ← vec_at particles number;
  ecalFraction ← vec_at (fTowerECalFractions tabs) number;
  hcalFraction ← vec_at (fTowerHCalFractions tabs) number;
  let ecalEnergy := E (Momentum particle) * ecalFraction in
  let hcalEnergy := E (Momentum particle) * hcalFraction in
  c ← fTower t;
  let c1 :=
    if decide (ecalEnergy > fTimingEMin cfg) then
      if decide (Z.abs (PID (gen particle)) <> 11%Z \/ electronsFromTrack cfg = false)
      then push_time ecalEnergy (E (Position particle)) c
      else c
    else c in
  pdgCode ← vec_at (fParticlePDGId tabs) number;
  Some (mkTower (Some (AddCandidate (Z.to_nat number) (set_PID pdgCode c1)))
          (fTowerEta t) (fTowerPhi t) (fTowerEdges t)
          (fTowerECalEnergy t + ecalEnergy) (fTowerHCalEnergy t + hcalEnergy)
          (fTrackECalEnergy t) (fTrackHCalEnergy t)
          (fTowerTrackHits t) photonHits (fTowerTrackArray t)).

(** Lines 289-401: the body of the loop over the sorted hits. *)
Definition hit_step (cfg : Config) (tabs : HitTables) (tracks particles : list Candidate)
    (s : Scan) (towerHit : Z) : option Scan :=
  let flags := hit_flags towerHit in
  let number := hit_number towerHit in
  let hitEtaPhi := hit_EtaPhi towerHit in
  s1 ← (if decide (towerEtaPhi s <> hitEtaPhi) then
          (* switch to next tower, finalize previous tower *)
          let '(out', g') := FinalizeTower cfg (tower s) (output s) (gRandom s) in
          t ← new_tower cfg towerHit;
          Some (mkScan hitEtaPhi t out' g')
        else Some s);
  t' ← (if decide (Z.land flags 1 <> 0%Z)
        then track_step cfg tabs tracks (tower s1) number
        else particle_step cfg tabs particles (tower s1) flags number);
  Some (mkScan (towerEtaPhi s1) t' (output s1) (gRandom s1)).

Fixpoint scan_hits (cfg : Config) (tabs : HitTables) (tracks particles : list Candidate)
    (s : Scan) (hits : list Z) : option Scan :=
  match hits with
  | [] => Some s
  | h :: hits' =>
      s' ← hit_step cfg tabs tracks particles s h;
      scan_hits cfg tabs tracks particles s' hits'
  end.

Definition Tower0 : Tower := mkTower None 0 0 (0, 0, 0, 0) 0 0 0 0 0 0 [].
Definition Output0 : Output := mkOutput [] [] [] [].

(** Lines 163-405, [Calorimeter::Process], on the event's tracks and
    particles; the exported arrays start the event empty.  [None] when the
    code reads outside a vector or through a null pointer. *)
Definition Process (cfg : Config) (tracks particles : list Candidate) (g : TRandom)
    : option (Output * TRandom) :=
  tabs ← fill_tables cfg tracks particles;
  s ← scan_hits cfg tabs tracks particles (mkScan 0 Tower0 Output0 g)
        (sort (fTowerHits tabs));
  (* finalize last tower *)
  Some (FinalizeTower cfg (tower s) (output s) (gRandom s)).

End Calorimeter.

(** ** FastJetFinder *)

Module FastJetFinder.
Import Root Classes.
Local Open Scope R_scope.

(** The FastJet library, as far as [Process] calls it.  [PseudoJet] is
    FastJet's four-vector with a user index; clustering, trimming and
    N-subjettiness are FastJet's own algorithms. *)
Class FastJet (PseudoJet : Type) : Type := {
  (** [PseudoJet(px, py, pz, E)] followed by [set_user_index(number)] *)
  mkPseudoJet : TLorentzVector -> Z -> PseudoJet;
  (** [px(), py(), pz(), E()], as read into a [TLorentzVector] *)
  pj_momentum : PseudoJet -> TLorentzVector;
  user_index : PseudoJet -> Z;
  perp : PseudoJet -> R;
  m : PseudoJet -> R;
  area_4vector : PseudoJet -> TLorentzVector;
  pieces : PseudoJet -> list PseudoJet;
  (** [sorted_by_pt(sequence->inclusive_jets(ptmin))] for the sequence
      clustered from the input list *)
  inclusive_jets : list PseudoJet -> R -> list PseudoJet;
  (** [sequence->constituents(jet)] for the same sequence *)
  constituents : list PseudoJet -> PseudoJet -> list PseudoJet;
  (** [Filter(JetDefinition(cambridge_algorithm, Rtrim),
      SelectorPtFractionMin(ptfrac))] applied to a jet *)
  trimmer : R -> R -> PseudoJet -> PseudoJet;
  (** [Nsubjettiness(N, onepass_kt_axes, beta, R0, Rcut)] applied to a jet *)
  nSub : Z -> R -> R -> R -> PseudoJet -> R
}.

(** The calls into FastJet's substructure tools, in the order made. *)
Inductive Call : Type :=
| CallTrimmer
| CallNsubjettiness (N : Z).

(** The configuration the export loop reads: [fKeepPileUp], whether an
    area definition was created, and [fJetPTMin]. *)
Record Config : Type := {
  fKeepPileUp : Z;
  fAreaDefinition : bool;
  fJetPTMin : R
}.

Section WithFastJet.
Context {PseudoJet : Type} `{FastJet PseudoJet}.

(** Lines 216-234: the input list; [number] advances only for the
    candidates kept. *)
Fixpoint input_list (cfg : Config) (number : Z) (cands : list Candidate)
    : list PseudoJet :=
  match cands with
  | [] => []
  | candidate :: rest =>
      if decide (fKeepPileUp cfg = 0%Z /\ (IsPU candidate > 0)%Z)
      then input_list cfg number rest
      else mkPseudoJet (Momentum candidate) number
             :: input_list cfg (number + 1)%Z rest
  end.

(** Lines 283-292: one constituent of the jet with axis [momentum]. *)
Definition constituent_step (fInputArray : list Candidate) (momentum : TLorentzVector)
    (st : R * R * Candidate) (pj : PseudoJet) : option (R * R * Candidate) :=
  let '(detaMax, dphiMax, candidate) := st in
  constituent ← vec_at fInputArray (user_index pj);
  let deta := Rabs (Eta momentum - Eta (Momentum constituent)) in
  let dphi := Rabs (Root.DeltaPhi momentum (Momentum constituent)) in
  let detaMax' := if decide (deta > detaMax) then deta else detaMax in
  let dphiMax' := if decide (dphi > dphiMax) then dphi else dphiMax in
  Some (detaMax', dphiMax', AddCandidate (Z.to_nat (user_index pj)) candidate).

Fixpoint constituent_loop (fInputArray : list Candidate) (momentum : TLorentzVector)
    (st : R * R * Candidate) (l : list PseudoJet) : option (R * R * Candidate) :=
  match l with
  | [] => Some st
  | pj :: l' =>
      st' ← constituent_step fInputArray momentum st pj;
      constituent_loop fInputArray momentum st' l'
  end.

(** Lines 327-334. *)
Definition largest_mass (kept_subjets : list PseudoJet) : R :=
  foldl (fun largest_mass_subjet sj =>
           if decide (m sj > largest_mass_subjet) then m sj
           else largest_mass_subjet) 0 kept_subjets.

(** Lines 305-374: the substructure of one jet, with the calls made into
    FastJet's trimmer and N-subjettiness. *)
Definition substructure (jet : PseudoJet) (candidate : Candidate)
    : Candidate * list Call :=
  if decide (perp jet > 200) then
    let Rtrim := 0.2 in
    let ptfrac := 0.05 in
    let trimmed_jet := trimmer Rtrim ptfrac jet in
    let trimmedMass :=
      if decide (m trimmed_jet < 0) then 0 else m trimmed_jet in
    let kept_subjets := pieces trimmed_jet in
    let largest_mass_subjet := largest_mass kept_subjets in
    let massdrop :=
      if decide (trimmedMass <> 0) then largest_mass_subjet / trimmedMass else 1 in
    let beta := 1 in
    let R0 := 0.8 in
    let Rcut := 10000 in
    let s := sub candidate in
    (set_sub
       (mkSubstructure (nSub 1 beta R0 Rcut jet) (nSub 2 beta R0 Rcut jet)
          (nSub 3 beta R0 Rcut jet) trimmedMass
          (Z.of_nat (length kept_subjets)) massdrop
          (if decide (massdrop < 0.4 /\ 60 < trimmedMass /\ trimmedMass < 120)
           then 1%Z else WTag s)
          (if decide ((3 <= length kept_subjets)%nat
                      /\ 140 < trimmedMass /\ trimmedMass < 230)
           then 1%Z else TopTag s)
          (if decide (massdrop < 0.4 /\ 100 < trimmedMass /\ trimmedMass < 140)
           then 1%Z else HTag s))
       candidate,
     [CallTrimmer; CallNsubjettiness 1; CallNsubjettiness 2; CallNsubjettiness 3])
  else (candidate, []).

(** Lines 273-376: the body of the loop over the output jets.  [detaMax]
    and [dphiMax] come in from the previous iteration and go out to the
    next one: they are set to zero once, before the loop (lines 268-269). *)
Definition export_jet (cfg : Config) (fInputArray : list Candidate)
    (inputList : list PseudoJet) (st : R * R) (jet : PseudoJet)
    : option (R * R * Candidate * list Call) :=
  let '(detaMax, dphiMax) := st in
  let momentum := pj_momentum jet in
  let area := if fAreaDefinition cfg then area_4vector jet else TLorentzVector0 in
  '(detaMax', dphiMax', candidate) ←
    constituent_loop fInputArray momentum (detaMax, dphiMax, NewCandidate)
      (constituents inputList jet);
  let candidate1 :=
    set_DeltaPhi dphiMax'
      (set_DeltaEta detaMax' (set_Area area (set_Momentum momentum candidate))) in
  let '(candidate2, calls) := substructure jet candidate1 in
  Some (detaMax', dphiMax', candidate2, calls).

Fixpoint export_loop (cfg : Config) (fInputArray : list Candidate)
    (inputList : list PseudoJet) (st : R * R) (outputList : list PseudoJet)
    : option (list Candidate * list Call) :=
  match outputList with
  | [] => Some ([], [])
  | jet :: rest =>
      '(detaMax, dphiMax, candidate, calls) ←
        export_jet cfg fInputArray inputList st jet;
      '(out, calls') ← export_loop cfg fInputArray inputList (detaMax, dphiMax) rest;
      Some (candidate :: out, calls ++ calls')
  end.

(** [FastJetFinder::Process]: the jets added to [fOutputArray], in order,
    and the calls made into the substructure tools.  (The rho candidates
    of lines 246-262 go to another array and are left out.)  [None] when
    a constituent's user index is outside [fInputArray]. *)
Definition Process (cfg : Config) (fInputArray : list Candidate)
    : option (list Candidate * list Call) :=
  let inputList := input_list cfg 0 fInputArray in
  let outputList := inclusive_jets inputList (fJetPTMin cfg) in
  let detaMax := 0 in
  let dphiMax := 0 in
  export_loop cfg fInputArray inputList (detaMax, dphiMax) outputList.

End WithFastJet.

End FastJetFinder.

(** ** BTagging *)

Module BTagging.
Import Root Classes.
Local Open Scope R_scope.

(** A compiled [DelphesFormula], as the function [Eval(pt, eta)]. *)
Definition DelphesFormula : Type := R -> R -> R.

(** The configuration [Init] leaves in the module.  Both classifiers get
    the same [PartonPTMin] and [PartonEtaMax]. *)
Record Config : Type := {
  fBitNumber : Z;
  fDeltaR : R;
  fPTMin : R;
  fEtaMax : R;
  fEfficiencyMap : gmap Z DelphesFormula
}.

(** Lines 135-141: [Init] adds the formula "0.0" for key 0 when the
    configuration has none. *)
Definition with_default_formula (m : gmap Z DelphesFormula) : gmap Z DelphesFormula :=
  match m !! 0%Z with
  | Some _ => m
  | None => <[0%Z := fun _ _ => 0]> m
  end.

(** Conversion to [UInt_t]. *)
Definition UInt_t (z : Z) : Z := (z mod 2 ^ 32)%Z.

(** Lines 49-63, [BTaggingPartonClassifier::GetCategory]. *)
Definition GetCategory (cfg : Config) (parton : Candidate) : Z :=
  let momentum := Momentum parton in
  if decide (Pt momentum <= fPTMin cfg \/ Rabs (Eta momentum) > fEtaMax cfg) then (-1)%Z
  else
    let pdgCode := Z.abs (PID (gen parton)) in
    if decide (Status (gen parton) = (-1)%Z) then (-1)%Z
    else if decide (pdgCode <> 21%Z /\ (pdgCode > 5)%Z) then (-1)%Z
    else if decide (Status (gen parton) = 3%Z \/ Status (gen parton) = 2%Z) then 0%Z
    else 0%Z.

(** Lines 74-88, [BTaggingLHEPartonClassifier::GetCategory]. *)
Definition GetCategoryLHE (cfg : Config) (parton : Candidate) : Z :=
  let momentum := Momentum parton in
  if decide (Pt momentum <= fPTMin cfg \/ Rabs (Eta momentum) > fEtaMax cfg) then (-1)%Z
  else
    let pdgCode := Z.abs (PID (gen parton)) in
    if decide (Status (gen parton) = (-1)%Z) then (-1)%Z
    else if decide (pdgCode <> 21%Z /\ (pdgCode > 5)%Z) then (-1)%Z
    else if decide (Status (gen parton) <> 1%Z) then (-1)%Z
    else 0%Z.

(** [ExRootFilter] belongs to the ExRootAnalysis library that comes with
    the repository; it is outside [src/] and the specification does not
    describe it.  Modelled from the library's behaviour: after [Reset],
    [GetSubArray(classifier, category)] sorts the objects of the
    collection into one array per category the classifier returns, in
    input order, and returns the array of the category asked for.  The
    arrays belong to the filter and are kept from one event to the next
    ([Reset] empties them, it does not delete them), so the call returns
    a null pointer only while the filter has never met an object of the
    category; afterwards an event without such an object gets the empty
    array.  [held] says whether the filter already holds the array of the
    category when the call is made. *)
Definition GetSubArray (classifier : Candidate -> Z) (category : Z) (held : bool)
    (array : list Candidate) : option (list Candidate) :=
  match filter (fun c => classifier c = category) array with
  | [] => if held then Some [] else None
  | l => Some l
  end.

(** Line 303 and line 387: the parton is the LHE parton seen again after
    the shower (same direction within [cone], same PID and charge). *)
Definition same_parton (cone : R) (parton LHEParton : Candidate) : Prop :=
  DeltaR (Momentum parton) (Momentum LHEParton) < cone
  /\ PID (gen parton) = PID (gen LHEParton)
  /\ Charge (gen LHEParton) = Charge (gen parton).

#[global] Instance same_parton_dec cone parton LHEParton :
  Decision (same_parton cone parton LHEParton).
Proof. unfold same_parton. apply _. Defined.

(** The pdg codes that count as a parton daughter at lines 320-321. *)
Definition is_parton_code (z : Z) : Prop :=
  z = 1%Z \/ z = 2%Z \/ z = 3%Z \/ z = 4%Z \/ z = 5%Z \/ z = 21%Z.

(** Lines 311-322: the number of daughters that are partons.  The test
    for the second daughter reads [daughterFlavour1 == 5]. *)
Definition nparton_daughters (fParticleInputArray : list Candidate)
    (parton : Candidate) : option Z :=
  let D1p := D1 (gen parton) in
  let D2p := D2 (gen parton) in
  let ndaughters :=
    ((if decide (D1p <> (-1)%Z) then 1 else 0)
     + (if decide (D2p <> (-1)%Z) then 1 else 0))%Z in
  if decide (ndaughters > 0)%Z then
    daughterFlavour1 ←
      (if decide (D1p <> (-1)%Z)
       then d ← vec_at fParticleInputArray D1p; Some (Z.abs (PID (gen d)))
       else Some (-1)%Z);
    daughterFlavour2 ←
      (if decide (D2p <> (-1)%Z)
       then d ← vec_at fParticleInputArray D2p; Some (Z.abs (PID (gen d)))
       else Some (-1)%Z);
    Some ((if decide (is_parton_code daughterFlavour1) then 1 else 0)
          + (if decide (daughterFlavour2 = 1%Z \/ daughterFlavour2 = 2%Z
                        \/ daughterFlavour2 = 3%Z \/ daughterFlavour2 = 4%Z
                        \/ daughterFlavour1 = 5%Z \/ daughterFlavour2 = 21%Z)
             then 1 else 0))%Z
  else Some 0%Z.

(** The locals of [GetAlgoFlavour] that the loops update. *)
Record AlgoState : Type := mkAlgoState {
  tempParticle : Candidate;
  tempPartonHighestPt : Candidate;
  tempNearest : Candidate;
  maxPt : R;
  minDr : R
}.

(** Lines 324-336: the parton is recorded when it lies in the jet's cone. *)
Definition record_parton (cfg : Config) (jet parton : Candidate) (st : AlgoState)
    : AlgoState :=
  let dr := DeltaR (Momentum jet) (Momentum parton) in
  if decide (dr <= fDeltaR cfg) then
    let '(minDr', tempNearest') :=
      if decide (dr < minDr st) then (dr, parton) else (minDr st, tempNearest st) in
    let tempParticle1 :=
      if decide (Z.abs (PID (gen parton)) = 4%Z) then parton else tempParticle st in
    let tempParticle2 :=
      if decide (Z.abs (PID (gen parton)) = 5%Z) then parton else tempParticle1 in
    let '(maxPt', tempPartonHighestPt') :=
      if decide (Pt (Momentum parton) > maxPt st)
      then (Pt (Momentum parton), parton)
      else (maxPt st, tempPartonHighestPt st) in
    mkAlgoState tempParticle2 tempPartonHighestPt' tempNearest' maxPt' minDr'
  else st.

(** Lines 302-337: the loop over the LHE partons for one parton.  The
    daughter check and the recording are inside this loop, so they run
    once for every LHE parton met before a match. *)
Fixpoint lhe_loop (cfg : Config) (fParticleInputArray : list Candidate)
    (jet parton : Candidate) (st : AlgoState) (LHEpartons : list Candidate)
    : option AlgoState :=
  match LHEpartons with
  | [] => Some st
  | LHEParton :: rest =>
      if decide (same_parton 0.001 parton LHEParton) then
        (* isGoodParton = false; break *)
        Some st
      else
        n ← nparton_daughters fParticleInputArray parton;
        if decide (n > 0)%Z then
          lhe_loop cfg fParticleInputArray jet parton st rest
        else
          lhe_loop cfg fParticleInputArray jet parton
            (record_parton cfg jet parton st) rest
  end.

(** Lines 292-338: the loop over the partons.  [pdgCode] and
    [pdgCodeMax] are the two locals the function never initialises. *)
Fixpoint parton_loop (cfg : Config) (fParticleInputArray : list Candidate)
    (jet : Candidate) (LHEpartons : list Candidate)
    (pdgCode pdgCodeMax : Z) (st : AlgoState) (partons : list Candidate)
    : option (Z * AlgoState) :=
  match partons with
  | [] => Some (pdgCodeMax, st)
  | parton :: rest =>
      let pdgCode' :=
        if decide (Z.abs (PID (gen parton)) = 21%Z) then 0%Z else pdgCode in
      let pdgCodeMax' :=
        if decide (DeltaR (Momentum jet) (Momentum parton) <= fDeltaR cfg) then
          if decide (pdgCodeMax < pdgCode')%Z then pdgCode' else pdgCodeMax
        else pdgCodeMax in
      st' ← lhe_loop cfg fParticleInputArray jet parton st LHEpartons;
      parton_loop cfg fParticleInputArray jet LHEpartons pdgCode' pdgCodeMax' st' rest
  end.

(** Lines 340-350: the flavours written to the jet. *)
Definition algo_flavours (pdgCodeMax : Z) (st : AlgoState) (jet : Candidate) : Candidate :=
  let flavourHeaviest := Z.abs (PID (gen (tempParticle st))) in
  let flavourHighestPt := Z.abs (PID (gen (tempPartonHighestPt st))) in
  let flavourNearest2 := Z.abs (PID (gen (tempNearest st))) in
  let tempParticle' :=
    if decide (Pt (Momentum (tempParticle st)) <= 0)
    then tempPartonHighestPt st else tempParticle st in
  let flavourAlgo := Z.abs (PID (gen tempParticle')) in
  let pdgCodeMax1 := if decide (pdgCodeMax = 0%Z) then 21%Z else pdgCodeMax in
  let pdgCodeMax2 := if decide (pdgCodeMax1 = (-1)%Z) then 0%Z else pdgCodeMax1 in
  let f := flavour jet in
  set_flavour
    (mkVariants flavourAlgo (UInt_t pdgCodeMax2) (Physics f) flavourNearest2
       (Nearest3 f) flavourHeaviest flavourHighestPt) jet.

(** Lines 281-352, [BTagging::GetAlgoFlavour].  [uninit] gives the values
    the locals [pdgCode] and [pdgCodeMax] happen to hold on entry.  [None]
    when a daughter index is outside [fParticleInputArray]. *)
Definition GetAlgoFlavour (cfg : Config) (fParticleInputArray : list Candidate)
    (uninit : Z * Z) (jet : Candidate) (partonArray LHEpartonArray : list Candidate)
    : option Candidate :=
  let maxPt := 0 in
  let minDr := 1000 in
  '(pdgCodeMax, st) ←
    parton_loop cfg fParticleInputArray jet LHEpartonArray (fst uninit) (snd uninit)
      (mkAlgoState NewCandidate NewCandidate NewCandidate maxPt minDr) partonArray;
  Some (algo_flavours pdgCodeMax st jet).

(** The locals of the first loop of [GetPhysicsFlavour]. *)
Record PhysicsState : Type := mkPhysicsState {
  phys_tempParticle : Candidate;
  phys_tempNearest : Candidate;
  phys_minDr : R;
  nInTheCone : Z
}.

(** Lines 367-379: the loop over the LHE partons. *)
Definition lhe_step (cfg : Config) (jet : Candidate) (st : PhysicsState)
    (LHEParton : Candidate) : PhysicsState :=
  let dist := DeltaR (Momentum jet) (Momentum LHEParton) in
  let '(tempNearest', minDr') :=
    if decide (Status (gen LHEParton) = 1%Z /\ dist < phys_minDr st)
    then (LHEParton, dist) else (phys_tempNearest st, phys_minDr st) in
  if decide (Status (gen LHEParton) = 1%Z /\ dist <= fDeltaR cfg)
  then mkPhysicsState LHEParton tempNearest' minDr' (nInTheCone st + 1)
  else mkPhysicsState (phys_tempParticle st) tempNearest' minDr' (nInTheCone st).

(** Lines 386-391: the inner loop continues from where the iterator over
    the LHE partons stands (it is reset once, at line 382, before the loop
    over the partons); the result is [isGoodCandidate] and the LHE partons
    the iterator has not returned yet. *)
Fixpoint lhe_scan (parton : Candidate) (remaining : list Candidate)
    : bool * list Candidate :=
  match remaining with
  | [] => (true, [])
  | LHEParton :: rest =>
      if decide (same_parton 0.01 parton LHEParton) then (false, rest)
      else lhe_scan parton rest
  end.

(** Lines 383-397: the contaminations.  [TheBiggerConeSize] is 0.7. *)
Fixpoint contamination_loop (jet : Candidate) (remaining : list Candidate)
    (partons : list Candidate) : list Candidate :=
  match partons with
  | [] => []
  | parton :: rest =>
      let dist := DeltaR (Momentum jet) (Momentum parton) in
      let '(isGoodCandidate, remaining') := lhe_scan parton remaining in
      if negb isGoodCandidate then contamination_loop jet remaining' rest
      else if decide (D1 (gen parton) <> (-1)%Z \/ D2 (gen parton) <> (-1)%Z) then
        if decide ((Z.abs (PID (gen parton)) < 4)%Z \/ Z.abs (PID (gen parton)) = 21%Z)
        then contamination_loop jet remaining' rest
        else if decide (dist < 0.7)
        then parton :: contamination_loop jet remaining' rest
        else contamination_loop jet remaining' rest
      else contamination_loop jet remaining' rest
  end.

(** Line 410: the contaminant has a mother and its first mother points
    where the initial parton points.  [None] when it has a mother and [M1]
    is outside [fParticleInputArray]. *)
Definition mother_is_initial (fParticleInputArray : list Candidate)
    (initial contaminant : Candidate) : option bool :=
  let numberOfMothers :=
    ((if decide (M1 (gen contaminant) <> (-1)%Z) then 1 else 0)
     + (if decide (M2 (gen contaminant) <> (-1)%Z) then 1 else 0))%Z in
  if decide (numberOfMothers > 0)%Z then
    mother ← vec_at fParticleInputArray (M1 (gen contaminant));
    Some (bool_decide (DeltaR (Momentum mother) (Momentum initial) < 0.001))
  else Some false.

(** Lines 405-416: the loop over the contaminations; the result is the
    value left in [jet->flavourPhysics], which enters as [flavourPhysics]. *)
Fixpoint contamination_check (fParticleInputArray : list Candidate)
    (initial : Candidate) (flavourPhysics : Z) (contaminations : list Candidate)
    : option Z :=
  match contaminations with
  | [] => Some flavourPhysics
  | contaminant :: rest =>
      let contaminatingFlavour := Z.abs (PID (gen contaminant)) in
      ok ← mother_is_initial fParticleInputArray initial contaminant;
      if (ok : bool) then contamination_check fParticleInputArray initial flavourPhysics rest
      else if decide (Z.abs (PID (gen initial)) = 4%Z) then
        if decide (contaminatingFlavour = 4%Z)
        then contamination_check fParticleInputArray initial flavourPhysics rest
        else Some 0%Z
      else contamination_check fParticleInputArray initial flavourPhysics rest
  end.

(** Line 375: a status-1 LHE parton inside the jet's cone. *)
Definition in_cone (cfg : Config) (jet LHEParton : Candidate) : Prop :=
  Status (gen LHEParton) = 1%Z
  /\ DeltaR (Momentum jet) (Momentum LHEParton) <= fDeltaR cfg.

#[global] Instance in_cone_dec cfg jet LHEParton : Decision (in_cone cfg jet LHEParton).
Proof. unfold in_cone. apply _. Defined.

(** The state after the first loop, and the contaminations, of a jet. *)
Definition physics_state (cfg : Config) (jet : Candidate)
    (LHEpartonArray : list Candidate) : PhysicsState :=
  foldl (lhe_step cfg jet) (mkPhysicsState NewCandidate NewCandidate 1000 0)
    LHEpartonArray.

Definition contaminations (jet : Candidate) (partonArray LHEpartonArray : list Candidate)
    : list Candidate :=
  contamination_loop jet LHEpartonArray partonArray.

(** Lines 355-419, [BTagging::GetPhysicsFlavour]. *)
Definition GetPhysicsFlavour (cfg : Config) (fParticleInputArray : list Candidate)
    (jet : Candidate) (partonArray LHEpartonArray : list Candidate)
    : option Candidate :=
  let st := physics_state cfg jet LHEpartonArray in
  let conts := contaminations jet partonArray LHEpartonArray in
  let flavourNearest3 := Z.abs (PID (gen (phys_tempNearest st))) in
  flavourPhysics ←
    (if decide (nInTheCone st <> 1%Z) then Some 0%Z
     else if decide (length conts = 0%nat)
     then Some (Z.abs (PID (gen (phys_tempParticle st))))
     else contamination_check fParticleInputArray (phys_tempParticle st)
            (Z.abs (PID (gen (phys_tempParticle st)))) conts);
  let f := flavour jet in
  Some (set_flavour
          (mkVariants (Algo f) (Default f) flavourPhysics (Nearest2 f)
             flavourNearest3 (Heaviest f) (HighestPt f)) jet).

(** Lines 213-216 and the like: the formula of the flavour, or the one of
    key 0.  ([Init] always stores key 0.) *)
Definition find_formula (m : gmap Z DelphesFormula) (flavour : Z)
    : option DelphesFormula :=
  match m !! flavour with
  | Some formula => Some formula
  | None => m !! 0%Z
  end.

(** Lines 219, 228, ...:
    [BTag |= (randomNumber <= formula->Eval(pt, eta)) << fBitNumber]. *)
Definition tag (cfg : Config) (randomNumber : R) (jetMomentum : TLorentzVector)
    (flavour BTag : Z) : option Z :=
  formula ← find_formula (fEfficiencyMap cfg) flavour;
  Some (UInt_t (Z.lor BTag
                  (Z.shiftl (Z.b2z (bool_decide
                     (randomNumber <= formula (Pt jetMomentum) (Eta jetMomentum))))
                     (fBitNumber cfg)))).

(** Lines 212-273: the seven tags of a jet, from one random number. *)
Definition tag_variants (cfg : Config) (randomNumber : R) (jet : Candidate)
    : option Candidate :=
  let jetMomentum := Momentum jet in
  let f := flavour jet in
  let b := BTag jet in
  heaviest ← tag cfg randomNumber jetMomentum (Heaviest f) (Heaviest b);
  highestPt ← tag cfg randomNumber jetMomentum (HighestPt f) (HighestPt b);
  nearest2 ← tag cfg randomNumber jetMomentum (Nearest2 f) (Nearest2 b);
  nearest3 ← tag cfg randomNumber jetMomentum (Nearest3 f) (Nearest3 b);
  algo ← tag cfg randomNumber jetMomentum (Algo f) (Algo b);
  physics ← tag cfg randomNumber jetMomentum (Physics f) (Physics b);
  default ← tag cfg randomNumber jetMomentum (Default f) (Default b);
  Some (set_BTag (mkVariants algo default physics nearest2 nearest3 heaviest highestPt)
          jet).

(** Lines 204-275: the body of the loop over the jets. *)
Definition process_jet (cfg : Config) (fParticleInputArray : list Candidate)
    (partonArray LHEpartonArray : list Candidate) (uninit : Z * Z)
    (jet : Candidate) (g : TRandom) : option (Candidate * TRandom) :=
  jet1 ← GetAlgoFlavour cfg fParticleInputArray uninit jet partonArray LHEpartonArray;
  jet2 ← GetPhysicsFlavour cfg fParticleInputArray jet1 partonArray LHEpartonArray;
  let '(randomNumber, g') := Uniform g in
  jet3 ← tag_variants cfg randomNumber jet2;
  Some (jet3, g').

Fixpoint jet_loop (cfg : Config) (fParticleInputArray : list Candidate)
    (partonArray LHEpartonArray : list Candidate) (uninit : nat -> Z * Z)
    (number : nat) (jets : list Candidate) (g : TRandom)
    : option (list Candidate * TRandom) :=
  match jets with
  | [] => Some ([], g)
  | jet :: rest =>
      '(jet', g') ← process_jet cfg fParticleInputArray partonArray LHEpartonArray
                      (uninit number) jet g;
      '(rest', g'') ← jet_loop cfg fParticleInputArray partonArray LHEpartonArray
                        uninit (S number) rest g';
      Some (jet' :: rest', g'')
  end.

(** Lines 181-276, [BTagging::Process]: the jets of [fJetInputArray] after
    the call, and the generator.  [held] and [heldLHE] say whether
    [fFilter] and [fFilterLHE] already hold an array for category 0, from
    an earlier event; [uninit] gives, for each jet, the values of the
    uninitialised locals of [GetAlgoFlavour]. *)
Definition Process (cfg : Config) (held heldLHE : bool)
    (fPartonInputArray fLHEPartonInputArray fParticleInputArray fJetInputArray
       : list Candidate)
    (uninit : nat -> Z * Z) (g : TRandom) : option (list Candidate * TRandom) :=
  match GetSubArray (GetCategory cfg) 0 held fPartonInputArray with
  | None => Some (fJetInputArray, g)
  | Some partonArray =>
      match GetSubArray (GetCategoryLHE cfg) 0 heldLHE fLHEPartonInputArray with
      | None => Some (fJetInputArray, g)
      | Some LHEpartonArray =>
          jet_loop cfg fParticleInputArray partonArray LHEpartonArray uninit 0
            fJetInputArray g
      end
  end.

End BTagging.

(** * Explicit inputs

    The events and configurations the properties below are evaluated
    on. *)

Module Examples.
Import Root Classes.
Local Open Scope R_scope.

(** A generator whose every draw is 0. *)
Definition zero_draws : TRandom := mkRandom (fun _ => 0) 0.

(** A calorimeter with three eta edges and the same three phi edges for
    each of them; electrons and photons leave their energy in the ECAL,
    every other particle (the default, code 0) in the HCAL; no
    smearing. *)
Definition three_by_three : Calorimeter.Config :=
  {| Calorimeter.fEtaBins := [0; 1; 2];
     Calorimeter.fPhiBins := [[-3; 0; 3]; [-3; 0; 3]; [-3; 0; 3]];
     Calorimeter.fFractionMap :=
       <[ 22%Z := (1, 0) ]> (<[ 11%Z := (1, 0) ]> {[ 0%Z := (0, 1) ]});
     Calorimeter.fECalResolutionFormula := fun _ _ => 0;
     Calorimeter.fHCalResolutionFormula := fun _ _ => 0;
     Calorimeter.fTimingEMin := 4;
     Calorimeter.electronsFromTrack := false |}.

(** A photon (PID 22) that reaches the calorimeter at eta 0.5, phi 1,
    with zero energy. *)
Definition zero_energy_photon : Candidate :=
  set_PID 22 (set_Position (SetPtEtaPhiE 1 0.5 1 0) NewCandidate).

(** The hit of the photon: eta bin 1, phi bin 2, flags 2, number 0. *)
Definition photon_hit : Z := Eval vm_compute in Calorimeter.towerHit 1 2 2 0.

(** The vectors [Calorimeter::Process] fills for the event made of that
    photon alone. *)
Definition photon_tables : Calorimeter.HitTables :=
  {| Calorimeter.fTowerHits := [photon_hit];
     Calorimeter.fTrackECalFractions := [];
     Calorimeter.fTrackHCalFractions := [];
     Calorimeter.fTrackPDGId := [];
     Calorimeter.fTowerECalFractions := [1];
     Calorimeter.fTowerHCalFractions := [0];
     Calorimeter.fParticlePDGId := [22%Z] |}.

(** A tower being filled that counted one photon hit, no track hit, and
    100 GeV in the ECAL. *)
Definition photon_tower : Calorimeter.Tower :=
  Calorimeter.mkTower (Some NewCandidate) 0.5 1.5 (0, 1, 0, 3) 100 0 0 0 0 1 [].

(** A charged pion (PID 211) of 10 GeV and a neutron (PID 2112) of 20
    GeV, both reaching the calorimeter at eta 0.5, phi 1. *)
Definition charged_pion : Candidate :=
  set_PID 211
    (set_Momentum (SetPtEtaPhiE 8 0.5 1 10)
       (set_Position (SetPtEtaPhiE 1 0.5 1 0) NewCandidate)).

Definition neutron : Candidate :=
  set_PID 2112
    (set_Momentum (SetPtEtaPhiE 17 0.5 1 20)
       (set_Position (SetPtEtaPhiE 1 0.5 1 0) NewCandidate)).

(** Their hits: eta bin 1, phi bin 2, number 0; flags 1 for the track, 0
    for the neutron. *)
Definition pion_hit : Z := Eval vm_compute in Calorimeter.towerHit 1 2 1 0.
Definition neutron_hit : Z := Eval vm_compute in Calorimeter.towerHit 1 2 0 0.

(** The vectors [Calorimeter::Process] fills for the event with the pion
    as its only track and the neutron as its only particle. *)
Definition pion_neutron_tables : Calorimeter.HitTables :=
  {| Calorimeter.fTowerHits := [pion_hit; neutron_hit];
     Calorimeter.fTrackECalFractions := [0];
     Calorimeter.fTrackHCalFractions := [1];
     Calorimeter.fTrackPDGId := [211%Z];
     Calorimeter.fTowerECalFractions := [0];
     Calorimeter.fTowerHCalFractions := [1];
     Calorimeter.fParticlePDGId := [2112%Z] |}.

(** A stand-in for FastJet on explicit events.  A jet carries its momentum,
    its user index, its mass and its constituents.  Clustering an input
    list of three objects merges the first two into one jet (of mass 80)
    and leaves the third alone, as a cone of radius 0.5 does for the
    events below; the trimmer keeps the jet as it is. *)
Record ToyJet : Type := mkToyJet {
  toy_momentum : TLorentzVector;
  toy_index : Z;
  toy_mass : R;
  toy_constituents : list (TLorentzVector * Z)
}.

Definition toy_particle (v : TLorentzVector) (i : Z) : ToyJet :=
  mkToyJet v i 0 [(v, i)].

Definition toy_cluster (inputList : list ToyJet) : list ToyJet :=
  match inputList with
  | [a; b; c] =>
      [mkToyJet (SetPtEtaPhiE (Pt (toy_momentum a) + Pt (toy_momentum b))
                   (0.5 * (Eta (toy_momentum a) + Eta (toy_momentum b)))
                   (Phi (toy_momentum a))
                   (E (toy_momentum a) + E (toy_momentum b)))
         (-1) 80 (toy_constituents a ++ toy_constituents b);
       c]
  | _ => inputList
  end.

#[global] Instance toy_fastjet : FastJetFinder.FastJet ToyJet := {|
  FastJetFinder.mkPseudoJet := toy_particle;
  FastJetFinder.pj_momentum := toy_momentum;
  FastJetFinder.user_index := toy_index;
  FastJetFinder.perp := fun jet => Pt (toy_momentum jet);
  FastJetFinder.m := toy_mass;
  FastJetFinder.area_4vector := fun _ => TLorentzVector0;
  FastJetFinder.pieces :=
    fun jet => map (fun p => toy_particle p.1 p.2) (toy_constituents jet);
  FastJetFinder.inclusive_jets := fun inputList ptmin =>
    filter (fun jet => Pt (toy_momentum jet) >= ptmin) (toy_cluster inputList);
  FastJetFinder.constituents :=
    fun _ jet => map (fun p => toy_particle p.1 p.2) (toy_constituents jet);
  FastJetFinder.trimmer := fun _ _ jet => jet;
  FastJetFinder.nSub := fun _ _ _ _ _ => 0
|}.

(** A tower of transverse momentum [pt] at pseudorapidity [eta], phi 0. *)
Definition tower_at (pt eta : R) : Candidate :=
  set_Momentum (SetPtEtaPhiE pt eta 0 (pt * cosh eta)) NewCandidate.

(** Two towers 0.4 apart in eta, and a third one far from them. *)
Definition three_towers : list Candidate :=
  [tower_at 100 0; tower_at 100 0.4; tower_at 50 2].



Definition jet_config : FastJetFinder.Config :=
  {| FastJetFinder.fKeepPileUp := 1;
     FastJetFinder.fAreaDefinition := false;
     FastJetFinder.fJetPTMin := 10 |}.

(** A parton of PDG code [pid] and status [status], with transverse
    momentum [pt] at pseudorapidity [eta] and phi 0, without mother or
    daughter. *)
Definition parton_at (pid status : Z) (pt eta : R) : Candidate :=
  set_gen (mkGenInfo pid status (-1) (-1) (-1) (-1) 0)
    (set_Momentum (SetPtEtaPhiE pt eta 0 (pt * cosh eta)) NewCandidate).

(** A b quark and a c quark after the shower, both along the jet axis,
    and an LHE gluon far from them. *)
Definition b_quark : Candidate := parton_at 5 2 50 0.
Definition c_quark : Candidate := parton_at 4 2 40 0.
Definition lhe_gluon : Candidate := parton_at 21 1 30 2.

(** An LHE up quark and an LHE charm quark along the jet axis. *)
Definition lhe_up : Candidate := parton_at 2 1 80 0.
Definition lhe_charm : Candidate := parton_at 4 1 80 0.

(** A b quark after the shower, along the jet axis, that has a daughter
    (particle 0 of the event) and no mother. *)
Definition decaying_b : Candidate :=
  set_gen (mkGenInfo 5 2 (-1) (-1) 0 (-1) 0)
    (set_Momentum (SetPtEtaPhiE 30 0 0 (30 * cosh 0)) NewCandidate).

(** The event's particles: a B meson. *)
Definition all_particles : list Candidate := [parton_at 511 2 30 0].

(** A jet of pT 100 at eta 0, phi 0. *)
Definition jet_100 : Candidate := tower_at 100 0.

(** The same jet with bit 0 of BTagAlgo already set. *)
Definition tagged_jet_100 : Candidate :=
  set_BTag (mkVariants 1 0 0 0 0 0 0) jet_100.

(** A b-tagger on bit 0 with cone 0.5, efficiency 0.7 for b jets and the
    default formula "0.0" for the others. *)
Definition btag_config : BTagging.Config :=
  {| BTagging.fBitNumber := 0;
     BTagging.fDeltaR := 0.5;
     BTagging.fPTMin := 0;
     BTagging.fEtaMax := 2.5;
     BTagging.fEfficiencyMap :=
       BTagging.with_default_formula {[ 5%Z := fun _ _ => 0.7 ]} |}.

(** A generator whose every draw is 0.5. *)
Definition half_draws : TRandom := mkRandom (fun _ => 0.5) 0.

End Examples.

(** * Further parts of the code

    The initialisation of the modules from the configuration card, the
    readout of the packed calorimeter hits, the parton selection of the
    b-tagger and the reader that fills the arrays the modules work on. *)

(** ** Parameter lists of a configuration card ([ExRootConfParam]) *)

Module ExRootConf.

(** [param[i*2]] and [param[i*2 + 1]] for [i < size/2]: the entries of a
    parameter list taken two by two; the last entry of a list of odd size
    is never read. *)
Fixpoint pairs {A : Type} (param : list A) : list (A * A) :=
  match param with
  | a :: b :: param' => (a, b) :: pairs param'
  | _ => []
  end.

(** A parameter list of keys and values is stored with
    [map[param[i*2].GetInt()] = value] for [i] from 0 on: the map after the
    assignments, and the entry that ends up stored for a key (the last one
    that names the key, a later assignment replacing an earlier one). *)
Definition assign {A : Type} (m : gmap Z A) (entries : list (Z * A)) : gmap Z A :=
  foldl (fun m entry => <[entry.1 := entry.2]> m) m entries.

Definition configured {A : Type} (entries : list (Z * A)) (key : Z) : option (Z * A) :=
  last (filter (fun entry => entry.1 = key) entries).

End ExRootConf.

(** ** Calorimeter: [Init] *)

Module CalorimeterInit.
Import Root Classes Calorimeter ExRootConf.
Local Open Scope R_scope.

(** [std::set<Double_t>::insert]: the set is kept in ascending order and
    a value already in it is not inserted again. *)
Fixpoint set_insert (x : R) (s : list R) : list R :=
  match s with
  | [] => [x]
  | e :: s' =>
      if decide (x < e) then x :: s
      else if decide (e < x) then e :: set_insert x s'
      else s
  end.

(** Line 86, [fBinMap[eta].insert(phi)], on the [std::map] kept in
    ascending order of its keys; [operator[]] makes an empty set for a key
    that is not in the map yet. *)
Fixpoint bin_insert (eta phi : R) (m : list (R * list R)) : list (R * list R) :=
  match m with
  | [] => [(eta, set_insert phi [])]
  | (key, s) :: m' =>
      if decide (eta < key) then (eta, set_insert phi []) :: m
      else if decide (key < eta) then (key, s) :: bin_insert eta phi m'
      else (key, set_insert phi s) :: m'
  end.

(** Lines 84-88: one group of eta edges with its phi edges. *)
Definition fill_bins (m : list (R * list R)) (paramEtaBins paramPhiBins : list R)
    : list (R * list R) :=
  foldl (fun m eta => foldl (fun m phi => bin_insert eta phi m) m paramPhiBins)
    m paramEtaBins.

(** Lines 73-89: [fBinMap] after the loop over the groups. *)
Definition fBinMap (EtaPhiBins : list (list R)) : list (R * list R) :=
  foldl (fun m group => fill_bins m group.1 group.2) [] (pairs EtaPhiBins).

(** Lines 108-117: the fractions, code 0 first; an entry of the
    configuration is the PDG code [param[i*2].GetInt()] with the two
    numbers of [param[i*2 + 1]]. *)
Definition fractions (EnergyFraction : list (Z * (R * R))) : gmap Z (R * R) :=
  assign {[ 0%Z := (0, 1) ]} EnergyFraction.

(** The parameters [Init] reads from the configuration card; [None] for
    one the card does not set. *)
Record Card : Type := {
  EtaPhiBins : list (list R);
  EnergyFraction : list (Z * (R * R));
  ECalResolutionFormula : option (R -> R -> R);
  HCalResolutionFormula : option (R -> R -> R);
  TimingEMin : option R
}.

(** Lines 60-147, [Calorimeter::Init]: the map of sets is turned into the
    parallel vectors [fEtaBins] and [fPhiBins]; the formula "0" and the
    threshold 4 are the defaults. *)
Definition Init (card : Card) : Config :=
  {| fEtaBins := map fst (fBinMap (EtaPhiBins card));
     fPhiBins := map snd (fBinMap (EtaPhiBins card));
     fFractionMap := fractions (EnergyFraction card);
     fECalResolutionFormula := default (fun _ _ => 0) (ECalResolutionFormula card);
     fHCalResolutionFormula := default (fun _ _ => 0) (HCalResolutionFormula card);
     fTimingEMin := default 4 (TimingEMin card);
     electronsFromTrack := false |}.

(** The map holds the phi edge [phi] for the eta edge [eta]. *)
Definition has (m : list (R * list R)) (eta phi : R) : Prop :=
  exists s : list R, (eta, s) ∈ m /\ phi ∈ s.

(** The invariant of [fBinMap]: keys in ascending order without
    repetition, every set in ascending order and not empty. *)
Definition wf_map (m : list (R * list R)) : Prop :=
  StronglySorted Rlt (map fst m)
  /\ Forall (fun entry => StronglySorted Rlt entry.2 /\ entry.2 <> []) m.

End CalorimeterInit.

(** ** Calorimeter: what the scan reads from a hit *)

Module CalorimeterReadout.
Import Root Classes Calorimeter.
Local Open Scope R_scope.

(** Lines 303-304: the bin numbers read back from a hit. *)
Definition hit_phiBin (towerHit : Z) : Z :=
  Short_t (Z.land (Z.shiftr towerHit 32) 65535).
Definition hit_etaBin (towerHit : Z) : Z :=
  Short_t (Z.land (Z.shiftr towerHit 48) 65535).

(** The object reaches a tower: the lookup of lines 214-225 (259-270 for
    a particle) finds the bins of its position. *)
Definition reaches_tower (cfg : Config) (c : Candidate) : Prop :=
  is_Some (FindTower cfg (Eta (Position c)) (Phi (Position c))).

#[global] Instance reaches_tower_dec cfg c : Decision (reaches_tower cfg c).
Proof. unfold reaches_tower. apply _. Defined.

(** The track a hit names, when the scan takes it for a track hit
    (lines 331-333). *)
Definition track_of (tracks : list Candidate) (towerHit : Z) : option Candidate :=
  if is_track_hit towerHit then vec_at tracks (hit_number towerHit) else None.

(** What the scan of lines 288-401 needs from a hit to go through: the
    bins it names exist, it does not name the tower code 0 the scan starts
    from, and its number is inside the arrays that lines 333-348 (for a
    track hit) or 373-398 (for a particle hit) index with it. *)
Definition good_hit (cfg : Config) (tabs : HitTables) (tracks particles : list Candidate)
    (h : Z) : Prop :=
  is_Some (new_tower cfg h) /\ hit_EtaPhi h <> 0%Z
  /\ (Z.land (hit_flags h) 1 <> 0%Z ->
      is_Some (vec_at tracks (hit_number h))
      /\ is_Some (vec_at (fTrackECalFractions tabs) (hit_number h))
      /\ is_Some (vec_at (fTrackHCalFractions tabs) (hit_number h)))
  /\ (Z.land (hit_flags h) 1 = 0%Z ->
      is_Some (vec_at particles (hit_number h))
      /\ is_Some (vec_at (fTowerECalFractions tabs) (hit_number h))
      /\ is_Some (vec_at (fTowerHCalFractions tabs) (hit_number h))
      /\ is_Some (vec_at (fParticlePDGId tabs) (hit_number h))).

(** The energy a particle leaves in the calorimeter: nothing when both
    its fractions are below 1.0E-9 (line 257) or when it reaches no tower,
    otherwise its energy times each of its fractions (lines 377-378). *)
Definition deposit (cfg : Config) (particle : Candidate) : R :=
  match find_fraction (fFractionMap cfg) (Z.abs (PID (gen particle))) with
  | Some (ecalFraction, hcalFraction) =>
      if decide (ecalFraction < 1e-9 /\ hcalFraction < 1e-9) then 0
      else if decide (reaches_tower cfg particle)
      then E (Momentum particle) * ecalFraction + E (Momentum particle) * hcalFraction
      else 0
  | None => 0
  end.

(** The energy the scan adds to the current tower for a hit (lines
    377-382); a track hit adds none. *)
Definition hit_energy (tabs : HitTables) (particles : list Candidate) (towerHit : Z) : R :=
  if is_track_hit towerHit then 0
  else
    match vec_at particles (hit_number towerHit),
          vec_at (fTowerECalFractions tabs) (hit_number towerHit),
          vec_at (fTowerHCalFractions tabs) (hit_number towerHit) with
    | Some particle, Some ecalFraction, Some hcalFraction =>
        E (Momentum particle) * ecalFraction + E (Momentum particle) * hcalFraction
    | _, _, _ => 0
    end.

(** The sum of a list of energies, and the energy [Eem + Ehad] of the
    towers of an output array. *)
Definition sum_energies (l : list R) : R := foldr Rplus 0 l.

Definition tower_energy (tower : Candidate) : R :=
  Eem (calo tower) + Ehad (calo tower).

(** The tracks the scan holds at a point: those already exported as
    energy-flow tracks and those of the tower being filled. *)
Definition scan_tracks (s : Scan) : list Candidate :=
  fEFlowTrackOutputArray (output s) ++ fTowerTrackArray (tower s).

(** The energy the scan holds at a point: that of the towers already
    exported and that collected for the tower being filled. *)
Definition scan_energy (s : Scan) : R :=
  sum_energies (map tower_energy (fTowerOutputArray (output s)))
  + (fTowerECalEnergy (tower s) + fTowerHCalEnergy (tower s)).

End CalorimeterReadout.

(** ** BTagging: the partons the flavour loops take, and [Init] *)

Module BTaggingSelection.
Import Root Classes BTagging.
Local Open Scope R_scope.

(** Lines 393-395: the parton is kept as a contamination (it has a
    daughter, it is a c or b quark or heavier, and it lies within
    [TheBiggerConeSize] of the jet), once line 392 has let it through. *)
Definition contaminates (jet parton : Candidate) : Prop :=
  (D1 (gen parton) <> (-1)%Z \/ D2 (gen parton) <> (-1)%Z)
  /\ ~ ((Z.abs (PID (gen parton)) < 4)%Z \/ Z.abs (PID (gen parton)) = 21%Z)
  /\ DeltaR (Momentum jet) (Momentum parton) < 0.7.

#[global] Instance contaminates_dec jet parton : Decision (contaminates jet parton).
Proof. unfold contaminates. apply _. Defined.

(** Lines 347-350: the value written to [flavourDefault] for the final
    value of [pdgCodeMax]. *)
Definition default_flavour (pdgCodeMax : Z) : Z :=
  UInt_t (if decide (pdgCodeMax = 0%Z) then 21%Z
          else if decide (pdgCodeMax = (-1)%Z) then 0%Z else pdgCodeMax).

(** Lines 323-324 and 303: the parton is recorded by the loop of
    [GetAlgoFlavour]: it does not match the first LHE parton, the count
    of lines 311-322 finds no parton among its daughters (the count tests
    [daughterFlavour1 == 5] where the second daughter is meant, so a b
    quark as second daughter is not counted), and it lies in the jet's
    cone. *)
Definition no_parton_daughter (fParticleInputArray : list Candidate)
    (parton : Candidate) : Prop :=
  match nparton_daughters fParticleInputArray parton with
  | Some n => (n <= 0)%Z
  | None => False
  end.

#[global] Instance no_parton_daughter_dec all parton :
  Decision (no_parton_daughter all parton).
Proof. unfold no_parton_daughter. destruct (nparton_daughters all parton); apply _. Defined.

Definition recorded (cfg : Config) (fParticleInputArray : list Candidate)
    (jet first parton : Candidate) : Prop :=
  ~ same_parton 0.001 parton first
  /\ no_parton_daughter fParticleInputArray parton
  /\ DeltaR (Momentum jet) (Momentum parton) <= fDeltaR cfg.

#[global] Instance recorded_dec cfg all jet first parton :
  Decision (recorded cfg all jet first parton).
Proof. unfold recorded. apply _. Defined.

(** Lines 330-331: a c or a b quark. *)
Definition heavy (parton : Candidate) : Prop :=
  Z.abs (PID (gen parton)) = 4%Z \/ Z.abs (PID (gen parton)) = 5%Z.

#[global] Instance heavy_dec parton : Decision (heavy parton).
Proof. unfold heavy. apply _. Defined.

End BTaggingSelection.

Module BTaggingInit.
Import Root Classes BTagging ExRootConf.
Local Open Scope R_scope.

(** The parameters [Init] reads from the configuration card; [None] for
    one the card does not set.  An entry of [EfficiencyFormula] is the
    flavour [param[i*2].GetInt()] with the compiled formula of
    [param[i*2 + 1]]. *)
Record Card : Type := {
  BitNumber : option Z;
  DeltaR : option R;
  PartonPTMin : option R;
  PartonEtaMax : option R;
  EfficiencyFormula : list (Z * DelphesFormula)
}.

(** Lines 108-141, [BTagging::Init]. *)
Definition Init (card : Card) : Config :=
  {| fBitNumber := default 0%Z (BitNumber card);
     fDeltaR := default 0.5 (DeltaR card);
     fPTMin := default 0 (PartonPTMin card);
     fEtaMax := default 2.5 (PartonEtaMax card);
     fEfficiencyMap := with_default_formula (assign ∅ (EfficiencyFormula card)) |}.

End BTaggingInit.

(** ** The DelphesPythia8 reader

    [LHEEventPreselection] and [ConvertInput], the two functions of the
    program at the end of [classes/DelphesClasses.h] that fill the arrays
    of LHE particles, of all particles, of stable particles and of
    partons. *)

(** The part of Pythia 8 that [ConvertInput] reads: what the accessors of
    [Pythia8::Particle] and [Pythia8::Info] return. *)
Module Pythia8.

Record Particle : Type := mkParticle {
  id : Z;
  statusHepMC : Z;
  px : R;
  py : R;
  pz : R;
  e : R;
  m : R;
  xProd : R;
  yProd : R;
  zProd : R;
  tProd : R;
  mother1 : Z;
  mother2 : Z;
  daughter1 : Z;
  daughter2 : Z
}.

Record Info : Type := mkInfo {
  code : Z;
  weight : R;
  QRen : R;
  alphaEM : R;
  alphaS : R;
  id1 : Z;
  id2 : Z;
  x1 : R;
  x2 : R;
  QFac : R;
  pdf1 : R;
  pdf2 : R
}.

End Pythia8.

Module DelphesPythia8.
Import Root Classes.
Local Open Scope R_scope.

(** [TLorentzVector] as [LHEEventPreselection] uses it: built with
    [SetPxPyPzE], added with [+=] and read with [M()]. *)
Record FourVector : Type := PxPyPzE {
  Px : R;
  Py : R;
  Pz : R;
  En : R
}.

(** [TLorentzVector::operator+=]. *)
Definition add (a b : FourVector) : FourVector :=
  PxPyPzE (Px a + Px b) (Py a + Py b) (Pz a + Pz b) (En a + En b).

(** [TLorentzVector::Mag2] and [TLorentzVector::M]: the mass of a
    space-like vector is minus the root of minus the square. *)
Definition Mag2 (v : FourVector) : R :=
  En v * En v - (Px v * Px v + Py v * Py v + Pz v * Pz v).

Definition M (v : FourVector) : R :=
  if decide (Mag2 v < 0) then - sqrt (- Mag2 v) else sqrt (Mag2 v).

(** Conversion of a [Double_t] to [Int_t]: the fraction is dropped (values
    outside the range of [Int_t] are outside the model). *)
Definition Int_t (x : R) : Z :=
  if decide (0 <= x) then Int_part x else (- Int_part (- x))%Z.

(** A [Candidate] with the two further fields the reader writes, which
    none of the three reconstruction modules reads. *)
Record GenCandidate : Type := mkGenCandidate {
  candidate : Candidate;
  Mass : R;
  Spin : Z
}.

(** The fields of [LHEFEvent] and of [HepMCEvent] the reader writes. *)
Record LHEFEvent : Type := mkLHEFEvent {
  lhe_ProcessID : Z;
  lhe_Weight : R;
  lhe_ScalePDF : R;
  lhe_AlphaQED : R;
  lhe_AlphaQCD : R
}.

Record HepMCEvent : Type := mkHepMCEvent {
  Number : Z;
  ProcessID : Z;
  MPI : Z;
  Weight : R;
  Scale : R;
  AlphaQED : R;
  AlphaQCD : R;
  ID1 : Z;
  ID2 : Z;
  X1 : R;
  X2 : R;
  ScalePDF : R;
  PDF1 : R;
  PDF2 : R;
  ReadTime : R;
  ProcTime : R
}.

(** [reader.hepeup]: the event block of the Les Houches file, one entry
    of each vector per particle. *)
Record HEPEUP : Type := mkHEPEUP {
  IDPRUP : Z;
  XWGTUP : R;
  SCALUP : R;
  AQEDUP : R;
  AQCDUP : R;
  IDUP : list Z;
  ISTUP : list Z;
  MOTHUP : list (Z * Z);
  PUP : list (list R);
  SPINUP : list R
}.

(** The three arrays [ConvertInput] fills. *)
Record Arrays : Type := mkArrays {
  allParticleOutputArray : list GenCandidate;
  stableParticleOutputArray : list GenCandidate;
  partonOutputArray : list GenCandidate
}.

(** Line 1166 and line 1169: a quark (|id| from 1 to 6) or a gluon; an
    electron, a muon or a tau. *)
Definition is_parton (id : Z) : Prop :=
  (Z.abs id > 0 /\ Z.abs id < 7)%Z \/ Z.abs id = 21%Z.

Definition is_lepton (id : Z) : Prop :=
  Z.abs id = 11%Z \/ Z.abs id = 13%Z \/ Z.abs id = 15%Z.

#[global] Instance is_parton_dec id : Decision (is_parton id).
Proof. unfold is_parton. apply _. Defined.

#[global] Instance is_lepton_dec id : Decision (is_lepton id).
Proof. unfold is_lepton. apply _. Defined.

(** [tmp4vect.SetPxPyPzE(PUP.at(iPart).at(0), ..., PUP.at(iPart).at(3))];
    [None] when [at] throws [std::out_of_range]. *)
Definition momentum_at (hepeup : HEPEUP) (iPart : nat) : option FourVector :=
  pup ← PUP hepeup !! iPart;
  p0 ← pup !! 0%nat;
  p1 ← pup !! 1%nat;
  p2 ← pup !! 2%nat;
  p3 ← pup !! 3%nat;
  Some (PxPyPzE p0 p1 p2 p3).

(** Lines 1161-1172: the body of the first loop over the particles, on
    [outPartons] and [leptons].  The lepton test is outside the test of
    the status. *)
Definition count_particle (hepeup : HEPEUP) (st : list FourVector * Z) (iPart : nat)
    : option (list FourVector * Z) :=
  let '(outPartons, leptons) := st in
  status ← ISTUP hepeup !! iPart;
  id ← IDUP hepeup !! iPart;
  outPartons' ←
    (if decide (status = 1%Z) then
       tmp4vect ← momentum_at hepeup iPart;
       Some (if decide (is_parton id) then outPartons ++ [tmp4vect] else outPartons)
     else Some outPartons);
  Some (outPartons', if decide (is_lepton id) then (leptons + 1)%Z else leptons).

Fixpoint count_loop (hepeup : HEPEUP) (st : list FourVector * Z) (iParts : list nat)
    : option (list FourVector * Z) :=
  match iParts with
  | [] => Some st
  | iPart :: rest =>
      st' ← count_particle hepeup st iPart;
      count_loop hepeup st' rest
  end.

(** Lines 1181-1186: the loop over [jQuark]; [tmp4vect] keeps what was
    added to it before. *)
Fixpoint jQuark_loop (Mjj_cut : R) (tmp4vect : FourVector) (Mjj_check : Z)
    (quarks : list FourVector) : Z :=
  match quarks with
  | [] => Mjj_check
  | quark :: rest =>
      let tmp4vect' := add tmp4vect quark in
      jQuark_loop Mjj_cut tmp4vect'
        (if decide (M tmp4vect' > Mjj_cut) then 1%Z else Mjj_check) rest
  end.

(** Lines 1179-1187: the loop over [iPartons]. *)
Fixpoint iPartons_loop (Mjj_cut : R) (Mjj_check : Z) (outPartons : list FourVector) : Z :=
  match outPartons with
  | [] => Mjj_check
  | parton :: rest =>
      iPartons_loop Mjj_cut (jQuark_loop Mjj_cut parton Mjj_check rest) rest
  end.

Section WithRoot.

(** The two services of ROOT the reader relies on: the vector that
    [TLorentzVector::SetPxPyPzE] (the same function as [SetXYZT]) builds,
    seen through the accessors of [Root.TLorentzVector], and the charge
    [TDatabasePDG::GetParticle(pid)->Charge()], [None] when the database
    has no such particle. *)
Variable SetPxPyPzE : R -> R -> R -> R -> TLorentzVector.
Variable GetParticle : Z -> option R.

(** [pdgParticle ? Int_t(pdgParticle->Charge()/3.0) : -999]. *)
Definition charge_of (pid : Z) : Z :=
  match GetParticle pid with
  | Some charge => Int_t (charge / 3)
  | None => (-999)%Z
  end.

(** Lines 1205-1229: the candidate of an LHE particle.  Its position is
    set from the components of the momentum. *)
Definition lhe_candidate (hepeup : HEPEUP) (iPart : nat) : option GenCandidate :=
  tmp4vect ← momentum_at hepeup iPart;
  id ← IDUP hepeup !! iPart;
  status ← ISTUP hepeup !! iPart;
  mothers ← MOTHUP hepeup !! iPart;
  spin ← SPINUP hepeup !! iPart;
  let v := SetPxPyPzE (Px tmp4vect) (Py tmp4vect) (Pz tmp4vect) (En tmp4vect) in
  Some (mkGenCandidate
          (set_Position v
             (set_Momentum v
                (set_gen (mkGenInfo id status mothers.1 mothers.2 (-1) (-1) (charge_of id))
                   NewCandidate)))
          (M tmp4vect) (Int_t spin)).

Fixpoint store_loop (hepeup : HEPEUP) (LHEparticlesArray : list GenCandidate)
    (iParts : list nat) : option (list GenCandidate) :=
  match iParts with
  | [] => Some LHEparticlesArray
  | iPart :: rest =>
      candidate ← lhe_candidate hepeup iPart;
      store_loop hepeup (LHEparticlesArray ++ [candidate]) rest
  end.

(** What a call leaves: the value returned, the entry added to the
    branch (none when the event is rejected) and [LHEparticlesArray]. *)
Record Preselection : Type := mkPreselection {
  accepted : bool;
  lheEvt : option LHEFEvent;
  LHEparticles : list GenCandidate
}.

(** Lines 1144-1236, [LHEEventPreselection].  [None] when an [at] throws.
    (The text outside the event block, which the function prints first,
    is left out.) *)
Definition LHEEventPreselection (hepeup : HEPEUP) (Mjj_cut : R) (SkimFullyHadronic : Z)
    (LHEparticlesArray : list GenCandidate) : option Preselection :=
  let iParts := seq 0 (length (IDUP hepeup)) in
  match count_loop hepeup ([], 0%Z) iParts with
  | None => None
  | Some (outPartons, leptons) =>
      if decide (SkimFullyHadronic <> 0%Z /\ (leptons < 1)%Z)
      then Some (mkPreselection false None LHEparticlesArray)
      else
        let Mjj_check := iPartons_loop Mjj_cut 0 outPartons in
        if decide ((2 <= length outPartons)%nat /\ Mjj_check = 0%Z)
        then Some (mkPreselection false None LHEparticlesArray)
        else
          array ← store_loop hepeup LHEparticlesArray iParts;
          Some (mkPreselection true
                  (Some (mkLHEFEvent (IDPRUP hepeup) (XWGTUP hepeup) (SCALUP hepeup)
                           (AQEDUP hepeup) (AQCDUP hepeup)))
                  array)
  end.

(** Lines 1280-1312: the candidate of a Pythia particle. *)
Definition convert (particle : Pythia8.Particle) : GenCandidate :=
  let pid := Pythia8.id particle in
  mkGenCandidate
    (set_Position
       (SetPxPyPzE (Pythia8.xProd particle) (Pythia8.yProd particle)
          (Pythia8.zProd particle) (Pythia8.tProd particle))
       (set_Momentum
          (SetPxPyPzE (Pythia8.px particle) (Pythia8.py particle)
             (Pythia8.pz particle) (Pythia8.e particle))
          (set_gen
             (mkGenInfo pid (Pythia8.statusHepMC particle)
                (Pythia8.mother1 particle - 1) (Pythia8.mother2 particle - 1)
                (Pythia8.daughter1 particle - 1) (Pythia8.daughter2 particle - 1)
                (charge_of pid))
             NewCandidate)))
    (Pythia8.m particle) 0.

(** Lines 1278-1322: the body of the loop over [pythia->event], from
    entry 0 on. *)
Definition convert_particle (arrays : Arrays) (particle : Pythia8.Particle) : Arrays :=
  let candidate := convert particle in
  let pdgCode := Z.abs (Pythia8.id particle) in
  let status := Pythia8.statusHepMC particle in
  mkArrays
    (allParticleOutputArray arrays ++ [candidate])
    (if decide (status = 1%Z) then stableParticleOutputArray arrays ++ [candidate]
     else stableParticleOutputArray arrays)
    (if decide (status = 1%Z) then partonOutputArray arrays
     else if decide ((pdgCode <= 5)%Z \/ pdgCode = 21%Z \/ pdgCode = 15%Z)
     then partonOutputArray arrays ++ [candidate]
     else partonOutputArray arrays).

(** Lines 1240-1324, [ConvertInput]: the entry added to the branch and the
    three arrays. *)
Definition ConvertInput (eventCounter : Z) (info : Pythia8.Info)
    (event : list Pythia8.Particle) (readTime procTime : R) (arrays : Arrays)
    : HepMCEvent * Arrays :=
  (mkHepMCEvent eventCounter (Pythia8.code info) 1 (Pythia8.weight info)
     (Pythia8.QRen info) (Pythia8.alphaEM info) (Pythia8.alphaS info)
     (Pythia8.id1 info) (Pythia8.id2 info) (Pythia8.x1 info) (Pythia8.x2 info)
     (Pythia8.QFac info) (Pythia8.pdf1 info) (Pythia8.pdf2 info) readTime procTime,
   foldl convert_particle arrays event).

End WithRoot.

(** The arrays after [modularDelphes->Clear()]. *)
Definition cleared : Arrays := mkArrays [] [] [].

(** The status-1 partons of the event block, in the order of the file:
    what the first loop leaves in [outPartons] when no [at] throws. *)
Definition final_state_partons (hepeup : HEPEUP) : list FourVector :=
  omap (fun iPart =>
          status ← ISTUP hepeup !! iPart;
          id ← IDUP hepeup !! iPart;
          if decide (status = 1%Z /\ is_parton id) then momentum_at hepeup iPart
          else None)
       (seq 0 (length (IDUP hepeup))).

(** Line 1169 at particle [iPart]. *)
Definition lepton_at (hepeup : HEPEUP) (iPart : nat) : Prop :=
  match IDUP hepeup !! iPart with
  | Some id => is_lepton id
  | None => False
  end.

#[global] Instance lepton_at_dec hepeup iPart : Decision (lepton_at hepeup iPart).
Proof. unfold lepton_at. destruct (IDUP hepeup !! iPart); apply _. Defined.

(** The vectors of the block have one entry per particle, and every
    momentum at least four components. *)
Definition complete (hepeup : HEPEUP) : Prop :=
  length (ISTUP hepeup) = length (IDUP hepeup)
  /\ length (MOTHUP hepeup) = length (IDUP hepeup)
  /\ length (PUP hepeup) = length (IDUP hepeup)
  /\ length (SPINUP hepeup) = length (IDUP hepeup)
  /\ Forall (fun pup => (4 <= length pup)%nat) (PUP hepeup).

(** The parton kept by the parton array: not of status 1, and a quark up
    to the b, code 0, a gluon or a tau. *)
Definition kept_as_parton (c : GenCandidate) : Prop :=
  Status (gen (candidate c)) <> 1%Z
  /\ ((Z.abs (PID (gen (candidate c))) <= 5)%Z
      \/ Z.abs (PID (gen (candidate c))) = 21%Z
      \/ Z.abs (PID (gen (candidate c))) = 15%Z).

#[global] Instance kept_as_parton_dec c : Decision (kept_as_parton c).
Proof. unfold kept_as_parton. apply _. Defined.

End DelphesPythia8.

(** ** Further explicit inputs *)

Module InitExamples.
Import Root Classes.
Local Open Scope R_scope.

(** A card with two groups of bins that share the eta edge 1, and the
    fractions of electrons and photons. *)
Definition two_groups : CalorimeterInit.Card :=
  {| CalorimeterInit.EtaPhiBins := [[1; 0]; [3; -3; 0]; [2; 1]; [0; 3; -3]];
     CalorimeterInit.EnergyFraction := [(11%Z, (1, 0)); (22%Z, (1, 0))];
     CalorimeterInit.ECalResolutionFormula := None;
     CalorimeterInit.HCalResolutionFormula := None;
     CalorimeterInit.TimingEMin := None |}.
End InitExamples.

Module ReaderExamples.
Import Root Classes DelphesPythia8.
Local Open Scope R_scope.

(** A vector seen through its accessors, for events along the beam axis
    only: no transverse momentum, no direction. *)
Definition along_beam (x y z t : R) : TLorentzVector := SetPtEtaPhiE 0 0 0 t.

(** A database that knows no particle. *)
Definition no_database (pid : Z) : option R := None.

(** An event block with two incoming gluons and two outgoing quarks
    back to back along the beam, 10 GeV each. *)
Definition two_quarks : HEPEUP :=
  {| IDPRUP := 1; XWGTUP := 1; SCALUP := 20; AQEDUP := 0; AQCDUP := 0;
     IDUP := [21; 21; 1; -1]%Z;
     ISTUP := [-1; -1; 1; 1]%Z;
     MOTHUP := [(0, 0); (0, 0); (1, 2); (1, 2)]%Z;
     PUP := [[0; 0; 10; 10; 0]; [0; 0; -10; 10; 0]; [0; 0; 10; 10; 0]; [0; 0; -10; 10; 0]];
     SPINUP := [9; 9; 9; 9] |}.

(** A Pythia event: the system entry, a b quark whose first daughter is
    entry 2, and a B meson. *)
Definition system_entry : Pythia8.Particle :=
  Pythia8.mkParticle 90 11 0 0 0 100 100 0 0 0 0 0 0 0 0.
Definition b_entry : Pythia8.Particle :=
  Pythia8.mkParticle 5 2 0 0 30 30 0 0 0 0 0 0 0 2 2.
Definition B_entry : Pythia8.Particle :=
  Pythia8.mkParticle 511 1 0 0 30 30 5 0 0 0 0 1 0 0 0.
Definition b_event : list Pythia8.Particle := [system_entry; b_entry; B_entry].

End ReaderExamples.

Module SubjetExamples.
Import Root Classes Examples.
Local Open Scope R_scope.


End SubjetExamples.

Module FlavourExamples.
Import Root Classes Examples.
Local Open Scope R_scope.

(** An event with two particles: a B meson along the jet axis and a b
    quark at eta 1, away from the jet. *)
Definition two_particles : list Candidate := [parton_at 511 2 30 0; parton_at 5 2 60 1].

(** A b quark after the shower, along the jet axis, that has a daughter
    (particle 0) and a mother (particle 1, the b quark at eta 1). *)
Definition b_from_elsewhere : Candidate :=
  set_gen (mkGenInfo 5 2 1 (-1) 0 (-1) 0)
    (set_Momentum (SetPtEtaPhiE 30 0 0 (30 * cosh 0)) NewCandidate).

(** A decaying b quark at eta 0.6, without mother, and the LHE b quark it
    comes from, in the same direction: within 0.7 of the jet axis, outside
    the cone of 0.5. *)
Definition decaying_b_06 : Candidate :=
  set_gen (mkGenInfo 5 2 (-1) (-1) 0 (-1) 0)
    (set_Momentum (SetPtEtaPhiE 30 0.6 0 (30 * cosh 0.6)) NewCandidate).
Definition lhe_b_06 : Candidate := parton_at 5 1 30 0.6.

(** A b quark after the shower, along the jet axis, whose first daughter
    is particle 0 (a B meson) and whose second daughter is particle 1 (a
    b quark) of [two_particles]. *)
Definition b_with_b_daughter : Candidate :=
  set_gen (mkGenInfo 5 2 (-1) (-1) 0 1 0)
    (set_Momentum (SetPtEtaPhiE 50 0 0 (50 * cosh 0)) NewCandidate).

End FlavourExamples.

(** * Properties *)

(** ** ROOT: angles and distances on explicit vectors *)

Module RootFacts.
Import Root.
Local Open Scope R_scope.

Lemma Phi_mpi_pi_0 : Phi_mpi_pi (0 - 0) = 0.
Proof.
  unfold Phi_mpi_pi. pose proof PI_RGT_0.
  destruct (decide (0 - 0 >= PI)); [lra|].
  destruct (decide (0 - 0 < - PI)); lra.
Qed.

(** Two vectors at the same phi are as far apart as their eta. *)
Lemma DeltaR_same_phi (a b : TLorentzVector) :
  Phi a = Phi b -> DeltaR a b = Rabs (Eta a - Eta b).
Proof.
  intros Hphi. unfold DeltaR, Root.DeltaPhi. rewrite Hphi.
  replace (Phi b - Phi b) with (0 - 0) by lra.
  rewrite Phi_mpi_pi_0.
  replace ((Eta a - Eta b) * (Eta a - Eta b) + 0 * 0) with (Rsqr (Eta a - Eta b))
    by (unfold Rsqr; lra).
  apply sqrt_Rsqr_abs.
Qed.

Ltac eval_DeltaR :=
  repeat match goal with
  | |- context [DeltaR ?a ?b] => rewrite (DeltaR_same_phi a b) by reflexivity
  end.

End RootFacts.

(** ** Calorimeter: the bin lookup *)

Module CalorimeterBins.
Import Root Classes Calorimeter Examples.
Local Open Scope R_scope.

Lemma lower_bound_le_length (v : list R) (x : R) :
  (lower_bound v x <= length v)%nat.
Proof.
  induction v as [|e v IH]; simpl; [lia|].
  destruct (decide (e < x)); lia.
Qed.

(** At or below the first edge the iterator is [begin()]. *)
Lemma lower_bound_begin (e : R) (v : list R) (x : R) :
  x <= e -> lower_bound (e :: v) x = 0%nat.
Proof. intros Hx. simpl. destruct (decide (e < x)); [lra | reflexivity]. Qed.

(** Above the previous edge and at or below the next one, the iterator
    points to the next edge. *)
Lemma lower_bound_interval (v : list R) :
  StronglySorted Rlt v ->
  forall (k : nat) (lo hi x : R),
    v !! k = Some lo -> v !! S k = Some hi -> lo < x <= hi ->
    lower_bound v x = S k.
Proof.
  induction 1 as [|a v Hs IH Hall]; intros k lo hi x Hlo Hhi Hx; [discriminate|].
  destruct k as [|k]; simpl in Hlo, Hhi.
  - injection Hlo as ->. destruct v as [|b v]; [discriminate|].
    simpl in Hhi. injection Hhi as ->. simpl.
    destruct (decide (lo < x)); [|lra].
    destruct (decide (hi < x)); [lra | reflexivity].
  - simpl. destruct (decide (a < x)) as [_|Hn].
    + f_equal. eapply IH; eauto.
    + exfalso. apply Hn. rewrite Forall_forall in Hall.
      assert (a < lo) by (apply Hall; eapply list_elem_of_lookup_2; eauto).
      lra.
Qed.

(** Above every edge the iterator is [end()]. *)
Lemma lower_bound_end (v : list R) (x : R) :
  Forall (fun e => e < x) v -> lower_bound v x = length v.
Proof.
  induction 1 as [|e v He _ IH]; simpl; [reflexivity|].
  destruct (decide (e < x)); [congruence | contradiction].
Qed.

Lemma find_bin_interval (v : list R) (k : nat) (lo hi x : R) :
  StronglySorted Rlt v ->
  v !! k = Some lo -> v !! S k = Some hi -> lo < x <= hi ->
  find_bin v x = Some (S k).
Proof.
  intros Hs Hlo Hhi Hx. unfold find_bin.
  rewrite (lower_bound_interval v Hs k lo hi x Hlo Hhi Hx).
  apply lookup_lt_Some in Hhi.
  destruct (decide (S k = 0%nat \/ S k = length v)) as [[?|?]|_]; [lia | lia | reflexivity].
Qed.

Lemma find_bin_begin (e : R) (v : list R) (x : R) :
  x <= e -> find_bin (e :: v) x = None.
Proof.
  intros Hx. unfold find_bin. rewrite lower_bound_begin by exact Hx.
  destruct (decide (0%nat = 0%nat \/ 0%nat = length (e :: v))) as [_|Hn];
    [reflexivity | exfalso; apply Hn; left; reflexivity].
Qed.

Lemma find_bin_end (v : list R) (x : R) :
  Forall (fun e => e < x) v -> find_bin v x = None.
Proof.
  intros Hx. unfold find_bin. rewrite lower_bound_end by exact Hx.
  destruct (decide (length v = 0%nat \/ length v = length v)) as [_|Hn];
    [reflexivity | exfalso; apply Hn; right; reflexivity].
Qed.

Lemma Short_t_id (z : Z) : (- 2 ^ 15 <= z < 2 ^ 15)%Z -> Short_t z = z.
Proof. intros Hz. unfold Short_t. rewrite Z.mod_small; lia. Qed.

Lemma vec_at_of_nat {A : Type} (v : list A) (n : nat) :
  vec_at v (Z.of_nat n) = v !! n.
Proof.
  unfold vec_at. destruct (decide (0 <= Z.of_nat n)%Z); [|lia].
  now rewrite Nat2Z.id.
Qed.

Lemma sorted3 (a b c : R) : a < b -> b < c -> StronglySorted Rlt [a; b; c].
Proof.
  intros Hab Hbc. repeat constructor; lra.
Qed.

Lemma three_by_three_wf : wf_bins three_by_three.
Proof.
  split; simpl.
  - apply sorted3; lra.
  - repeat constructor; lra.
  - reflexivity.
  - lia.
  - repeat constructor; simpl; lia.
Qed.

(** C1 (as the code has it).  With the segmentation [Init] builds, an
    eta above edge [k] and at or below edge [k+1], with a phi above edge
    [j] and at or below edge [j+1] of that eta bin's phi edges, is put in
    bin ([k+1], [j+1]): bins are exclusive-lower, inclusive-upper, so a
    value exactly on an edge belongs to the bin below it, and a value on
    the last edge is kept.  A value at or below the first eta edge, or at
    or below the first phi edge, is dropped, and so is a value above the
    last eta edge. *)
Theorem FindTower_lower_exclusive_upper_inclusive (cfg : Config) :
  wf_bins cfg ->
  (forall (k j : nat) (etaLo etaHi phiLo phiHi eta phi : R) (phiBins : list R),
      fEtaBins cfg !! k = Some etaLo -> fEtaBins cfg !! S k = Some etaHi ->
      fPhiBins cfg !! S k = Some phiBins ->
      phiBins !! j = Some phiLo -> phiBins !! S j = Some phiHi ->
      etaLo < eta <= etaHi -> phiLo < phi <= phiHi ->
      FindTower cfg eta phi = Some (Z.of_nat (S k), Z.of_nat (S j)))
  /\ (forall (first eta phi : R), head (fEtaBins cfg) = Some first -> eta <= first ->
        FindTower cfg eta phi = None)
  /\ (forall (eta phi : R), Forall (fun e => e < eta) (fEtaBins cfg) ->
        FindTower cfg eta phi = None)
  /\ (forall (k : nat) (etaLo etaHi first eta phi : R) (phiBins : list R),
        fEtaBins cfg !! k = Some etaLo -> fEtaBins cfg !! S k = Some etaHi ->
        fPhiBins cfg !! S k = Some phiBins -> etaLo < eta <= etaHi ->
        head phiBins = Some first -> phi <= first ->
        FindTower cfg eta phi = None).
Proof.
  intros [Hes Hps Hlen Heshort Hpshort]. repeat split.
  - intros k j etaLo etaHi phiLo phiHi eta phi phiBins HeLo HeHi Hphi HpLo HpHi Heta Hp.
    unfold FindTower.
    rewrite (find_bin_interval _ k etaLo etaHi eta Hes HeLo HeHi Heta). simpl.
    pose proof (lookup_lt_Some _ _ _ HeHi) as Hk.
    rewrite Short_t_id by lia. rewrite vec_at_of_nat, Hphi. simpl.
    rewrite Forall_forall in Hps, Hpshort.
    assert (Hin : phiBins ∈ fPhiBins cfg)
      by (eapply list_elem_of_lookup_2; eauto).
    rewrite (find_bin_interval _ j phiLo phiHi phi (Hps _ Hin) HpLo HpHi Hp). simpl.
    pose proof (lookup_lt_Some _ _ _ HpHi) as Hj.
    pose proof (Hpshort _ Hin) as Hshort. simpl in Hshort.
    rewrite Short_t_id by lia. reflexivity.
  - intros first eta phi Hhead Heta. unfold FindTower.
    destruct (fEtaBins cfg) as [|e v]; [discriminate|].
    simpl in Hhead. injection Hhead as ->.
    rewrite find_bin_begin by exact Heta. reflexivity.
  - intros eta phi Hall. unfold FindTower.
    rewrite find_bin_end by exact Hall. reflexivity.
  - intros k etaLo etaHi first eta phi phiBins HeLo HeHi Hphi Heta Hhead Hp.
    unfold FindTower.
    rewrite (find_bin_interval _ k etaLo etaHi eta Hes HeLo HeHi Heta). simpl.
    pose proof (lookup_lt_Some _ _ _ HeHi) as Hk.
    rewrite Short_t_id by lia. rewrite vec_at_of_nat, Hphi. simpl.
    destruct phiBins as [|e v]; [discriminate|].
    simpl in Hhead. injection Hhead as ->.
    rewrite find_bin_begin by exact Hp. reflexivity.
Qed.

(** The theorem at work: eta on the last edge and phi on the middle edge
    of [three_by_three] land in eta bin 2, phi bin 1. *)
Lemma FindTower_last_edge_kept :
  FindTower three_by_three 2 0 = Some (2%Z, 1%Z).
Proof.
  exact (proj1 (FindTower_lower_exclusive_upper_inclusive three_by_three
                  three_by_three_wf)
           1%nat 0%nat 1 2 (-3) 0 2 0 [-3; 0; 3]
           eq_refl eq_refl eq_refl eq_refl eq_refl
           ltac:(lra) ltac:(lra)).
Defined.

(** Evaluates a bin lookup on explicit edges. *)
Ltac eval_bins :=
  unfold FindTower, find_bin, spec_find_bin, vec_at; eval_decide;
  try reflexivity.

(** C1 as stated fails.  With eta edges 0, 1, 2: the value 1, which is on
    an edge, is put in bin 1 (the bin below it) where the inclusive-lower
    reading gives bin 2; and the value 2, which is [fEtaBins.back()], is
    put in bin 2 where the inclusive-lower reading drops it.  A particle
    at eta 2 (and phi 0) does get a tower. *)
Lemma edge_value_goes_to_lower_bin :
  find_bin [0; 1; 2] 1 = Some 1%nat
  /\ spec_find_bin [0; 1; 2] 1 = Some 2%nat
  /\ find_bin [0; 1; 2] 2 = Some 2%nat
  /\ spec_find_bin [0; 1; 2] 2 = None
  /\ FindTower three_by_three 2 0 = Some (2%Z, 1%Z).
Proof.
  repeat split.
  - eval_bins.
  - eval_bins.
  - eval_bins.
  - eval_bins.
  - eval_bins.
Qed.

End CalorimeterBins.

(** ** Calorimeter: the packed hits and their order *)

Module CalorimeterHits.
Import Root Classes Calorimeter Examples CalorimeterBins.
Local Open Scope Z_scope.

Lemma lor_shiftl_add (a b k : Z) :
  0 <= k -> 0 <= b < 2 ^ k -> Z.lor (Z.shiftl a k) b = a * 2 ^ k + b.
Proof.
  intros Hk Hb. rewrite Z.shiftl_mul_pow2 by lia.
  symmetry. apply Z.add_nocarry_lor.
  apply Z.bits_inj'. intros n Hn. rewrite Z.land_spec, Z.bits_0.
  destruct (Z.lt_ge_cases n k) as [Hlt|Hge].
  - rewrite Z.mul_pow2_bits_low by lia. reflexivity.
  - destruct (Z.eq_dec b 0) as [->|Hb0]; [now rewrite Z.bits_0, andb_false_r|].
    rewrite (Z.bits_above_log2 b n); [apply andb_false_r | lia |].
    apply Z.log2_lt_pow2; [lia|]. 
    eapply Z.lt_le_trans; [apply Hb|]. apply Z.pow_le_mono_r; lia.
Qed.

Lemma towerHit_sum (e p f n : Z) :
  0 <= p < 2 ^ 16 -> 0 <= f < 2 ^ 8 -> 0 <= n < 2 ^ 24 ->
  towerHit e p f n = e * 2 ^ 48 + p * 2 ^ 32 + f * 2 ^ 24 + n.
Proof.
  intros Hp Hf Hn. unfold towerHit.
  rewrite <- Z.lor_assoc.
  rewrite (lor_shiftl_add f n 24) by lia.
  replace (Z.lor (Z.shiftl e 48) (Z.shiftl p 32)) with (Z.shiftl (Z.lor (Z.shiftl e 16) p) 32).
  2:{ rewrite Z.shiftl_lor, Z.shiftl_shiftl by lia. reflexivity. }
  rewrite (lor_shiftl_add e p 16) by lia.
  rewrite (lor_shiftl_add (e * 2 ^ 16 + p) (f * 2 ^ 24 + n) 32) by lia.
  lia.
Qed.

Lemma hit_EtaPhi_towerHit (e p f n : Z) :
  0 <= p < 2 ^ 16 -> 0 <= f < 2 ^ 8 -> 0 <= n < 2 ^ 24 ->
  hit_EtaPhi (towerHit e p f n) = e * 2 ^ 16 + p.
Proof.
  intros Hp Hf Hn. rewrite towerHit_sum by assumption.
  unfold hit_EtaPhi. rewrite Z.shiftr_div_pow2 by lia.
  symmetry. apply Z.div_unique with (r := f * 2 ^ 24 + n); lia.
Qed.

Lemma hit_flags_towerHit (e p f n : Z) :
  0 <= p < 2 ^ 16 -> 0 <= f < 2 ^ 8 -> 0 <= n < 2 ^ 24 ->
  hit_flags (towerHit e p f n) = f.
Proof.
  intros Hp Hf Hn. rewrite towerHit_sum by assumption.
  unfold hit_flags. rewrite Z.shiftr_div_pow2 by lia.
  change 255 with (Z.ones 8). rewrite Z.land_ones by lia.
  replace ((e * 2 ^ 48 + p * 2 ^ 32 + f * 2 ^ 24 + n) / 2 ^ 24)
    with (e * 2 ^ 24 + p * 2 ^ 8 + f)
    by (apply Z.div_unique with (r := n); lia).
  symmetry. apply Z.mod_unique with (q := e * 2 ^ 16 + p); lia.
Qed.

Lemma hit_number_towerHit (e p f n : Z) :
  0 <= p < 2 ^ 16 -> 0 <= f < 2 ^ 8 -> 0 <= n < 2 ^ 24 ->
  hit_number (towerHit e p f n) = n.
Proof.
  intros Hp Hf Hn. rewrite towerHit_sum by assumption.
  unfold hit_number. change 16777215 with (Z.ones 24). rewrite Z.land_ones by lia.
  symmetry. apply Z.mod_unique with (q := e * 2 ^ 24 + p * 2 ^ 8 + f); lia.
Qed.

Lemma hit_EtaPhi_mono (a b : Z) : a <= b -> hit_EtaPhi a <= hit_EtaPhi b.
Proof.
  intros Hab. unfold hit_EtaPhi. rewrite !Z.shiftr_div_pow2 by lia.
  apply Z.div_le_mono; lia.
Qed.

Lemma hit_flags_mono (a b : Z) :
  a <= b -> hit_EtaPhi a = hit_EtaPhi b -> hit_flags a <= hit_flags b.
Proof.
  unfold hit_EtaPhi, hit_flags. intros Hab Hkey.
  rewrite !Z.shiftr_div_pow2 in * by lia.
  change 255 with (Z.ones 8). rewrite !Z.land_ones by lia.
  assert (Hdiv : a / 2 ^ 24 <= b / 2 ^ 24) by (apply Z.div_le_mono; lia).
  change (2 ^ 32) with (2 ^ 24 * 2 ^ 8) in Hkey.
  rewrite <- !Z.div_div in Hkey by lia.
  pose proof (Z.div_mod (a / 2 ^ 24) (2 ^ 8) ltac:(lia)).
  pose proof (Z.div_mod (b / 2 ^ 24) (2 ^ 8) ltac:(lia)).
  lia.
Qed.

Lemma sorted_lookup_le (s : list Z) :
  StronglySorted Z.le s ->
  forall (i j : nat) (a b : Z),
    (i <= j)%nat -> s !! i = Some a -> s !! j = Some b -> a <= b.
Proof.
  induction 1 as [|x s Hs IH Hall]; intros i j a b Hij Ha Hb; [discriminate|].
  destruct i as [|i]; destruct j as [|j]; simpl in *; try lia.
  - injection Ha as ->. injection Hb as ->. lia.
  - injection Ha as ->. rewrite Forall_forall in Hall.
    apply Hall. eapply list_elem_of_lookup_2; eauto.
  - eapply IH; [|eassumption..]. lia.
Qed.

Lemma sort_sorted (hits : list Z) : StronglySorted Z.le (sort hits).
Proof. unfold sort. apply StronglySorted_merge_sort; apply _. Qed.

Lemma sort_perm (hits : list Z) : sort hits ≡ₚ hits.
Proof. apply merge_sort_Permutation. Qed.

Local Open Scope R_scope.

Lemma find_bin_range (bins : list R) (x : R) (it : nat) :
  find_bin bins x = Some it -> (0 < it < length bins)%nat.
Proof.
  unfold find_bin. pose proof (lower_bound_le_length bins x).
  destruct (decide _) as [|Hn]; [discriminate|].
  intros [= <-]. lia.
Qed.

Lemma FindTower_range (cfg : Config) (eta phi : R) (etaBin phiBin : Z) :
  wf_bins cfg -> FindTower cfg eta phi = Some (etaBin, phiBin) ->
  (1 <= etaBin < 2 ^ 15 /\ 1 <= phiBin < 2 ^ 15)%Z.
Proof.
  intros [_ _ Hlen Heshort Hpshort]. unfold FindTower.
  destruct (find_bin (fEtaBins cfg) eta) as [itEta|] eqn:He; [|discriminate]. simpl.
  apply find_bin_range in He. rewrite Short_t_id by lia. rewrite vec_at_of_nat.
  destruct (fPhiBins cfg !! itEta) as [phiBins|] eqn:Hphi; [|discriminate]. simpl.
  destruct (find_bin phiBins phi) as [itPhi|] eqn:Hp; [|discriminate]. simpl.
  apply find_bin_range in Hp.
  rewrite Forall_forall in Hpshort.
  pose proof (Hpshort phiBins ltac:(eapply list_elem_of_lookup_2; eauto)) as Hs.
  simpl in Hs. rewrite Short_t_id by lia. intros [= <- <-]. lia.
Qed.

Lemma input_loop_hit (body : Z -> Candidate -> option Entry) (l : list Candidate) :
  forall (number : Z) (es : list Entry) (h : Z),
    input_loop body number l = Some es -> h ∈ omap entry_hit es ->
    exists (i : nat) (c : Candidate) (e : Entry),
      l !! i = Some c /\ body (number + 1 + Z.of_nat i)%Z c = Some e
      /\ entry_hit e = Some h.
Proof.
  induction l as [|c l IH]; intros number es h Hloop Hin; simpl in Hloop.
  - injection Hloop as <-. simpl in Hin. inversion Hin.
  - destruct (body (number + 1)%Z c) as [e|] eqn:Hbody; [|discriminate]. simpl in Hloop.
    destruct (input_loop body (number + 1)%Z l) as [es'|] eqn:Hrest; [|discriminate].
    simpl in Hloop. injection Hloop as <-. simpl in Hin.
    destruct (entry_hit e) as [h'|] eqn:Hhit.
    + apply elem_of_cons in Hin as [->|Hin].
      * exists 0%nat, c, e. simpl. rewrite Z.add_0_r. auto.
      * destruct (IH _ _ _ Hrest Hin) as (i & c' & e' & Hl & Hb & Hh).
        exists (S i), c', e'. simpl. repeat split; try assumption.
        rewrite <- Hb. f_equal. lia.
    + destruct (IH _ _ _ Hrest Hin) as (i & c' & e' & Hl & Hb & Hh).
      exists (S i), c', e'. simpl. repeat split; try assumption.
      rewrite <- Hb. f_equal. lia.
Qed.

Lemma find_fraction_some (m : gmap Z (R * R)) (pdgCode : Z) :
  is_Some (m !! 0%Z) -> is_Some (find_fraction m pdgCode).
Proof.
  intros H0. unfold find_fraction. destruct (m !! pdgCode); eauto.
Qed.

Lemma input_loop_some (body : Z -> Candidate -> option Entry) (l : list Candidate) :
  (forall (number : Z) (c : Candidate), is_Some (body number c)) ->
  forall number : Z, is_Some (input_loop body number l).
Proof.
  intros Hbody. induction l as [|c l IH]; intros number; simpl; [eauto|].
  destruct (Hbody (number + 1)%Z c) as [e ->]. simpl.
  destruct (IH (number + 1)%Z) as [es ->]. simpl. eauto.
Qed.

(** With the fractions of code 0 in the map, as [Init] leaves them, the
    two input loops run to their end. *)
Lemma fill_tables_some (cfg : Config) (tracks particles : list Candidate) :
  is_Some (fFractionMap cfg !! 0%Z) ->
  is_Some (fill_tables cfg tracks particles).
Proof.
  intros H0. unfold fill_tables.
  destruct (input_loop_some (track_entry cfg) tracks) with (number := (-1)%Z)
    as [te ->].
  { intros number c. unfold track_entry.
    destruct (find_fraction_some (fFractionMap cfg) (Z.abs (PID (gen c))) H0)
      as [[ef hf] ->]. simpl. eauto. }
  destruct (input_loop_some (particle_entry cfg) particles) with (number := (-1)%Z)
    as [pe ->].
  { intros number c. unfold particle_entry.
    destruct (find_fraction_some (fFractionMap cfg) (Z.abs (PID (gen c))) H0)
      as [[ef hf] ->]. simpl. eauto. }
  simpl. eauto.
Qed.

(** C6 (as the code has it).  With the segmentation and the fractions
    [Init] leaves, [Process] collects the hits of fewer than 2^24 tracks
    and particles and sorts them in ascending order: the sorted vector
    holds the same hits; every hit reads back as a track hit (flags 1) or
    as a particle hit (flags 2 for an electron or photon, 0 for any other
    particle) of the (eta bin, phi bin) the lookup gave; the hits of one
    tower are contiguous; and within a tower the hits are in the order of
    their flags: particles that are neither electrons nor photons come
    first, then the tracks, then the electrons and photons. *)
Theorem sorted_hits_grouped_by_tower_then_flags (cfg : Config)
    (tracks particles : list Candidate) :
  wf_bins cfg ->
  is_Some (fFractionMap cfg !! 0%Z) ->
  (Z.of_nat (length tracks) <= 2 ^ 24)%Z ->
  (Z.of_nat (length particles) <= 2 ^ 24)%Z ->
  exists (tabs : HitTables) (hits : list Z),
  fill_tables cfg tracks particles = Some tabs
  /\ hits = sort (fTowerHits tabs)
  /\ hits ≡ₚ fTowerHits tabs
  /\ (forall h : Z, h ∈ hits ->
        (exists (track : Candidate) (etaBin phiBin : Z),
            vec_at tracks (hit_number h) = Some track
            /\ FindTower cfg (Eta (Position track)) (Phi (Position track))
               = Some (etaBin, phiBin)
            /\ hit_EtaPhi h = (etaBin * 2 ^ 16 + phiBin)%Z
            /\ hit_flags h = 1%Z)
        \/ (exists (particle : Candidate) (etaBin phiBin : Z),
            vec_at particles (hit_number h) = Some particle
            /\ FindTower cfg (Eta (Position particle)) (Phi (Position particle))
               = Some (etaBin, phiBin)
            /\ hit_EtaPhi h = (etaBin * 2 ^ 16 + phiBin)%Z
            /\ hit_flags h
               = if decide (Z.abs (PID (gen particle)) = 11%Z
                            \/ Z.abs (PID (gen particle)) = 22%Z)
                 then 2%Z else 0%Z))
  /\ (forall (i j k : nat) (a b c : Z),
        (i <= j <= k)%nat ->
        hits !! i = Some a -> hits !! j = Some b -> hits !! k = Some c ->
        hit_EtaPhi a = hit_EtaPhi c -> hit_EtaPhi b = hit_EtaPhi a)
  /\ (forall (i j : nat) (a b : Z),
        (i <= j)%nat -> hits !! i = Some a -> hits !! j = Some b ->
        hit_EtaPhi a = hit_EtaPhi b -> (hit_flags a <= hit_flags b)%Z).
Proof.
  intros Hwf H0 Hnt Hnp.
  destruct (fill_tables_some cfg tracks particles H0) as [tabs Hfill].
  exists tabs, (sort (fTowerHits tabs)). split; [exact Hfill|]. split; [reflexivity|].
  set (hits := sort (fTowerHits tabs)).
  pose proof (sort_sorted (fTowerHits tabs)) as Hsorted. fold hits in Hsorted.
  pose proof (sort_perm (fTowerHits tabs)) as Hperm. fold hits in Hperm.
  split; [exact Hperm|]. split; [|split].
  - intros h Hh. rewrite Hperm in Hh.
    unfold fill_tables in Hfill.
    destruct (input_loop (track_entry cfg) (-1) tracks) as [te|] eqn:Hte; [|discriminate].
    simpl in Hfill.
    destruct (input_loop (particle_entry cfg) (-1) particles) as [pe|] eqn:Hpe;
      [|discriminate].
    simpl in Hfill. injection Hfill as <-. simpl in Hh.
    apply elem_of_app in Hh as [Hh|Hh].
    + left. destruct (input_loop_hit _ _ _ _ _ Hte Hh) as (i & track & e & Hl & Hb & He).
      pose proof (lookup_lt_Some _ _ _ Hl) as Hi.
      replace (-1 + 1 + Z.of_nat i)%Z with (Z.of_nat i) in Hb by lia.
      unfold track_entry in Hb.
      destruct (find_fraction _ _) as [[ef hf]|]; [|discriminate]. simpl in Hb.
      injection Hb as <-. simpl in He.
      destruct (FindTower cfg _ _) as [[etaBin phiBin]|] eqn:Hft; [|discriminate].
      simpl in He. injection He as <-.
      destruct (FindTower_range _ _ _ _ _ Hwf Hft) as [Hre Hrp].
      exists track, etaBin, phiBin.
      rewrite hit_number_towerHit, hit_EtaPhi_towerHit, hit_flags_towerHit by lia.
      rewrite vec_at_of_nat. auto.
    + right. destruct (input_loop_hit _ _ _ _ _ Hpe Hh) as (i & particle & e & Hl & Hb & He).
      pose proof (lookup_lt_Some _ _ _ Hl) as Hi.
      replace (-1 + 1 + Z.of_nat i)%Z with (Z.of_nat i) in Hb by lia.
      unfold particle_entry in Hb.
      destruct (find_fraction _ _) as [[ef hf]|]; [|discriminate]. simpl in Hb.
      injection Hb as <-. simpl in He.
      destruct (decide (ef < 1e-9 /\ hf < 1e-9)); [discriminate|].
      destruct (FindTower cfg _ _) as [[etaBin phiBin]|] eqn:Hft; [|discriminate].
      simpl in He. injection He as <-.
      destruct (FindTower_range _ _ _ _ _ Hwf Hft) as [Hre Hrp].
      exists particle, etaBin, phiBin.
      assert (Hflags : Z.lor 0 (Z.shiftl (Z.b2z (bool_decide
                (Z.abs (PID (gen particle)) = 11%Z \/ Z.abs (PID (gen particle)) = 22%Z))) 1)
              = if decide (Z.abs (PID (gen particle)) = 11%Z
                           \/ Z.abs (PID (gen particle)) = 22%Z) then 2%Z else 0%Z).
      { destruct (decide _) as [Hd|Hd].
        - rewrite bool_decide_eq_true_2 by exact Hd. reflexivity.
        - rewrite bool_decide_eq_false_2 by exact Hd. reflexivity. }
      rewrite Hflags.
      assert (0 <= (if decide (Z.abs (PID (gen particle)) = 11%Z
                           \/ Z.abs (PID (gen particle)) = 22%Z) then 2 else 0) < 2 ^ 8)%Z
        by (destruct (decide _); lia).
      rewrite hit_number_towerHit, hit_EtaPhi_towerHit, hit_flags_towerHit by lia.
      rewrite vec_at_of_nat. auto.
  - intros i j k a b c [Hij Hjk] Ha Hb Hc Hkey.
    pose proof (hit_EtaPhi_mono a b (sorted_lookup_le _ Hsorted i j a b Hij Ha Hb)).
    pose proof (hit_EtaPhi_mono b c (sorted_lookup_le _ Hsorted j k b c Hjk Hb Hc)).
    lia.
  - intros i j a b Hij Ha Hb Hkey.
    apply hit_flags_mono; [|exact Hkey].
    exact (sorted_lookup_le _ Hsorted i j a b Hij Ha Hb).
Qed.

Lemma three_by_three_default :
  fFractionMap three_by_three !! 0%Z = Some (0, 1).
Proof.
  simpl. rewrite !lookup_insert_ne by lia. apply lookup_singleton_eq.
Qed.

Lemma find_fraction_default (pdgCode : Z) :
  pdgCode <> 0%Z -> pdgCode <> 11%Z -> pdgCode <> 22%Z ->
  find_fraction (fFractionMap three_by_three) pdgCode = Some (0, 1).
Proof.
  intros H0 H11 H22. unfold find_fraction.
  rewrite three_by_three_default. simpl.
  rewrite !lookup_insert_ne by lia. rewrite lookup_singleton_ne by lia.
  reflexivity.
Qed.

Lemma fill_tables_pion_neutron :
  fill_tables three_by_three [charged_pion] [neutron] = Some pion_neutron_tables.
Proof.
  unfold fill_tables. simpl. unfold track_entry, particle_entry.
  change (Z.abs (PID (gen charged_pion))) with 211%Z.
  change (Z.abs (PID (gen neutron))) with 2112%Z.
  rewrite !find_fraction_default by lia. simpl.
  unfold FindTower, find_bin, vec_at. eval_decide. reflexivity.
Qed.

(** The theorem at work on the event made of [charged_pion] as a track
    and [neutron] as a particle. *)
Lemma sorted_pion_neutron_hits :
  exists (tabs : HitTables) (hits : list Z),
    fill_tables three_by_three [charged_pion] [neutron] = Some tabs
    /\ hits = sort (fTowerHits tabs)
    /\ hits ≡ₚ fTowerHits tabs.
Proof.
  destruct (sorted_hits_grouped_by_tower_then_flags three_by_three
              [charged_pion] [neutron] three_by_three_wf
              ltac:(rewrite three_by_three_default; eauto)
              ltac:(simpl; lia) ltac:(simpl; lia))
    as (tabs & hits & Hfill & Hhits & Hperm & _).
  exists tabs, hits. auto.
Defined.

(** C6 as stated fails.  A charged pion seen as a track and a neutron
    seen as a particle hit the same tower (eta bin 1, phi bin 2).  The
    track hit has flags 1, the neutron's hit has flags 0, so the sorted
    vector has the particle hit first and the track hit after it. *)
Lemma particle_hit_sorted_before_track_hit :
  fill_tables three_by_three [charged_pion] [neutron] = Some pion_neutron_tables
  /\ fTowerHits pion_neutron_tables = [pion_hit; neutron_hit]
  /\ sort [pion_hit; neutron_hit] = [neutron_hit; pion_hit]
  /\ hit_EtaPhi neutron_hit = hit_EtaPhi pion_hit
  /\ is_track_hit neutron_hit = false
  /\ is_track_hit pion_hit = true.
Proof.
  split; [exact fill_tables_pion_neutron|].
  repeat split; vm_compute; reflexivity.
Qed.

End CalorimeterHits.

(** ** Calorimeter: smearing and the emission of a tower *)

Module CalorimeterTowers.
Import Root Classes Calorimeter Examples.
Local Open Scope R_scope.

(** C9.  [LogNormal(mean, sigma)] returns 0, and draws nothing, for every
    mean at or below 0; for a positive mean it returns exp(a + b g) with
    b = sqrt(ln(1 + sigma^2 / mean^2)), a = ln(mean) - b^2 / 2 and g the
    next draw of the generator, which advances by that one draw. *)
Theorem LogNormal_value (mean sigma : R) (g : TRandom) :
  (mean <= 0 -> LogNormal mean sigma g = (0, g))
  /\ (mean > 0 ->
      let b := sqrt (ln (1 + sigma ^ 2 / mean ^ 2)) in
      let a := ln mean - b ^ 2 / 2 in
      LogNormal mean sigma g
      = (exp (a + b * draws g (drawn g)), mkRandom (draws g) (S (drawn g)))).
Proof.
  unfold LogNormal, Gaus01, next_draw. split; intros Hmean.
  - destruct (decide (mean > 0)); [lra | reflexivity].
  - destruct (decide (mean > 0)); [|lra]. simpl.
    replace (sigma * sigma / (mean * mean)) with (sigma ^ 2 / mean ^ 2)
      by (simpl; rewrite !Rmult_1_r; reflexivity).
    do 2 f_equal. f_equal. simpl. lra.
Qed.

(** The theorem at mean 0 and at mean 1. *)
Lemma LogNormal_value_at_0_and_1 :
  LogNormal 0 1 zero_draws = (0, zero_draws)
  /\ LogNormal 1 0 zero_draws
     = (exp (ln 1 - sqrt (ln (1 + 0 ^ 2 / 1 ^ 2)) ^ 2 / 2
             + sqrt (ln (1 + 0 ^ 2 / 1 ^ 2)) * 0),
        mkRandom (fun _ => 0) 1).
Proof.
  split.
  - apply (proj1 (LogNormal_value 0 1 zero_draws)). lra.
  - apply (proj2 (LogNormal_value 1 0 zero_draws)). lra.
Defined.

(** The smeared energy is never negative, and it is positive exactly for
    a positive mean. *)
Lemma LogNormal_nonneg (mean sigma : R) (g : TRandom) :
  0 <= (LogNormal mean sigma g).1.
Proof.
  unfold LogNormal. destruct (decide (mean > 0)); simpl; [|lra].
  left. apply exp_pos.
Qed.

Lemma LogNormal_pos (mean sigma : R) (g : TRandom) :
  (LogNormal mean sigma g).1 > 0 <-> mean > 0.
Proof.
  unfold LogNormal. destruct (decide (mean > 0)); simpl.
  - split; [easy | intros _; apply exp_pos].
  - split; lra.
Qed.

Lemma smear_nonneg (cfg : Config) (t : Tower) (g : TRandom) :
  0 <= (smear cfg t g).1.1 /\ 0 <= (smear cfg t g).1.2.
Proof.
  unfold smear.
  pose proof (LogNormal_nonneg (fTowerECalEnergy t)
    (fECalResolutionFormula cfg (fTowerEta t) (fTowerECalEnergy t)) g) as He.
  destruct (LogNormal (fTowerECalEnergy t) _ g) as [e g1].
  pose proof (LogNormal_nonneg (fTowerHCalEnergy t)
    (fHCalResolutionFormula cfg (fTowerEta t) (fTowerHCalEnergy t)) g1) as Hh.
  destruct (LogNormal (fTowerHCalEnergy t) _ g1) as [h g2].
  simpl in *. split; assumption.
Qed.

(** C10.  For the tower [FinalizeTower] finalizes, with [Eem] and [Ehad]
    the smeared energies it stores: the tower is appended to the towers
    array when [Eem + Ehad > 0] and only then; when that energy is not
    positive (it is never negative, so it is zero) neither the towers nor
    the photons array changes; the photons array gets the tower only when
    the energy is positive; and in every case the tracks accumulated for
    the tower are appended, unchanged and in order, to the eflowTracks
    array. *)
Theorem tower_emitted_only_with_energy (cfg : Config) (t : Tower) (out : Output)
    (g : TRandom) (tower0 : Candidate) :
  fTower t = Some tower0 ->
  let ecalEnergy := (smear cfg t g).1.1 in
  let hcalEnergy := (smear cfg t g).1.2 in
  let tower := finalized t ecalEnergy hcalEnergy tower0 in
  let out' := (FinalizeTower cfg t out g).1 in
  Eem (calo tower) = ecalEnergy /\ Ehad (calo tower) = hcalEnergy
  /\ 0 <= Eem (calo tower) + Ehad (calo tower)
  /\ (Eem (calo tower) + Ehad (calo tower) > 0 ->
      fTowerOutputArray out' = fTowerOutputArray out ++ [tower])
  /\ (~ Eem (calo tower) + Ehad (calo tower) > 0 ->
      fTowerOutputArray out' = fTowerOutputArray out
      /\ fPhotonOutputArray out' = fPhotonOutputArray out)
  /\ (fPhotonOutputArray out' = fPhotonOutputArray out
      \/ (Eem (calo tower) + Ehad (calo tower) > 0
          /\ fPhotonOutputArray out' = fPhotonOutputArray out ++ [tower]))
  /\ fEFlowTrackOutputArray out' = fEFlowTrackOutputArray out ++ fTowerTrackArray t.
Proof.
  intros Ht. pose proof (smear_nonneg cfg t g) as [He Hh].
  unfold FinalizeTower. rewrite Ht.
  destruct (smear cfg t g) as [[e h] g']. simpl in *.
  repeat split; try lra.
  - intros Hpos. destruct (decide (e + h > 0)); [reflexivity | contradiction].
  - destruct (decide (e + h > 0)); [contradiction | reflexivity].
  - destruct (decide (e + h > 0)); [contradiction | reflexivity].
  - destruct (decide (e + h > 0)); [|left; reflexivity].
    destruct (decide ((fTowerPhotonHits t > 0)%Z /\ fTowerTrackHits t = 0%Z));
      [right; split; [assumption | reflexivity] | left; reflexivity].
Qed.

(** The two counters [FinalizeTower] tests count the hits of the tower:
    a hit that opens a new tower starts them from zero, every track hit
    adds one to [fTowerTrackHits], and every hit that is not a track hit
    and carries the electron/photon flag adds one to [fTowerPhotonHits]. *)
Lemma new_tower_counts (cfg : Config) (h : Z) (t : Tower) :
  new_tower cfg h = Some t ->
  fTowerTrackHits t = 0%Z /\ fTowerPhotonHits t = 0%Z.
Proof.
  unfold new_tower.
  generalize (Short_t (Z.land (Z.shiftr h 32) 65535)) as phiBin.
  generalize (Short_t (Z.land (Z.shiftr h 48) 65535)) as etaBin.
  intros etaBin phiBin Ht.
  destruct (vec_at (fPhiBins cfg) _) as [phiBins|]; [|discriminate]. simpl in Ht.
  destruct (vec_at (fEtaBins cfg) (etaBin - 1)) as [etaLo|]; [|discriminate].
  simpl in Ht.
  destruct (vec_at (fEtaBins cfg) etaBin) as [etaHi|]; [|discriminate]. simpl in Ht.
  destruct (vec_at phiBins (phiBin - 1)) as [phiLo|]; [|discriminate]. simpl in Ht.
  destruct (vec_at phiBins phiBin) as [phiHi|]; [|discriminate]. simpl in Ht.
  injection Ht as <-. split; reflexivity.
Qed.

Lemma track_step_counts (cfg : Config) (tabs : HitTables) (tracks : list Candidate)
    (t t' : Tower) (number : Z) :
  track_step cfg tabs tracks t number = Some t' ->
  fTowerTrackHits t' = (fTowerTrackHits t + 1)%Z
  /\ fTowerPhotonHits t' = fTowerPhotonHits t.
Proof.
  unfold track_step. intros Ht.
  destruct (vec_at tracks number) as [track|]; [|discriminate]. simpl in Ht.
  destruct (vec_at (fTrackECalFractions tabs) number) as [ef|]; [|discriminate].
  simpl in Ht.
  destruct (vec_at (fTrackHCalFractions tabs) number) as [hf|]; [|discriminate].
  simpl in Ht. injection Ht as <-. split; reflexivity.
Qed.

Lemma particle_step_counts (cfg : Config) (tabs : HitTables) (particles : list Candidate)
    (t t' : Tower) (flags number : Z) :
  particle_step cfg tabs particles t flags number = Some t' ->
  fTowerTrackHits t' = fTowerTrackHits t
  /\ fTowerPhotonHits t'
     = (fTowerPhotonHits t + (if decide (Z.land flags 2 <> 0%Z) then 1 else 0))%Z.
Proof.
  unfold particle_step. intros Ht.
  destruct (vec_at particles number) as [particle|]; [|discriminate]. simpl in Ht.
  destruct (vec_at (fTowerECalFractions tabs) number) as [ef|]; [|discriminate].
  simpl in Ht.
  destruct (vec_at (fTowerHCalFractions tabs) number) as [hf|]; [|discriminate].
  simpl in Ht.
  destruct (fTower t) as [c|]; [|discriminate]. simpl in Ht.
  destruct (vec_at (fParticlePDGId tabs) number) as [pdgCode|]; [|discriminate].
  simpl in Ht. injection Ht as <-. simpl. split; [reflexivity|].
  destruct (decide (Z.land flags 2 <> 0%Z)); lia.
Qed.

(** The two counters [FinalizeTower] tests count the hits of the tower:
    a hit that opens a new tower starts them from zero, every track hit
    adds one to [fTowerTrackHits], and every hit that is not a track hit
    and carries the electron/photon flag adds one to [fTowerPhotonHits]. *)
Lemma hit_step_counts (cfg : Config) (tabs : HitTables) (tracks particles : list Candidate)
    (s s' : Scan) (h : Z) :
  hit_step cfg tabs tracks particles s h = Some s' ->
  towerEtaPhi s' = hit_EtaPhi h
  /\ fTowerTrackHits (tower s')
     = ((if decide (towerEtaPhi s <> hit_EtaPhi h) then 0 else fTowerTrackHits (tower s))
        + (if is_track_hit h then 1 else 0))%Z
  /\ fTowerPhotonHits (tower s')
     = ((if decide (towerEtaPhi s <> hit_EtaPhi h) then 0 else fTowerPhotonHits (tower s))
        + (if is_track_hit h then 0 else if is_photon_hit h then 1 else 0))%Z.
Proof.
  unfold hit_step, is_track_hit, is_photon_hit.
  generalize (hit_flags h) as flags. generalize (hit_number h) as number.
  generalize (hit_EtaPhi h) as hitEtaPhi. intros hitEtaPhi number flags Hstep.
  destruct (decide (towerEtaPhi s <> hitEtaPhi)) as [Hnew|Hsame].
  - destruct (FinalizeTower cfg (tower s) (output s) (gRandom s)) as [out' g'].
    destruct (new_tower cfg h) as [t|] eqn:Ht; [|discriminate].
    apply new_tower_counts in Ht as [Ht0 Hp0]. simpl in Hstep.
    destruct (decide (Z.land flags 1 <> 0%Z)) as [Htrack|Hpart].
    + destruct (track_step cfg tabs tracks t number) as [t'|] eqn:Hts; [|discriminate].
      apply track_step_counts in Hts as [Htr Hph]. simpl in Hstep.
      injection Hstep as <-. simpl. apply Z.eqb_neq in Htrack. rewrite Htrack. simpl.
      repeat split; lia.
    + destruct (particle_step cfg tabs particles t flags number) as [t'|] eqn:Hps;
        [|discriminate].
      apply particle_step_counts in Hps as [Htr Hph]. simpl in Hstep.
      injection Hstep as <-. simpl.
      assert (Heqb : (Z.land flags 1 =? 0)%Z = true) by (apply Z.eqb_eq; lia).
      rewrite Heqb. simpl. split; [reflexivity|]. split; [lia|]. rewrite Hph, Hp0.
      destruct (decide (Z.land flags 2 <> 0%Z)) as [Hp|Hp].
      * apply Z.eqb_neq in Hp. rewrite Hp. reflexivity.
      * assert (Hp' : (Z.land flags 2 =? 0)%Z = true) by (apply Z.eqb_eq; lia).
        rewrite Hp'. reflexivity.
  - assert (Hkey : towerEtaPhi s = hitEtaPhi)
      by (destruct (decide (towerEtaPhi s = hitEtaPhi)); [assumption | contradiction]).
    simpl in Hstep.
    destruct (decide (Z.land flags 1 <> 0%Z)) as [Htrack|Hpart].
    + destruct (track_step cfg tabs tracks (tower s) number) as [t'|] eqn:Hts;
        [|discriminate].
      apply track_step_counts in Hts as [Htr Hph]. simpl in Hstep.
      injection Hstep as <-. simpl. apply Z.eqb_neq in Htrack. rewrite Htrack. simpl.
      repeat split; [assumption | lia | lia].
    + destruct (particle_step cfg tabs particles (tower s) flags number) as [t'|] eqn:Hps;
        [|discriminate].
      apply particle_step_counts in Hps as [Htr Hph]. simpl in Hstep.
      injection Hstep as <-. simpl.
      assert (Heqb : (Z.land flags 1 =? 0)%Z = true) by (apply Z.eqb_eq; lia).
      rewrite Heqb. simpl. split; [assumption|]. split; [lia|]. rewrite Hph.
      destruct (decide (Z.land flags 2 <> 0%Z)) as [Hp|Hp].
      * apply Z.eqb_neq in Hp. rewrite Hp. reflexivity.
      * assert (Hp' : (Z.land flags 2 =? 0)%Z = true) by (apply Z.eqb_eq; lia).
        rewrite Hp'. reflexivity.
Qed.

(** C8 (as the code has it).  The tower [FinalizeTower] finalizes is
    appended to the photons array if and only if its smeared energy
    [Eem + Ehad] is positive, it counted at least one electron or photon
    hit and it counted no track hit; otherwise the photons array is left
    as it was. *)
Theorem photon_emitted_iff (cfg : Config) (t : Tower) (out : Output)
    (g : TRandom) (tower0 : Candidate) :
  fTower t = Some tower0 ->
  let ecalEnergy := (smear cfg t g).1.1 in
  let hcalEnergy := (smear cfg t g).1.2 in
  let tower := finalized t ecalEnergy hcalEnergy tower0 in
  let out' := (FinalizeTower cfg t out g).1 in
  let emitted :=
    Eem (calo tower) + Ehad (calo tower) > 0
    /\ (fTowerPhotonHits t > 0)%Z /\ fTowerTrackHits t = 0%Z in
  (emitted -> fPhotonOutputArray out' = fPhotonOutputArray out ++ [tower])
  /\ (~ emitted -> fPhotonOutputArray out' = fPhotonOutputArray out).
Proof.
  intros Ht. unfold FinalizeTower. rewrite Ht.
  destruct (smear cfg t g) as [[e h] g']. simpl.
  split.
  - intros (Hpos & Hph & Htr).
    destruct (decide (e + h > 0)); [|contradiction].
    destruct (decide ((fTowerPhotonHits t > 0)%Z /\ fTowerTrackHits t = 0%Z));
      [reflexivity | tauto].
  - intros Hn.
    destruct (decide (e + h > 0)); [|reflexivity].
    destruct (decide ((fTowerPhotonHits t > 0)%Z /\ fTowerTrackHits t = 0%Z));
      [tauto | reflexivity].
Qed.

(** The theorem at work: [photon_tower] has positive smeared energy, one
    photon hit and no track hit, and is appended to the photons array. *)
Lemma photon_tower_emitted :
  fPhotonOutputArray (FinalizeTower three_by_three photon_tower Output0 zero_draws).1
  = [] ++ [finalized photon_tower (smear three_by_three photon_tower zero_draws).1.1
             (smear three_by_three photon_tower zero_draws).1.2 NewCandidate].
Proof.
  apply (proj1 (photon_emitted_iff three_by_three photon_tower Output0 zero_draws
                  NewCandidate eq_refl)).
  split; [|simpl; split; [lia | reflexivity]].
  pose proof (smear_nonneg three_by_three photon_tower zero_draws) as [_ Hh].
  assert (He : (smear three_by_three photon_tower zero_draws).1.1 > 0).
  { unfold smear. simpl.
    pose proof (proj2 (LogNormal_pos 100 0 zero_draws)) as Hp.
    destruct (LogNormal 100 0 zero_draws) as [e g1].
    destruct (LogNormal 0 0 g1) as [h g2]. simpl in *. apply Hp. lra. }
  simpl. lra.
Defined.

(** The theorem at work on the same tower: it is appended to the towers
    array, and no track is added to the eflowTracks array. *)
Lemma photon_tower_in_towers :
  fTowerOutputArray (FinalizeTower three_by_three photon_tower Output0 zero_draws).1
  = [] ++ [finalized photon_tower (smear three_by_three photon_tower zero_draws).1.1
             (smear three_by_three photon_tower zero_draws).1.2 NewCandidate]
  /\ fEFlowTrackOutputArray
       (FinalizeTower three_by_three photon_tower Output0 zero_draws).1 = [] ++ [].
Proof.
  pose proof (tower_emitted_only_with_energy three_by_three photon_tower Output0
                zero_draws NewCandidate eq_refl) as (_ & _ & _ & Hpos & _ & _ & Htr).
  split; [apply Hpos | exact Htr].
  pose proof (smear_nonneg three_by_three photon_tower zero_draws) as [_ Hh].
  assert (He : (smear three_by_three photon_tower zero_draws).1.1 > 0).
  { unfold smear. simpl.
    pose proof (proj2 (LogNormal_pos 100 0 zero_draws)) as Hp.
    destruct (LogNormal 100 0 zero_draws) as [e g1].
    destruct (LogNormal 0 0 g1) as [h g2]. simpl in *. apply Hp. lra. }
  simpl. lra.
Defined.

Lemma find_fraction_photon :
  find_fraction (fFractionMap three_by_three) 22 = Some (1, 0).
Proof. unfold find_fraction. simpl. rewrite lookup_insert_eq. reflexivity. Qed.

Lemma fill_tables_photon :
  fill_tables three_by_three [] [zero_energy_photon] = Some photon_tables.
Proof.
  unfold fill_tables. simpl. unfold particle_entry.
  change (Z.abs (PID (gen zero_energy_photon))) with 22%Z.
  rewrite find_fraction_photon. simpl.
  unfold FindTower, find_bin, vec_at. eval_decide. reflexivity.
Qed.

(** C8 as stated fails.  The event is one photon of zero energy: its hit
    is an electron/photon hit, the event has no track, so its tower has
    an electron/photon hit and no track hit; the tower's energy is zero,
    and [Process] leaves the photons array (and the towers array)
    empty. *)
Lemma zero_energy_photon_tower_not_emitted :
  fill_tables three_by_three [] [zero_energy_photon] = Some photon_tables
  /\ fTowerHits photon_tables = [photon_hit]
  /\ is_photon_hit photon_hit = true
  /\ is_track_hit photon_hit = false
  /\ Process three_by_three [] [zero_energy_photon] zero_draws
     = Some (Output0, zero_draws).
Proof.
  split; [exact fill_tables_photon|].
  repeat split.
  unfold Process. rewrite fill_tables_photon. simpl.
  change (sort [photon_hit]) with [photon_hit].
  unfold scan_hits, hit_step.
  change (hit_flags photon_hit) with 2%Z.
  change (hit_number photon_hit) with 0%Z.
  change (hit_EtaPhi photon_hit) with 65538%Z.
  simpl towerEtaPhi. destruct (decide (0%Z <> 65538%Z)); [|lia].
  simpl. unfold new_tower.
  change (Short_t (Z.land (photon_hit ≫ 32) 65535)) with 2%Z.
  change (Short_t (Z.land (photon_hit ≫ 48) 65535)) with 1%Z.
  unfold vec_at. simpl.
  unfold particle_step, vec_at. simpl.
  unfold FinalizeTower. simpl. unfold smear, LogNormal. simpl.
  eval_decide. unfold eflow_tower. eval_decide.
  reflexivity.
Qed.

End CalorimeterTowers.

(** ** FastJetFinder: the jets written to the output array *)

Module FastJetFinderFacts.
Import Root Classes FastJetFinder Examples RootFacts.
Local Open Scope R_scope.

Section WithFastJet.
Context {PseudoJet : Type} `{FastJet PseudoJet}.

(** The largest subjet mass of lines 327-334 is the largest of 0 and the
    subjets' masses. *)
Lemma fold_Rmax_init (a b : R) (l : list R) :
  fold_right Rmax (Rmax a b) l = Rmax a (fold_right Rmax b l).
Proof.
  induction l as [|x l IH]; simpl; [reflexivity|].
  rewrite IH, !Rmax_assoc, (Rmax_comm x a). reflexivity.
Qed.



(** With [fKeepPileUp] at 0 a pile-up candidate is left out of the input
    list and the numbering goes on without it: the candidate after it, at
    position 1 of [fInputArray], gets user index 0, the position of the
    pile-up candidate that [fInputArray->At] will return for it. *)
Lemma input_list_numbers_kept_candidates (cfg : Config) (pu t : Candidate) :
  fKeepPileUp cfg = 0%Z -> (IsPU pu > 0)%Z -> (IsPU t <= 0)%Z ->
  input_list cfg 0 [pu; t] = [mkPseudoJet (Momentum t) 0].
Proof.
  intros Hkeep Hpu Ht. simpl.
  rewrite decide_True by (split; assumption).
  rewrite decide_False by (intros [_ Hgt]; lia).
  reflexivity.
Qed.

(** What the constituent loop leaves in [detaMax] and [dphiMax]: the
    largest of the value on entry and of the distances of the jet's own
    constituents. *)
Lemma constituent_loop_max (fInputArray : list Candidate) (momentum : TLorentzVector)
    (l : list PseudoJet) :
  forall (d p d' p' : R) (c c' : Candidate),
    constituent_loop fInputArray momentum (d, p, c) l = Some (d', p', c') ->
    exists cs : list Candidate,
      mapM (fun pj => vec_at fInputArray (user_index pj)) l = Some cs
      /\ d' = fold_right Rmax d
                (map (fun k => Rabs (Eta momentum - Eta (Momentum k))) cs)
      /\ p' = fold_right Rmax p
                (map (fun k => Rabs (Root.DeltaPhi momentum (Momentum k))) cs).
Proof.
  induction l as [|pj l IH]; intros d p d' p' c c' Hloop; simpl in Hloop.
  - injection Hloop as <- <- <-. exists []. auto.
  - destruct (vec_at fInputArray (user_index pj)) as [k|] eqn:Hk; [|discriminate].
    simpl in Hloop. apply IH in Hloop as (cs & Hcs & Hd & Hp).
    exists (k :: cs). simpl. rewrite Hk. simpl. rewrite Hcs. simpl.
    split; [reflexivity|]. rewrite Hd, Hp, <- !fold_Rmax_init.
    split; f_equal; unfold Rmax;
      match goal with |- context [decide ?P] => destruct (decide P) end;
      destruct (Rle_dec _ _); lra.
Qed.

(** The DeltaEta and DeltaPhi written to a jet are the largest of the
    values [detaMax], [dphiMax] left by the jets before it and of the
    distances of its own constituents; they are also what the next jet
    starts from. *)
Lemma export_jet_running_max (cfg : Config) (fInputArray : list Candidate)
    (inputList : list PseudoJet) (d0 p0 d1 p1 : R) (jet : PseudoJet)
    (candidate : Candidate) (calls : list Call) :
  export_jet cfg fInputArray inputList (d0, p0) jet = Some (d1, p1, candidate, calls) ->
  exists cs : list Candidate,
    mapM (fun pj => vec_at fInputArray (user_index pj)) (constituents inputList jet)
    = Some cs
    /\ DeltaEta candidate
       = fold_right Rmax d0
           (map (fun k => Rabs (Eta (pj_momentum jet) - Eta (Momentum k))) cs)
    /\ DeltaPhi candidate
       = fold_right Rmax p0
           (map (fun k => Rabs (Root.DeltaPhi (pj_momentum jet) (Momentum k))) cs)
    /\ d1 = DeltaEta candidate /\ p1 = DeltaPhi candidate.
Proof.
  unfold export_jet. intros Hexp.
  destruct (constituent_loop _ _ _ _) as [[[d p] c]|] eqn:Hloop; [|discriminate].
  apply constituent_loop_max in Hloop as (cs & Hcs & Hd & Hp).
  simpl in Hexp. unfold substructure in Hexp.
  destruct (decide (perp jet > 200)); injection Hexp as <- <- <- <-;
    exists cs; simpl; auto.
Qed.




End WithFastJet.




(** C2 fails on the code at this event.  The first jet is made of the
    towers at eta 0 and 0.4, its axis is at eta 0.2 and its DeltaEta is
    0.2.  The second jet is the tower at eta 2 alone (tower number 2 is
    its only constituent), on its own axis, so the largest distance of its
    constituents in eta is 0; the code gives it DeltaEta 0.2, the value
    left in [detaMax] by the first jet. *)
Lemma second_jet_inherits_DeltaEta :
  exists (jetA jetB : Candidate) (calls : list Call),
    Process jet_config three_towers = Some ([jetA; jetB], calls)
    /\ fArray jetA = [0%nat; 1%nat] /\ DeltaEta jetA = 0.2
    /\ fArray jetB = [2%nat]
    /\ Rabs (Eta (Momentum jetB) - Eta (Momentum (tower_at 50 2))) = 0
    /\ DeltaEta jetB = 0.2.
Proof.
  unfold Process, input_list, three_towers, jet_config. eval_decide.
  unfold inclusive_jets. simpl. unfold toy_cluster. simpl.
  rewrite !filter_cons. eval_decide.
  unfold export_jet. simpl. unfold constituent_step, vec_at. eval_decide.
  unfold Root.DeltaPhi. simpl. rewrite !Phi_mpi_pi_0.
  eval_decide. unfold substructure. eval_decide.
  do 3 eexists. split; [reflexivity|]. simpl.
  repeat split; try lra. eval_Rabs. lra.
Qed.

End FastJetFinderFacts.

(** ** BTagging: the flavours of a jet *)

Module BTaggingFlavour.
Import Root Classes BTagging BTaggingSelection Examples FlavourExamples RootFacts.
Local Open Scope R_scope.

Lemma partons_b_c_selected (held : bool) :
  GetSubArray (GetCategory btag_config) 0 held [b_quark; c_quark]
  = Some [b_quark; c_quark].
Proof.
  unfold GetSubArray. rewrite !filter_cons. unfold GetCategory. eval_decide.
  reflexivity.
Qed.

Lemma lhe_gluon_selected (held : bool) :
  GetSubArray (GetCategoryLHE btag_config) 0 held [lhe_gluon] = Some [lhe_gluon].
Proof.
  unfold GetSubArray. rewrite !filter_cons. unfold GetCategoryLHE. eval_decide.
  reflexivity.
Qed.

(** C3 fails on the code at this event.  The partons kept by the
    classifier are a b quark and, after it, a c quark, both on the jet
    axis (so inside the cone), both without daughters and neither
    matching the LHE gluon.  Line 330 takes the c quark without testing
    that nothing was found yet, so the c quark replaces the b quark:
    flavourHeaviest and flavourAlgo are 4, where a b in the cone asks
    for 5. *)
Lemma c_after_b_replaces_heaviest :
  (forall held : bool,
     GetSubArray (GetCategory btag_config) 0 held [b_quark; c_quark]
     = Some [b_quark; c_quark])
  /\ (forall held : bool,
       GetSubArray (GetCategoryLHE btag_config) 0 held [lhe_gluon] = Some [lhe_gluon])
  /\ Z.abs (PID (gen b_quark)) = 5%Z
  /\ DeltaR (Momentum jet_100) (Momentum b_quark) <= fDeltaR btag_config
  /\ nparton_daughters all_particles b_quark = Some 0%Z
  /\ ~ same_parton 0.001 b_quark lhe_gluon
  /\ forall uninit : Z * Z,
       exists jet' : Candidate,
         GetAlgoFlavour btag_config all_particles uninit jet_100
           [b_quark; c_quark] [lhe_gluon] = Some jet'
         /\ Heaviest (flavour jet') = 4%Z
         /\ Algo (flavour jet') = 4%Z
         /\ HighestPt (flavour jet') = 5%Z.
Proof.
  split; [exact partons_b_c_selected|]. split; [exact lhe_gluon_selected|].
  split; [reflexivity|].
  split; [rewrite DeltaR_same_phi by reflexivity; simpl; eval_Rabs; lra|].
  split; [unfold nparton_daughters; eval_decide; reflexivity|].
  split; [unfold same_parton; simpl; intros (_ & Hpid & _); discriminate|].
  intros uninit.
  unfold GetAlgoFlavour, parton_loop, lhe_loop, same_parton, nparton_daughters,
    record_parton.
  eval_DeltaR. eval_decide.
  eexists. split; [reflexivity|]. unfold algo_flavours. eval_decide.
  repeat split; reflexivity.
Qed.

Lemma physics_state_fold (cfg : Config) (jet : Candidate) (l : list Candidate) :
  forall st : PhysicsState,
    let st' := foldl (lhe_step cfg jet) st l in
    let inside := filter (in_cone cfg jet) l in
    nInTheCone st' = (nInTheCone st + Z.of_nat (length inside))%Z
    /\ phys_tempParticle st' = default (phys_tempParticle st) (last inside).
Proof.
  induction l as [|p l IH]; intros st; simpl; [split; [lia | reflexivity]|].
  destruct (IH (lhe_step cfg jet st p)) as [Hn Ht]. simpl in Hn, Ht.
  rewrite Hn, Ht. rewrite filter_cons. unfold lhe_step, in_cone.
  destruct (decide (Status (gen p) = 1%Z /\ _ < _)) as [?|?]; simpl;
  destruct (decide (Status (gen p) = 1%Z /\ _ <= _)) as [?|?]; simpl.
  all: try (split; [lia|]).
  all: try reflexivity.
  all: try (rewrite last_cons; destruct (last _); reflexivity).
Qed.

Lemma contamination_check_value (fParticleInputArray : list Candidate)
    (initial : Candidate) (flavourPhysics : Z) (conts : list Candidate) :
  (forall c, c ∈ conts -> is_Some (mother_is_initial fParticleInputArray initial c)) ->
  exists result,
    contamination_check fParticleInputArray initial flavourPhysics conts = Some result
    /\ (Z.abs (PID (gen initial)) = 4%Z
        /\ (exists c, c ∈ conts /\ (Z.abs (PID (gen c)) <> 4%Z /\ mother_is_initial fParticleInputArray initial c = Some false)) ->
        result = 0%Z)
    /\ (~ (Z.abs (PID (gen initial)) = 4%Z
           /\ (exists c, c ∈ conts /\ (Z.abs (PID (gen c)) <> 4%Z /\ mother_is_initial fParticleInputArray initial c = Some false))) ->
        result = flavourPhysics).
Proof.
  induction conts as [|c conts IH]; intros Hsome; simpl.
  - exists flavourPhysics. split; [reflexivity|]. split; [|reflexivity].
    intros (_ & c & Hin & _). inversion Hin.
  - destruct (Hsome c ltac:(left)) as [ok Hok]. rewrite Hok. simpl.
    destruct (IH ltac:(intros c' Hc'; apply Hsome; right; exact Hc'))
      as (result & Hres & Hrej & Hkeep).
    destruct ok.
    + exists result. split; [exact Hres|]. split.
      * intros (H4 & c' & Hin & Hp & Hm). apply Hrej. split; [exact H4|].
        apply elem_of_cons in Hin as [->|Hin]; [congruence|]. eauto.
      * intros Hn. apply Hkeep. intros (H4 & c' & Hin & Hoff). apply Hn.
        split; [exact H4|]. exists c'. split; [right; exact Hin | exact Hoff].
    + destruct (decide (Z.abs (PID (gen initial)) = 4%Z)) as [H4|H4].
      * destruct (decide (Z.abs (PID (gen c)) = 4%Z)) as [Hc|Hc].
        -- exists result. split; [exact Hres|]. split.
           ++ intros (_ & c' & Hin & Hp & Hm). apply Hrej. split; [exact H4|].
              apply elem_of_cons in Hin as [->|Hin]; [contradiction|]. eauto.
           ++ intros Hn. apply Hkeep. intros (_ & c' & Hin & Hoff). apply Hn.
              split; [exact H4|]. exists c'. split; [right; exact Hin | exact Hoff].
        -- exists 0%Z. split; [reflexivity|]. split; [reflexivity|].
           intros Hn. exfalso. apply Hn. split; [exact H4|].
           exists c. split; [left | split; assumption].
      * exists result. split; [exact Hres|]. split; [tauto|].
        intros _. apply Hkeep. tauto.
Qed.

Lemma mother_is_initial_some (fParticleInputArray : list Candidate)
    (initial c : Candidate) :
  (M1 (gen c) <> (-1)%Z \/ M2 (gen c) <> (-1)%Z ->
   is_Some (vec_at fParticleInputArray (M1 (gen c)))) ->
  is_Some (mother_is_initial fParticleInputArray initial c).
Proof.
  intros Hvalid. unfold mother_is_initial.
  destruct (decide (_ > 0)%Z) as [Hm|Hm]; [|eexists; reflexivity].
  destruct Hvalid as [mother ->]; [|eexists; reflexivity].
  destruct (decide (M1 (gen c) <> (-1)%Z)); [left; assumption|].
  destruct (decide (M2 (gen c) <> (-1)%Z)); [right; assumption|].
  repeat (rewrite decide_False in Hm by assumption). lia.
Qed.

(** The value of flavourPhysics in terms of the contaminations the code
    has collected. *)
Lemma flavourPhysics_of_contaminations (cfg : Config)
    (fParticleInputArray : list Candidate)
    (jet : Candidate) (partonArray LHEpartonArray : list Candidate) :
  let conts := contaminations jet partonArray LHEpartonArray in
  (forall c : Candidate, c ∈ conts ->
     M1 (gen c) <> (-1)%Z \/ M2 (gen c) <> (-1)%Z ->
     is_Some (vec_at fParticleInputArray (M1 (gen c)))) ->
  exists jet' : Candidate,
    GetPhysicsFlavour cfg fParticleInputArray jet partonArray LHEpartonArray = Some jet'
    /\ (length (filter (in_cone cfg jet) LHEpartonArray) <> 1%nat ->
        Physics (flavour jet') = 0%Z)
    /\ (forall initial : Candidate,
          filter (in_cone cfg jet) LHEpartonArray = [initial] ->
          let rejected :=
            Z.abs (PID (gen initial)) = 4%Z
            /\ exists c : Candidate,
                c ∈ conts /\ Z.abs (PID (gen c)) <> 4%Z
                /\ mother_is_initial fParticleInputArray initial c = Some false in
          (rejected -> Physics (flavour jet') = 0%Z)
          /\ (~ rejected -> Physics (flavour jet') = Z.abs (PID (gen initial)))).
Proof.
  intros conts Hvalid. unfold GetPhysicsFlavour. fold conts.
  destruct (physics_state_fold cfg jet LHEpartonArray
              (mkPhysicsState NewCandidate NewCandidate 1000 0)) as [Hn Ht].
  fold (physics_state cfg jet LHEpartonArray) in Hn, Ht. simpl in Hn, Ht.
  set (st := physics_state cfg jet LHEpartonArray) in *.
  set (inside := filter (in_cone cfg jet) LHEpartonArray) in *.
  destruct (decide (nInTheCone st <> 1%Z)) as [Hne|He].
  - simpl. eexists. split; [reflexivity|]. simpl. split; [reflexivity|].
    intros initial Hin. rewrite Hin in Hn. simpl in Hn. lia.
  - assert (Hlen : length inside = 1%nat) by lia.
    destruct inside as [|initial [|? ?]] eqn:Hinside; try discriminate.
    simpl in Ht.
    destruct (decide (length conts = 0%nat)) as [Hc0|Hc0].
    + simpl. eexists. split; [reflexivity|]. simpl. split; [intros; lia|].
      intros initial' [= <-]. rewrite Ht. split; [|reflexivity].
      intros (_ & c & Hc & _). destruct conts; [inversion Hc | discriminate].
    + destruct (contamination_check_value fParticleInputArray (phys_tempParticle st)
                  (Z.abs (PID (gen (phys_tempParticle st)))) conts) as (res & Hres & Hrej & Hkeep).
      { intros c Hc. apply mother_is_initial_some. apply Hvalid. exact Hc. }
      rewrite Hres. simpl. eexists. split; [reflexivity|]. simpl.
      split; [intros; lia|].
      intros initial' [= <-]. rewrite Ht in *. split.
      * intros Hr. apply Hrej. exact Hr.
      * intros Hr. apply Hkeep. exact Hr.
Qed.

Lemma lhe_scan_rest (parton : Candidate) (remaining : list Candidate) :
  forall LHEParton : Candidate,
    LHEParton ∈ (lhe_scan parton remaining).2 -> LHEParton ∈ remaining.
Proof.
  induction remaining as [|first rest IH]; intros LHEParton Hin; [exact Hin|].
  cbn [lhe_scan] in Hin.
  destruct (decide (same_parton 0.01 parton first)); cbn [snd] in Hin.
  - right. exact Hin.
  - right. apply IH. exact Hin.
Qed.

Lemma lhe_scan_unmatched (parton : Candidate) (remaining : list Candidate) :
  (forall LHEParton : Candidate,
     LHEParton ∈ remaining -> ~ same_parton 0.01 parton LHEParton) ->
  (lhe_scan parton remaining).1 = true.
Proof.
  induction remaining as [|first rest IH]; intros Hno; [reflexivity|].
  cbn [lhe_scan]. rewrite decide_False by (apply Hno; left).
  apply IH. intros LHEParton Hin. apply Hno. right. exact Hin.
Qed.

(** Line 392 lets the parton through and lines 393-395 keep it. *)
Lemma contamination_step (jet parton : Candidate) (remaining rest : list Candidate) :
  contamination_loop jet remaining (parton :: rest)
  = (if decide ((lhe_scan parton remaining).1 = true /\ contaminates jet parton)
     then [parton] else [])
    ++ contamination_loop jet (lhe_scan parton remaining).2 rest.
Proof.
  cbn [contamination_loop]. unfold contaminates.
  destruct (lhe_scan parton remaining) as [isGoodCandidate remaining'].
  cbn [fst snd]. destruct isGoodCandidate; cbn [negb].
  - destruct (decide (D1 (gen parton) <> (-1)%Z \/ D2 (gen parton) <> (-1)%Z));
      [|rewrite decide_False by tauto; reflexivity].
    destruct (decide ((Z.abs (PID (gen parton)) < 4)%Z \/ Z.abs (PID (gen parton)) = 21%Z));
      [rewrite decide_False by tauto; reflexivity|].
    destruct (decide (DeltaR (Momentum jet) (Momentum parton) < 0.7)).
    + rewrite decide_True by tauto. reflexivity.
    + rewrite decide_False by tauto. reflexivity.
  - rewrite decide_False by (intros [Hf _]; discriminate). reflexivity.
Qed.

Lemma contamination_loop_sublist (jet : Candidate) (partons : list Candidate) :
  forall remaining : list Candidate,
    sublist (contamination_loop jet remaining partons)
      (filter (contaminates jet) partons).
Proof.
  induction partons as [|parton rest IH]; intros remaining; [constructor|].
  rewrite contamination_step, filter_cons.
  destruct (decide ((lhe_scan parton remaining).1 = true /\ contaminates jet parton))
    as [[_ Hc]|Hno].
  - rewrite decide_True by exact Hc. cbn [app]. apply sublist_skip, IH.
  - cbn [app]. destruct (decide (contaminates jet parton)).
    + apply sublist_cons, IH.
    + apply IH.
Qed.

Lemma contamination_loop_unmatched (jet p : Candidate) (partons : list Candidate) :
  forall remaining : list Candidate,
    p ∈ partons -> contaminates jet p ->
    (forall LHEParton : Candidate,
       LHEParton ∈ remaining -> ~ same_parton 0.01 p LHEParton) ->
    p ∈ contamination_loop jet remaining partons.
Proof.
  induction partons as [|parton rest IH]; intros remaining Hin Hc Hno;
    [inversion Hin|].
  rewrite contamination_step. apply elem_of_app.
  apply elem_of_cons in Hin as [->|Hin].
  - left. rewrite decide_True; [left|].
    split; [apply lhe_scan_unmatched; exact Hno | exact Hc].
  - right. apply IH; [exact Hin | exact Hc|].
    intros LHEParton Hl. apply Hno. apply (lhe_scan_rest parton). exact Hl.
Qed.

(** C4 (as the code has it).  The contamination set holds, in the order
    of the parton array, only partons that have a daughter, have |PID| of
    at least 4, are not gluons and lie within 0.7 of the jet; such a
    parton is in the set whenever it matches no LHE parton (within 0.01,
    same PID and charge).  When every contaminant that has a mother has
    its first mother among the event's particles, [GetPhysicsFlavour]
    returns, and: flavourPhysics is 0 unless exactly one status-1 LHE
    parton lies within [fDeltaR] of the jet; when exactly one does,
    flavourPhysics is 0 if that parton is a c quark and some contaminant
    is not a c quark and has no mother pointing where that parton points,
    and it is that parton's absolute PID in every other case.  So a
    contaminant never resets a jet whose parton is not a c quark, and a
    contaminant of the same flavour never resets any jet. *)
Theorem flavourPhysics_value (cfg : Config) (fParticleInputArray : list Candidate)
    (jet : Candidate) (partonArray LHEpartonArray : list Candidate) :
  let conts := contaminations jet partonArray LHEpartonArray in
  (forall c : Candidate, c ∈ conts ->
     M1 (gen c) <> (-1)%Z \/ M2 (gen c) <> (-1)%Z ->
     is_Some (vec_at fParticleInputArray (M1 (gen c)))) ->
  sublist conts (filter (contaminates jet) partonArray)
  /\ (forall parton : Candidate,
        parton ∈ partonArray -> contaminates jet parton ->
        (forall LHEParton : Candidate,
           LHEParton ∈ LHEpartonArray -> ~ same_parton 0.01 parton LHEParton) ->
        parton ∈ conts)
  /\ exists jet' : Candidate,
      GetPhysicsFlavour cfg fParticleInputArray jet partonArray LHEpartonArray
      = Some jet'
      /\ (length (filter (in_cone cfg jet) LHEpartonArray) <> 1%nat ->
          Physics (flavour jet') = 0%Z)
      /\ (forall initial : Candidate,
            filter (in_cone cfg jet) LHEpartonArray = [initial] ->
            let rejected :=
              Z.abs (PID (gen initial)) = 4%Z
              /\ exists c : Candidate,
                  c ∈ conts /\ Z.abs (PID (gen c)) <> 4%Z
                  /\ mother_is_initial fParticleInputArray initial c = Some false in
            (rejected -> Physics (flavour jet') = 0%Z)
            /\ (~ rejected -> Physics (flavour jet') = Z.abs (PID (gen initial)))).
Proof.
  intros conts Hvalid.
  split; [apply contamination_loop_sublist|].
  split; [intros parton Hin Hc Hno; apply contamination_loop_unmatched; assumption|].
  exact (flavourPhysics_of_contaminations cfg fParticleInputArray jet partonArray
           LHEpartonArray Hvalid).
Qed.

Lemma lhe_in_cone (pid : Z) :
  filter (in_cone btag_config jet_100) [parton_at pid 1 80 0] = [parton_at pid 1 80 0].
Proof.
  rewrite !filter_cons.
  rewrite decide_True; [reflexivity|].
  unfold in_cone. rewrite DeltaR_same_phi by reflexivity.
  simpl. eval_Rabs. split; [reflexivity | lra].
Qed.

Lemma b_from_elsewhere_mother (pid : Z) :
  mother_is_initial two_particles (parton_at pid 1 80 0) b_from_elsewhere = Some false.
Proof.
  unfold mother_is_initial. eval_decide. unfold vec_at. eval_decide.
  rewrite DeltaR_same_phi by reflexivity. simpl.
  rewrite bool_decide_eq_false_2; [reflexivity|]. eval_Rabs. lra.
Qed.

Lemma b_from_elsewhere_contaminates : contaminates jet_100 b_from_elsewhere.
Proof.
  unfold contaminates. rewrite DeltaR_same_phi by reflexivity. simpl. eval_Rabs.
  split; [left; discriminate|]. split; [|lra]. intros [Hlt|Heq]; [lia | discriminate].
Qed.

(** The theorem at work: one LHE c quark in the cone and, among the
    contaminants, a decaying b quark whose mother is a particle away from
    that c quark; flavourPhysics is 0. *)
Lemma charm_jet_reset_by_b_contaminant :
  exists jet' : Candidate,
    GetPhysicsFlavour btag_config two_particles jet_100 [b_from_elsewhere] [lhe_charm]
    = Some jet'
    /\ b_from_elsewhere ∈ contaminations jet_100 [b_from_elsewhere] [lhe_charm]
    /\ mother_is_initial two_particles lhe_charm b_from_elsewhere = Some false
    /\ Physics (flavour jet') = 0%Z.
Proof.
  destruct (flavourPhysics_value btag_config two_particles jet_100
              [b_from_elsewhere] [lhe_charm])
    as (_ & Hin & jet' & Hget & _ & Hone).
  - intros c Hc _.
    pose proof (elem_of_sublist _ _ _ Hc
                  (contamination_loop_sublist jet_100 [b_from_elsewhere] [lhe_charm]))
      as Hf.
    apply list_elem_of_filter in Hf as [_ Hf]. clear Hc. rename Hf into Hc.
    apply list_elem_of_singleton in Hc. subst c. unfold vec_at. eval_decide. eauto.
  - assert (Hcont : b_from_elsewhere
                    ∈ contaminations jet_100 [b_from_elsewhere] [lhe_charm]).
    { apply Hin; [left | exact b_from_elsewhere_contaminates|].
      intros LHEParton Hl (_ & Hpid & _).
      apply list_elem_of_singleton in Hl. subst LHEParton. discriminate Hpid. }
    exists jet'. split; [exact Hget|]. split; [exact Hcont|].
    split; [exact (b_from_elsewhere_mother 4)|].
    apply (Hone lhe_charm (lhe_in_cone 4)). split; [reflexivity|].
    exists b_from_elsewhere. split; [exact Hcont|]. split; [simpl; lia|].
    exact (b_from_elsewhere_mother 4).
Defined.

(** C4 as stated fails, on two counts.  First event: exactly one
    status-1 LHE parton, an up quark, lies in the cone; the contamination
    set holds a b quark, of another flavour, whose mother is not that up
    quark; flavourPhysics stays 2, since only a jet whose parton is a c
    quark is ever reset.  Second event: the one LHE parton in the cone is a
    c quark, and a decaying b quark without mother lies within 0.7 of the
    jet, so the specification's contamination set holds it and the claim
    gives 0; the b quark matches an LHE b quark, so line 392 leaves it out
    of the set, and flavourPhysics stays 4. *)
Lemma contaminant_of_other_flavour_does_not_reset :
  (filter (in_cone btag_config jet_100) [lhe_up] = [lhe_up]
   /\ contaminations jet_100 [b_from_elsewhere] [lhe_up] = [b_from_elsewhere]
   /\ Z.abs (PID (gen lhe_up)) = 2%Z
   /\ Z.abs (PID (gen b_from_elsewhere)) = 5%Z
   /\ mother_is_initial two_particles lhe_up b_from_elsewhere = Some false
   /\ exists jet' : Candidate,
        GetPhysicsFlavour btag_config two_particles jet_100 [b_from_elsewhere] [lhe_up]
        = Some jet'
        /\ Physics (flavour jet') = 2%Z)
  /\ (filter (in_cone btag_config jet_100) [lhe_charm; lhe_b_06] = [lhe_charm]
      /\ contaminates jet_100 decaying_b_06
      /\ Z.abs (PID (gen lhe_charm)) = 4%Z
      /\ Z.abs (PID (gen decaying_b_06)) = 5%Z
      /\ mother_is_initial all_particles lhe_charm decaying_b_06 = Some false
      /\ same_parton 0.01 decaying_b_06 lhe_b_06
      /\ contaminations jet_100 [decaying_b_06] [lhe_charm; lhe_b_06] = []
      /\ exists jet' : Candidate,
           GetPhysicsFlavour btag_config all_particles jet_100 [decaying_b_06]
             [lhe_charm; lhe_b_06] = Some jet'
           /\ Physics (flavour jet') = 4%Z).
Proof.
  assert (Hconts : contaminations jet_100 [b_from_elsewhere] [lhe_up]
                   = [b_from_elsewhere]).
  { unfold contaminations, contamination_loop, lhe_scan, same_parton.
    eval_DeltaR. simpl.
    rewrite (decide_False (P := _ /\ 5%Z = 2%Z /\ _)) by (intros (_ & Hp & _); lia).
    eval_decide. reflexivity. }
  assert (Hdropped : contaminations jet_100 [decaying_b_06] [lhe_charm; lhe_b_06] = []).
  { unfold contaminations, contamination_loop, lhe_scan, same_parton.
    eval_DeltaR. simpl.
    rewrite (decide_False (P := _ /\ 5%Z = 4%Z /\ _)) by (intros (_ & Hp & _); lia).
    rewrite decide_True; [reflexivity|].
    rewrite DeltaR_same_phi by reflexivity. simpl. eval_Rabs.
    split; [lra|]. split; reflexivity. }
  split.
  - split; [exact (lhe_in_cone 2)|].
    split; [exact Hconts|]. split; [reflexivity|]. split; [reflexivity|].
    split; [exact (b_from_elsewhere_mother 2)|].
    destruct (flavourPhysics_of_contaminations btag_config two_particles jet_100
                [b_from_elsewhere] [lhe_up]) as (jet' & Hget & _ & Hone).
    { rewrite Hconts. intros c Hc _. apply list_elem_of_singleton in Hc. subst c.
      unfold vec_at. eval_decide. eauto. }
    exists jet'. split; [exact Hget|].
    apply (Hone lhe_up (lhe_in_cone 2)). intros [H4 _]. discriminate H4.
  - assert (Hcone : filter (in_cone btag_config jet_100) [lhe_charm; lhe_b_06]
                    = [lhe_charm]).
    { rewrite !filter_cons. unfold in_cone.
      rewrite decide_True
        by (rewrite DeltaR_same_phi by reflexivity; simpl; eval_Rabs;
            split; [reflexivity | lra]).
      rewrite decide_False
        by (rewrite DeltaR_same_phi by reflexivity; simpl; eval_Rabs;
            intros [_ Hd]; lra).
      reflexivity. }
    split; [exact Hcone|]. split.
    { unfold contaminates. rewrite DeltaR_same_phi by reflexivity. simpl. eval_Rabs.
      split; [left; discriminate|]. split; [|lra].
      intros [Hlt|Heq]; [lia | discriminate]. }
    split; [reflexivity|]. split; [reflexivity|].
    split; [unfold mother_is_initial; eval_decide; reflexivity|].
    split.
    { unfold same_parton. rewrite DeltaR_same_phi by reflexivity. simpl. eval_Rabs.
      repeat split; lra. }
    split; [exact Hdropped|].
    destruct (flavourPhysics_of_contaminations btag_config all_particles jet_100
                [decaying_b_06] [lhe_charm; lhe_b_06]) as (jet' & Hget & _ & Hone).
    { rewrite Hdropped. intros c Hc. inversion Hc. }
    exists jet'. split; [exact Hget|].
    apply (Hone lhe_charm Hcone). rewrite Hdropped.
    intros (_ & c & Hc & _). inversion Hc.
Qed.

End BTaggingFlavour.

(** ** BTagging: the tag bits of a jet *)

Module BTaggingTags.
Import Root Classes BTagging Examples RootFacts BTaggingFlavour.
Local Open Scope R_scope.

(** [Init] leaves a formula for key 0 in the map. *)
Lemma with_default_formula_has_0 (m : gmap Z DelphesFormula) :
  is_Some (with_default_formula m !! 0%Z).
Proof.
  unfold with_default_formula. destruct (m !! 0%Z) eqn:H0.
  - rewrite H0. eauto.
  - rewrite lookup_insert_eq. eauto.
Qed.

Lemma find_formula_some (m : gmap Z DelphesFormula) (flavour : Z) :
  is_Some (m !! 0%Z) -> is_Some (find_formula m flavour).
Proof.
  intros H0. unfold find_formula. destruct (m !! flavour); eauto.
Qed.






(** The loop over the jets draws one random number per jet, in order. *)
Lemma process_jet_draw (cfg : Config) (fParticleInputArray : list Candidate)
    (partonArray LHEpartonArray : list Candidate) (uninit : Z * Z)
    (jet jet' : Candidate) (g g' : TRandom) :
  process_jet cfg fParticleInputArray partonArray LHEpartonArray uninit jet g
  = Some (jet', g') ->
  g' = mkRandom (draws g) (S (drawn g)).
Proof.
  unfold process_jet. intros Hp.
  destruct (GetAlgoFlavour _ _ _ _ _ _) as [jet1|]; [|discriminate]. simpl in Hp.
  destruct (GetPhysicsFlavour _ _ _ _ _) as [jet2|]; [|discriminate]. simpl in Hp.
  destruct (tag_variants _ _ _) as [jet3|]; [|discriminate]. simpl in Hp.
  congruence.
Qed.

Lemma jet_loop_draws (cfg : Config) (fParticleInputArray : list Candidate)
    (partonArray LHEpartonArray : list Candidate) (uninit : nat -> Z * Z)
    (jets : list Candidate) :
  forall (number : nat) (g g' : TRandom) (jets' : list Candidate),
    jet_loop cfg fParticleInputArray partonArray LHEpartonArray uninit number jets g
    = Some (jets', g') ->
    length jets' = length jets
    /\ g' = mkRandom (draws g) (drawn g + length jets).
Proof.
  induction jets as [|jet jets IH]; intros number g g' jets' Hloop; simpl in Hloop.
  - injection Hloop as <- <-. split; [reflexivity|].
    destruct g. simpl. f_equal. lia.
  - destruct (process_jet _ _ _ _ _ _ _) as [[jet1 g1]|] eqn:Hp; [|discriminate].
    simpl in Hloop.
    destruct (jet_loop _ _ _ _ _ _ _ _) as [[rest g2]|] eqn:Hrest; [|discriminate].
    simpl in Hloop. injection Hloop as <- <-.
    apply process_jet_draw in Hp. apply IH in Hrest as [Hlen Hg]. subst g1.
    simpl in Hg. split; [simpl; congruence|]. rewrite Hg. simpl. f_equal. lia.
Qed.

(** When one of the two filters returns a null pointer, [Process]
    returns before the loop over the jets: no jet is touched and nothing
    is drawn. *)
Lemma Process_without_partons (cfg : Config) (held heldLHE : bool)
    (fPartonInputArray fLHEPartonInputArray fParticleInputArray fJetInputArray
       : list Candidate)
    (uninit : nat -> Z * Z) (g : TRandom) :
  GetSubArray (GetCategory cfg) 0 held fPartonInputArray = None
  \/ GetSubArray (GetCategoryLHE cfg) 0 heldLHE fLHEPartonInputArray = None ->
  Process cfg held heldLHE fPartonInputArray fLHEPartonInputArray fParticleInputArray
    fJetInputArray uninit g
  = Some (fJetInputArray, g).
Proof.
  unfold Process. intros [Hp|Hl].
  - rewrite Hp. reflexivity.
  - rewrite Hl.
    destruct (GetSubArray (GetCategory cfg) 0 held fPartonInputArray); reflexivity.
Qed.



(** The flavours of [jet_100] in the event with the b quark as the only
    parton after the shower and the gluon as the only LHE parton. *)
Lemma b_jet_flavours (jet : Candidate) :
  Momentum jet = Momentum jet_100 ->
  exists jet1 jet2 : Candidate,
    GetAlgoFlavour btag_config all_particles (0%Z, 0%Z) jet [b_quark] [lhe_gluon]
    = Some jet1
    /\ GetPhysicsFlavour btag_config all_particles jet1 [b_quark] [lhe_gluon]
       = Some jet2
    /\ Heaviest (flavour jet2) = 5%Z.
Proof.
  intros Hm.
  unfold GetAlgoFlavour, parton_loop, lhe_loop, same_parton, nparton_daughters,
    record_parton.
  rewrite Hm. eval_DeltaR. eval_decide.
  eexists. eexists. split; [reflexivity|].
  unfold GetPhysicsFlavour, physics_state. simpl foldl. unfold lhe_step.
  unfold algo_flavours. simpl Momentum. rewrite Hm. eval_DeltaR. eval_decide.
  split; reflexivity.
Qed.



End BTaggingTags.

(** ** Parameter lists: the entry stored for a key *)

Module ExRootConfFacts.
Import ExRootConf.

Lemma pairs_elem {A : Type} (param : list A) (a b : A) :
  (a, b) ∈ pairs param -> a ∈ param /\ b ∈ param.
Proof.
  revert a b. induction param as [param IH] using (induction_ltof1 _ (@length A)).
  unfold ltof in IH. intros a b. destruct param as [|x [|y param]]; simpl.
  - intros Hin. apply elem_of_nil in Hin. contradiction.
  - intros Hin. apply elem_of_nil in Hin. contradiction.
  - intros Hin. apply elem_of_cons in Hin as [Heq|Hin].
    + injection Heq as -> ->. rewrite !elem_of_cons. tauto.
    + apply IH in Hin; [|simpl; lia]. rewrite !elem_of_cons. tauto.
Qed.

Lemma assign_lookup {A : Type} (entries : list (Z * A)) (key : Z) :
  forall m : gmap Z A,
    assign m entries !! key
    = match configured entries key with
      | Some entry => Some entry.2
      | None => m !! key
      end.
Proof.
  unfold assign, configured.
  induction entries as [|[code value] entries IH]; simpl; intros m; [reflexivity|].
  rewrite IH. rewrite filter_cons. simpl.
  destruct (decide (code = key)) as [->|Hne].
  - rewrite last_cons.
    destruct (last (filter (fun entry => entry.1 = key) entries)); [reflexivity|].
    simpl. apply lookup_insert_eq.
  - destruct (last (filter (fun entry => entry.1 = key) entries)); [reflexivity|].
    apply lookup_insert_ne. assumption.
Qed.

End ExRootConfFacts.

(** ** Calorimeter: the segmentation and the fractions after [Init] *)

Module CalorimeterInitFacts.
Import Root Classes Calorimeter ExRootConf CalorimeterInit InitExamples ExRootConfFacts.
Local Open Scope R_scope.

Lemma set_insert_elem (x y : R) (s : list R) :
  y ∈ set_insert x s <-> y = x \/ y ∈ s.
Proof.
  induction s as [|e s IH]; simpl.
  - rewrite list_elem_of_singleton. rewrite elem_of_nil. tauto.
  - destruct (decide (x < e)).
    + rewrite !elem_of_cons. tauto.
    + destruct (decide (e < x)).
      * rewrite !elem_of_cons, IH. tauto.
      * assert (x = e) by lra. subst. rewrite !elem_of_cons. tauto.
Qed.

Lemma set_insert_sorted (x : R) (s : list R) :
  StronglySorted Rlt s -> StronglySorted Rlt (set_insert x s).
Proof.
  induction 1 as [|e s Hs IH He]; simpl.
  - repeat constructor.
  - destruct (decide (x < e)).
    + constructor; [constructor; assumption|].
      constructor; [assumption|].
      eapply Forall_impl; [exact He|]. simpl. intros; lra.
    + destruct (decide (e < x)); [|constructor; assumption].
      constructor; [assumption|].
      apply Forall_forall. intros y Hy. apply set_insert_elem in Hy as [->|Hy]; [assumption|].
      rewrite Forall_forall in He. apply He. assumption.
Qed.

Lemma set_insert_nonempty (x : R) (s : list R) : set_insert x s <> [].
Proof.
  destruct s as [|e s]; simpl; [discriminate|].
  destruct (decide (x < e)); [discriminate|].
  destruct (decide (e < x)); discriminate.
Qed.

Lemma has_nil (eta phi : R) : has [] eta phi <-> False.
Proof. split; [|tauto]. intros (s & Hs & _). apply elem_of_nil in Hs. exact Hs. Qed.

Lemma has_cons (key : R) (s : list R) (m : list (R * list R)) (eta phi : R) :
  has ((key, s) :: m) eta phi <-> (eta = key /\ phi ∈ s) \/ has m eta phi.
Proof.
  unfold has. split.
  - intros (s' & Hs' & Hphi). apply elem_of_cons in Hs' as [Heq|Hin].
    + injection Heq as -> ->. left. split; [reflexivity | assumption].
    + right. exists s'. split; assumption.
  - intros [[-> Hphi]|(s' & Hs' & Hphi)].
    + exists s. split; [apply elem_of_cons; left; reflexivity | assumption].
    + exists s'. split; [apply elem_of_cons; right; assumption | assumption].
Qed.

Lemma bin_insert_has (e p : R) (m : list (R * list R)) (eta phi : R) :
  has (bin_insert e p m) eta phi <-> (eta = e /\ phi = p) \/ has m eta phi.
Proof.
  induction m as [|[key s] m IH]; simpl.
  - rewrite has_cons, has_nil, list_elem_of_singleton. tauto.
  - destruct (decide (e < key)).
    + rewrite has_cons, list_elem_of_singleton. tauto.
    + destruct (decide (key < e)).
      * rewrite !has_cons, IH. tauto.
      * assert (e = key) by lra. subst.
        rewrite !has_cons, set_insert_elem. tauto.
Qed.

Lemma bin_insert_keys (e p : R) (m : list (R * list R)) (key : R) :
  key ∈ map fst (bin_insert e p m) <-> key = e \/ key ∈ map fst m.
Proof.
  induction m as [|[k s] m IH]; simpl.
  - rewrite list_elem_of_singleton, elem_of_nil. tauto.
  - destruct (decide (e < k)); simpl.
    + rewrite !elem_of_cons. tauto.
    + destruct (decide (k < e)); simpl.
      * rewrite !elem_of_cons, IH. tauto.
      * assert (e = k) by lra. subst. rewrite !elem_of_cons. tauto.
Qed.

Lemma bin_insert_wf (e p : R) (m : list (R * list R)) :
  wf_map m -> wf_map (bin_insert e p m).
Proof.
  unfold wf_map. induction m as [|[key s] m IH]; simpl; intros [Hk Hs].
  - split; repeat constructor; discriminate.
  - apply StronglySorted_inv in Hk as [Hk Hkey].
    apply Forall_cons in Hs as [[Hs Hne] Hm].
    destruct (decide (e < key)); simpl.
    + split.
      * constructor; [constructor; assumption|].
        constructor; [assumption|].
        eapply Forall_impl; [exact Hkey|]. simpl. intros; lra.
      * repeat constructor; try assumption. discriminate.
    + destruct (decide (key < e)); simpl.
      * destruct (IH (conj Hk Hm)) as [IHk IHs]. split.
        -- constructor; [assumption|].
           apply Forall_forall. intros y Hy.
           apply bin_insert_keys in Hy as [->|Hy]; [assumption|].
           rewrite Forall_forall in Hkey. apply Hkey. assumption.
        -- constructor; [split; assumption | assumption].
      * split; [constructor; assumption|].
        constructor; [|assumption]. simpl.
        split; [apply set_insert_sorted; assumption | apply set_insert_nonempty].
Qed.

Lemma fill_bins_wf (etas phis : list R) :
  forall m : list (R * list R), wf_map m -> wf_map (fill_bins m etas phis).
Proof.
  unfold fill_bins. induction etas as [|eta etas IH]; simpl; intros m Hm; [assumption|].
  apply IH. clear IH. revert m Hm.
  induction phis as [|phi phis IHp]; simpl; intros m Hm; [assumption|].
  apply IHp. apply bin_insert_wf. assumption.
Qed.

Lemma fill_bins_has (etas phis : list R) (eta phi : R) :
  forall m : list (R * list R),
    has (fill_bins m etas phis) eta phi <-> (eta ∈ etas /\ phi ∈ phis) \/ has m eta phi.
Proof.
  unfold fill_bins. induction etas as [|e etas IH]; simpl; intros m.
  - rewrite elem_of_nil. tauto.
  - rewrite IH. clear IH.
    assert (Hin : forall m : list (R * list R),
               has (foldl (fun m phi => bin_insert e phi m) m phis) eta phi
               <-> (eta = e /\ phi ∈ phis) \/ has m eta phi).
    { clear m. induction phis as [|p phis IHp]; simpl; intros m.
      - rewrite elem_of_nil. tauto.
      - rewrite IHp, bin_insert_has, elem_of_cons. tauto. }
    rewrite Hin, elem_of_cons. tauto.
Qed.

Lemma fBinMap_wf (param : list (list R)) : wf_map (fBinMap param).
Proof.
  unfold fBinMap.
  assert (H : forall (groups : list (list R * list R)) (m : list (R * list R)),
             wf_map m ->
             wf_map (foldl (fun m group => fill_bins m group.1 group.2) m groups)).
  { induction groups as [|g groups IH]; simpl; intros m Hm; [assumption|].
    apply IH. apply fill_bins_wf. assumption. }
  apply H. split; constructor.
Qed.

Lemma fBinMap_has (param : list (list R)) (eta phi : R) :
  has (fBinMap param) eta phi
  <-> exists etas phis : list R, (etas, phis) ∈ pairs param /\ eta ∈ etas /\ phi ∈ phis.
Proof.
  unfold fBinMap.
  assert (H : forall (groups : list (list R * list R)) (m : list (R * list R)),
             has (foldl (fun m group => fill_bins m group.1 group.2) m groups) eta phi
             <-> (exists etas phis : list R,
                    (etas, phis) ∈ groups /\ eta ∈ etas /\ phi ∈ phis)
                 \/ has m eta phi).
  { induction groups as [|[etas phis] groups IH]; simpl; intros m.
    - split; [tauto|]. intros [(etas & phis & Hin & _)|H]; [|assumption].
      apply elem_of_nil in Hin. contradiction.
    - rewrite IH, fill_bins_has. split.
      + intros [(es & ps & Hin & He & Hp)|[[He Hp]|Hm]].
        * left. exists es, ps. rewrite elem_of_cons. tauto.
        * left. exists etas, phis. rewrite elem_of_cons. tauto.
        * right. assumption.
      + intros [(es & ps & Hin & He & Hp)|Hm]; [|tauto].
        apply elem_of_cons in Hin as [Heq|Hin].
        * injection Heq as -> ->. tauto.
        * left. exists es, ps. tauto. }
  rewrite H, has_nil. tauto.
Qed.

Lemma sorted_NoDup (l : list R) : StronglySorted Rlt l -> NoDup l.
Proof.
  induction 1 as [|x l Hl IH Hx]; constructor; [|assumption].
  intros Hin. rewrite Forall_forall in Hx. apply Hx in Hin. lra.
Qed.

Lemma has_lookup (m : list (R * list R)) (eta phi : R) :
  has m eta phi
  <-> exists (k : nat) (phiBins : list R),
        map fst m !! k = Some eta /\ map snd m !! k = Some phiBins /\ phi ∈ phiBins.
Proof.
  unfold has. split.
  - intros (s & Hs & Hphi). apply list_elem_of_lookup_1 in Hs as [k Hk].
    exists k, s. rewrite !list_lookup_fmap, Hk. simpl. tauto.
  - intros (k & s & Hk & Hs & Hphi). rewrite list_lookup_fmap in Hk. rewrite list_lookup_fmap in Hs.
    destruct (m !! k) as [[key s']|] eqn:Hm; [|discriminate].
    simpl in Hk, Hs. injection Hk as ->. injection Hs as ->.
    exists s. split; [eapply list_elem_of_lookup_2; eassumption | assumption].
Qed.

Lemma fBinMap_edges_listed (param : list (list R)) (eta phi : R) :
  has (fBinMap param) eta phi -> eta ∈ concat param /\ phi ∈ concat param.
Proof.
  intros (etas & phis & Hin & He & Hp)%fBinMap_has.
  apply pairs_elem in Hin as [Hetas Hphis].
  rewrite !list_elem_of_In, !in_concat. split.
  - exists etas. rewrite <- !list_elem_of_In. tauto.
  - exists phis. rewrite <- !list_elem_of_In. tauto.
Qed.

(** X1.  For every card that lists fewer than 2^15 numbers under
    [EtaPhiBins], [Init] leaves a well-formed segmentation: the eta edges
    are strictly increasing, every eta edge has its own vector of phi
    edges, strictly increasing and not empty, and every bin number fits a
    [Short_t]. *)
Theorem Init_segmentation_well_formed (card : Card) :
  (Z.of_nat (length (concat (EtaPhiBins card))) < 2 ^ 15)%Z ->
  wf_bins (Init card) /\ Forall (fun phiBins => phiBins <> []) (fPhiBins (Init card)).
Proof.
  intros Hsize. pose proof (fBinMap_wf (EtaPhiBins card)) as [Hkeys Hsets].
  assert (Hlen : forall l : list R,
             NoDup l -> (forall x, x ∈ l -> x ∈ concat (EtaPhiBins card)) ->
             (Z.of_nat (length l) < 2 ^ 15)%Z).
  { intros l Hnd Hsub. pose proof (submseteq_length _ _ (NoDup_submseteq _ _ Hnd Hsub)).
    lia. }
  split; [split|]; simpl.
  - assumption.
  - apply Forall_fmap. eapply Forall_impl; [exact Hsets|]. simpl. tauto.
  - rewrite !length_map. reflexivity.
  - apply Hlen; [apply sorted_NoDup; assumption|].
    intros eta Hin. apply list_elem_of_fmap in Hin as ([key s] & -> & Hin). simpl.
    rewrite Forall_forall in Hsets. destruct (Hsets _ Hin) as [_ Hne]. simpl in Hne.
    destruct s as [|phi s]; [contradiction|].
    apply (fBinMap_edges_listed _ key phi). exists (phi :: s).
    split; [assumption | apply elem_of_cons; left; reflexivity].
  - apply Forall_fmap. apply Forall_forall. intros [key s] Hin. simpl.
    rewrite Forall_forall in Hsets. destruct (Hsets _ Hin) as [Hs _]. simpl in Hs.
    apply Hlen; [apply sorted_NoDup; assumption|].
    intros phi Hphi. apply (fBinMap_edges_listed _ key phi). exists s. tauto.
  - apply Forall_fmap. eapply Forall_impl; [exact Hsets|]. simpl. tauto.
Qed.

Lemma two_groups_segmentation :
  wf_bins (Init two_groups)
  /\ Forall (fun phiBins => phiBins <> []) (fPhiBins (Init two_groups)).
Proof. apply (Init_segmentation_well_formed two_groups). simpl. lia. Defined.

(** X2.  The segmentation [Init] builds has the phi edge [phi] under the
    eta edge [eta] exactly when some group of the card lists [eta] among
    its eta edges and [phi] among its phi edges; a group without phi edges
    gives no eta edge, and the groups that share an eta edge pool their
    phi edges. *)
Theorem Init_edges_are_those_of_the_groups (card : Card) (eta phi : R) :
  (exists (k : nat) (phiBins : list R),
      fEtaBins (Init card) !! k = Some eta
      /\ fPhiBins (Init card) !! k = Some phiBins /\ phi ∈ phiBins)
  <-> (exists etas phis : list R,
         (etas, phis) ∈ pairs (EtaPhiBins card) /\ eta ∈ etas /\ phi ∈ phis).
Proof. simpl. rewrite <- has_lookup. apply fBinMap_has. Qed.

Lemma two_groups_bins :
  fEtaBins (Init two_groups) = [0; 1; 2]
  /\ fPhiBins (Init two_groups) = [[-3; 0; 3]; [-3; 0; 3]; [-3; 0; 3]].
Proof.
  unfold Init, fBinMap, fill_bins. simpl.
  repeat (first [decide_step]; simpl). split; reflexivity.
Qed.

(** X3.  After [Init], the lookup of lines 202-208 never falls off the
    fraction map: a PDG code gets the last pair the card assigns to it;
    a code the card does not name gets the last pair the card assigns to
    code 0 and, when there is none, the default (0.0, 1.0). *)
Theorem Init_fraction_lookup (card : Card) (pdgCode : Z) :
  find_fraction (fFractionMap (Init card)) pdgCode
  = Some match configured (EnergyFraction card) pdgCode with
         | Some entry => entry.2
         | None =>
             match configured (EnergyFraction card) 0 with
             | Some entry => entry.2
             | None => (0, 1)
             end
         end.
Proof.
  unfold find_fraction. simpl. unfold fractions. rewrite !assign_lookup.
  destruct (configured (EnergyFraction card) pdgCode) as [entry|] eqn:Hc; [reflexivity|].
  destruct (decide (pdgCode = 0%Z)) as [->|Hne].
  - rewrite Hc. rewrite lookup_singleton_eq. reflexivity.
  - rewrite lookup_singleton_ne by congruence.
    destruct (configured (EnergyFraction card) 0); [reflexivity|].
    rewrite lookup_singleton_eq. reflexivity.
Qed.

End CalorimeterInitFacts.

(** ** Calorimeter: the bin lookup, from the bins back to the edges *)

Module CalorimeterGeometry.
Import Root Classes Calorimeter CalorimeterReadout Examples CalorimeterBins CalorimeterHits.
Local Open Scope R_scope.

Lemma lower_bound_before (v : list R) (x : R) :
  forall (i : nat) (e : R), (i < lower_bound v x)%nat -> v !! i = Some e -> e < x.
Proof.
  induction v as [|a v IH]; simpl; intros i e Hi He; [lia|].
  destruct (decide (a < x)) as [Ha|Ha]; [|lia].
  destruct i as [|i]; simpl in He.
  - injection He as <-. assumption.
  - apply (IH i); [lia | assumption].
Qed.

Lemma lower_bound_at (v : list R) (x : R) :
  forall e : R, v !! lower_bound v x = Some e -> x <= e.
Proof.
  induction v as [|a v IH]; simpl; intros e He; [discriminate|].
  destruct (decide (a < x)) as [Ha|Ha]; simpl in He.
  - apply IH. assumption.
  - injection He as <-. lra.
Qed.

(** The bin the lookup returns is one the value lies in. *)
Lemma find_bin_inv (bins : list R) (x : R) (it : nat) :
  find_bin bins x = Some it ->
  exists (k : nat) (lo hi : R),
    it = S k /\ bins !! k = Some lo /\ bins !! S k = Some hi /\ lo < x <= hi.
Proof.
  intros Hfind. pose proof (find_bin_range _ _ _ Hfind) as Hr.
  unfold find_bin in Hfind. destruct (decide _); [discriminate|].
  injection Hfind as <-.
  destruct (lower_bound bins x) as [|k] eqn:Hlb; [lia|].
  destruct (lookup_lt_is_Some_2 bins k ltac:(lia)) as [lo Hlo].
  destruct (lookup_lt_is_Some_2 bins (S k) ltac:(lia)) as [hi Hhi].
  exists k, lo, hi. repeat split; try assumption.
  - apply (lower_bound_before bins x k); [lia | assumption].
  - apply (lower_bound_at bins x). rewrite Hlb. assumption.
Qed.

Lemma FindTower_inv (cfg : Config) (eta phi : R) (etaBin phiBin : Z) :
  wf_bins cfg -> FindTower cfg eta phi = Some (etaBin, phiBin) ->
  exists (k j : nat) (phiBins : list R) (etaLo etaHi phiLo phiHi : R),
    etaBin = Z.of_nat (S k) /\ phiBin = Z.of_nat (S j)
    /\ fEtaBins cfg !! k = Some etaLo /\ fEtaBins cfg !! S k = Some etaHi
    /\ fPhiBins cfg !! S k = Some phiBins
    /\ phiBins !! j = Some phiLo /\ phiBins !! S j = Some phiHi
    /\ etaLo < eta <= etaHi /\ phiLo < phi <= phiHi.
Proof.
  intros [_ _ Hlen Heshort Hpshort]. unfold FindTower.
  destruct (find_bin (fEtaBins cfg) eta) as [itEta|] eqn:He; [|discriminate]. simpl.
  pose proof (find_bin_range _ _ _ He) as Hre.
  rewrite Short_t_id by lia. rewrite vec_at_of_nat.
  destruct (fPhiBins cfg !! itEta) as [phiBins|] eqn:Hphi; [|discriminate]. simpl.
  destruct (find_bin phiBins phi) as [itPhi|] eqn:Hp; [|discriminate]. simpl.
  pose proof (find_bin_range _ _ _ Hp) as Hrp.
  rewrite Forall_forall in Hpshort.
  pose proof (Hpshort phiBins ltac:(eapply list_elem_of_lookup_2; eauto)) as Hs.
  simpl in Hs. rewrite Short_t_id by lia. intros [= <- <-].
  apply find_bin_inv in He as (k & etaLo & etaHi & -> & Hlo & Hhi & Heta).
  apply find_bin_inv in Hp as (j & phiLo & phiHi & -> & Hplo & Hphi' & Hphir).
  exists k, j, phiBins, etaLo, etaHi, phiLo, phiHi. tauto.
Qed.

End CalorimeterGeometry.

(** ** Calorimeter: the packed hits *)

Module CalorimeterPacking.
Import Root Classes Calorimeter CalorimeterReadout Examples CalorimeterBins CalorimeterHits.
Local Open Scope Z_scope.

Lemma lor_below (a b n : Z) :
  0 <= n -> 0 <= a < 2 ^ n -> 0 <= b < 2 ^ n -> 0 <= Z.lor a b < 2 ^ n.
Proof.
  intros Hn Ha Hb. split; [apply Z.lor_nonneg; lia|].
  destruct (Z.eq_dec (Z.lor a b) 0) as [->|Hne]; [apply Z.pow_pos_nonneg; lia|].
  assert (0 < Z.lor a b) by (pose proof (proj2 (Z.lor_nonneg a b) ltac:(lia)); lia).
  apply Z.log2_lt_pow2; [assumption|]. rewrite Z.log2_lor by lia.
  destruct (Z.eq_dec a 0) as [->|Ha0]; destruct (Z.eq_dec b 0) as [->|Hb0].
  - simpl in Hne. contradiction.
  - rewrite Z.max_r by (apply Z.log2_nonneg). apply Z.log2_lt_pow2; lia.
  - rewrite Z.max_l by (apply Z.log2_nonneg). apply Z.log2_lt_pow2; lia.
  - apply Z.max_lub_lt; apply Z.log2_lt_pow2; lia.
Qed.

(** The part of the number above its 24 bits lands in the flags. *)
Lemma towerHit_number_split (e p f number : Z) :
  0 <= number ->
  towerHit e p f number
  = towerHit e p (Z.lor f (number / 2 ^ 24)) (number mod 2 ^ 24).
Proof.
  intros Hn. unfold towerHit. rewrite <- !Z.lor_assoc. do 2 f_equal.
  rewrite Z.shiftl_lor, <- Z.lor_assoc. f_equal.
  rewrite lor_shiftl_add by (pose proof (Z.mod_pos_bound number (2 ^ 24)); lia).
  pose proof (Z.div_mod number (2 ^ 24)). lia.
Qed.

Lemma hit_etaBin_towerHit (e p f n : Z) :
  0 <= e < 2 ^ 15 -> 0 <= p < 2 ^ 16 -> 0 <= f < 2 ^ 8 -> 0 <= n < 2 ^ 24 ->
  hit_etaBin (towerHit e p f n) = e.
Proof.
  intros He Hp Hf Hn. rewrite towerHit_sum by assumption.
  unfold hit_etaBin. rewrite Z.shiftr_div_pow2 by lia.
  replace ((e * 2 ^ 48 + p * 2 ^ 32 + f * 2 ^ 24 + n) / 2 ^ 48) with e
    by (apply Z.div_unique with (r := p * 2 ^ 32 + f * 2 ^ 24 + n); lia).
  change 65535 with (Z.ones 16). rewrite Z.land_ones by lia.
  rewrite Z.mod_small by lia. apply Short_t_id. lia.
Qed.

Lemma hit_phiBin_towerHit (e p f n : Z) :
  0 <= p < 2 ^ 15 -> 0 <= f < 2 ^ 8 -> 0 <= n < 2 ^ 24 ->
  hit_phiBin (towerHit e p f n) = p.
Proof.
  intros Hp Hf Hn. unfold hit_phiBin.
  change (Z.shiftr (towerHit e p f n) 32) with (hit_EtaPhi (towerHit e p f n)).
  rewrite hit_EtaPhi_towerHit by lia.
  change 65535 with (Z.ones 16). rewrite Z.land_ones by lia.
  replace ((e * 2 ^ 16 + p) mod 2 ^ 16) with p
    by (apply Z.mod_unique with (q := e); lia).
  apply Short_t_id. lia.
Qed.

(** X4.  A hit packed from an eta bin and a phi bin below 2^15, flags
    below 2^8 and a number below 2^24 reads back, with the shifts and
    masks of lines 290-292 and 303-304, as the same four values. *)
Theorem towerHit_reads_back (etaBin phiBin flags number : Z) :
  0 <= etaBin < 2 ^ 15 -> 0 <= phiBin < 2 ^ 15 ->
  0 <= flags < 2 ^ 8 -> 0 <= number < 2 ^ 24 ->
  let h := towerHit etaBin phiBin flags number in
  hit_etaBin h = etaBin /\ hit_phiBin h = phiBin
  /\ hit_flags h = flags /\ hit_number h = number
  /\ hit_EtaPhi h = etaBin * 2 ^ 16 + phiBin.
Proof.
  intros He Hp Hf Hn h. unfold h.
  rewrite hit_etaBin_towerHit, hit_phiBin_towerHit, hit_flags_towerHit,
    hit_number_towerHit, hit_EtaPhi_towerHit by lia.
  repeat split; reflexivity.
Qed.

Lemma pion_hit_reads_back :
  hit_etaBin pion_hit = 1 /\ hit_phiBin pion_hit = 2
  /\ hit_flags pion_hit = 1 /\ hit_number pion_hit = 0
  /\ hit_EtaPhi pion_hit = 1 * 2 ^ 16 + 2.
Proof. apply (towerHit_reads_back 1 2 1 0); lia. Defined.

(** X5.  The ascending order of the packed hits is the order of the
    comment at lines 281-282: first by eta bin, then by phi bin, then by
    flags, then by track or particle number. *)
Theorem towerHit_order_is_lexicographic (e1 p1 f1 n1 e2 p2 f2 n2 : Z) :
  0 <= p1 < 2 ^ 16 -> 0 <= f1 < 2 ^ 8 -> 0 <= n1 < 2 ^ 24 ->
  0 <= p2 < 2 ^ 16 -> 0 <= f2 < 2 ^ 8 -> 0 <= n2 < 2 ^ 24 ->
  (towerHit e1 p1 f1 n1 < towerHit e2 p2 f2 n2
   <-> e1 < e2
       \/ (e1 = e2
           /\ (p1 < p2 \/ (p1 = p2 /\ (f1 < f2 \/ (f1 = f2 /\ n1 < n2)))))).
Proof.
  intros Hp1 Hf1 Hn1 Hp2 Hf2 Hn2. rewrite !towerHit_sum by assumption. lia.
Qed.

Lemma neutron_hit_before_pion_hit : towerHit 1 2 0 0 < towerHit 1 2 1 0.
Proof. apply (towerHit_order_is_lexicographic 1 2 0 0 1 2 1 0); lia. Defined.

(** X6.  The number of a track or particle has 24 bits in the hit: for a
    number of 2^24 or more (an [Int_t] below 2^31) the bits above the
    24th are or-ed into the flags, so the hit reads back with the number
    reduced modulo 2^24; from 2^24 to 2^25 - 1 it reads back as a track
    hit, whatever made it. *)
Theorem hit_number_overflows_into_flags (etaBin phiBin flags number : Z) :
  0 <= etaBin < 2 ^ 15 -> 0 <= phiBin < 2 ^ 15 ->
  0 <= flags < 2 ^ 8 -> 0 <= number < 2 ^ 31 ->
  let h := towerHit etaBin phiBin flags number in
  hit_etaBin h = etaBin /\ hit_phiBin h = phiBin
  /\ hit_flags h = Z.lor flags (number / 2 ^ 24)
  /\ hit_number h = number mod 2 ^ 24
  /\ (2 ^ 24 <= number < 2 ^ 25 ->
      is_track_hit h = true /\ hit_number h = number - 2 ^ 24).
Proof.
  intros He Hp Hf Hn h. unfold h.
  rewrite towerHit_number_split by lia.
  assert (Hq : 0 <= number / 2 ^ 24 < 2 ^ 8).
  { split; [apply Z.div_pos; lia|].
    apply Z.div_lt_upper_bound; lia. }
  pose proof (lor_below flags (number / 2 ^ 24) 8 ltac:(lia) Hf Hq) as Hlor.
  pose proof (Z.mod_pos_bound number (2 ^ 24) ltac:(lia)) as Hr.
  unfold is_track_hit.
  rewrite hit_etaBin_towerHit, hit_phiBin_towerHit, hit_flags_towerHit,
    hit_number_towerHit by lia.
  repeat split; try reflexivity.
  - destruct H as [Hlo Hhi].
    replace (number / 2 ^ 24) with 1
      by (apply Z.div_unique with (r := number - 2 ^ 24); lia).
    apply negb_true_iff. apply Z.eqb_neq.
    rewrite Z.land_lor_distr_l. change (Z.land 1 1) with 1.
    intros Hz. apply Z.lor_eq_0_iff in Hz as [_ Hz]. discriminate.
  - destruct H as [Hlo Hhi].
    symmetry. apply Z.mod_unique with (q := 1); lia.
Qed.

Lemma particle_2_pow_24_reads_back_as_track_0 :
  is_track_hit (towerHit 1 2 0 16777216) = true
  /\ hit_number (towerHit 1 2 0 16777216) = 16777216 - 2 ^ 24.
Proof.
  destruct (hit_number_overflows_into_flags 1 2 0 16777216) as (_ & _ & _ & _ & H);
    [lia..|].
  apply H. lia.
Defined.

End CalorimeterPacking.

(** ** Calorimeter: the scan of the sorted hits *)

Module CalorimeterScan.
Import Root Classes Calorimeter CalorimeterReadout Examples CalorimeterBins CalorimeterHits.
Import CalorimeterGeometry CalorimeterPacking.
Local Open Scope R_scope.

Lemma new_tower_unfold (cfg : Config) (h : Z) :
  new_tower cfg h
  = (phiBins ← vec_at (fPhiBins cfg) (hit_etaBin h);
     etaLo ← vec_at (fEtaBins cfg) (hit_etaBin h - 1);
     etaHi ← vec_at (fEtaBins cfg) (hit_etaBin h);
     phiLo ← vec_at phiBins (hit_phiBin h - 1);
     phiHi ← vec_at phiBins (hit_phiBin h);
     Some (mkTower (Some NewCandidate) (0.5 * (etaLo + etaHi)) (0.5 * (phiLo + phiHi))
             (etaLo, etaHi, phiLo, phiHi) 0 0 0 0 0 0 [])).
Proof. reflexivity. Qed.

Lemma new_tower_of_bins (cfg : Config) (h : Z) (k j : nat) (phiBins : list R)
    (etaLo etaHi phiLo phiHi : R) :
  hit_etaBin h = Z.of_nat (S k) -> hit_phiBin h = Z.of_nat (S j) ->
  fEtaBins cfg !! k = Some etaLo -> fEtaBins cfg !! S k = Some etaHi ->
  fPhiBins cfg !! S k = Some phiBins ->
  phiBins !! j = Some phiLo -> phiBins !! S j = Some phiHi ->
  new_tower cfg h
  = Some (mkTower (Some NewCandidate) (0.5 * (etaLo + etaHi)) (0.5 * (phiLo + phiHi))
            (etaLo, etaHi, phiLo, phiHi) 0 0 0 0 0 0 []).
Proof.
  intros He Hp Hlo Hhi Hphi Hplo Hphi'. rewrite new_tower_unfold, He, Hp.
  replace (Z.of_nat (S k) - 1)%Z with (Z.of_nat k) by lia.
  replace (Z.of_nat (S j) - 1)%Z with (Z.of_nat j) by lia.
  rewrite !vec_at_of_nat, Hphi. simpl. rewrite Hlo. simpl. rewrite Hhi. simpl.
  rewrite !vec_at_of_nat, Hplo. simpl. rewrite Hphi'. reflexivity.
Qed.

Lemma tower_of_hit_geometry (cfg : Config) (eta phi : R)
    (etaBin phiBin flags number : Z) :
  wf_bins cfg -> FindTower cfg eta phi = Some (etaBin, phiBin) ->
  (0 <= flags < 2 ^ 8)%Z -> (0 <= number < 2 ^ 24)%Z ->
  exists t : Tower,
    new_tower cfg (towerHit etaBin phiBin flags number) = Some t.
Proof.
  intros Hwf Hft Hf Hn.
  destruct (FindTower_range _ _ _ _ _ Hwf Hft) as [Hre Hrp].
  destruct (FindTower_inv _ _ _ _ _ Hwf Hft)
    as (k & j & phiBins & etaLo & etaHi & phiLo & phiHi
        & He & Hp & Hlo & Hhi & Hphi & Hplo & Hphi' & Heta & Hphir).
  eexists. apply (new_tower_of_bins cfg _ k j phiBins); try eassumption.
  - rewrite hit_etaBin_towerHit by lia. assumption.
  - rewrite hit_phiBin_towerHit by lia. assumption.
Qed.

(** X7.  The tower made for a hit is the one its object lies in: when
    the lookup finds the bins of a position (eta, phi), the tower created
    from the packed hit has edges with etaLo < eta <= etaHi and
    phiLo < phi <= phiHi, and its centre is the middle of the edges. *)
Theorem tower_of_hit_contains_position (cfg : Config) (eta phi : R)
    (etaBin phiBin flags number : Z) :
  wf_bins cfg -> FindTower cfg eta phi = Some (etaBin, phiBin) ->
  (0 <= flags < 2 ^ 8)%Z -> (0 <= number < 2 ^ 24)%Z ->
  exists (t : Tower) (etaLo etaHi phiLo phiHi : R),
    new_tower cfg (towerHit etaBin phiBin flags number) = Some t
    /\ fTowerEdges t = (etaLo, etaHi, phiLo, phiHi)
    /\ etaLo < eta <= etaHi /\ phiLo < phi <= phiHi
    /\ fTowerEta t = 0.5 * (etaLo + etaHi) /\ fTowerPhi t = 0.5 * (phiLo + phiHi)
    /\ etaLo < fTowerEta t < etaHi /\ phiLo < fTowerPhi t < phiHi.
Proof.
  intros Hwf Hft Hf Hn.
  destruct (FindTower_range _ _ _ _ _ Hwf Hft) as [Hre Hrp].
  destruct (FindTower_inv _ _ _ _ _ Hwf Hft)
    as (k & j & phiBins & etaLo & etaHi & phiLo & phiHi
        & He & Hp & Hlo & Hhi & Hphi & Hplo & Hphi' & Heta & Hphir).
  eexists _, etaLo, etaHi, phiLo, phiHi. split.
  - apply (new_tower_of_bins cfg _ k j phiBins); try eassumption.
    + rewrite hit_etaBin_towerHit by lia. assumption.
    + rewrite hit_phiBin_towerHit by lia. assumption.
  - simpl. repeat split; lra.
Qed.

Lemma FindTower_three_by_three_half_1 :
  FindTower three_by_three 0.5 1 = Some (1%Z, 2%Z).
Proof. eval_bins. Qed.

Lemma pion_tower_contains_pion :
  exists (t : Tower) (etaLo etaHi phiLo phiHi : R),
    new_tower three_by_three (towerHit 1 2 1 0) = Some t
    /\ fTowerEdges t = (etaLo, etaHi, phiLo, phiHi)
    /\ etaLo < 0.5 <= etaHi /\ phiLo < 1 <= phiHi
    /\ fTowerEta t = 0.5 * (etaLo + etaHi) /\ fTowerPhi t = 0.5 * (phiLo + phiHi)
    /\ etaLo < fTowerEta t < etaHi /\ phiLo < fTowerPhi t < phiHi.
Proof.
  apply (tower_of_hit_contains_position three_by_three 0.5 1 1 2 1 0).
  - exact three_by_three_wf.
  - exact FindTower_three_by_three_half_1.
  - lia.
  - lia.
Defined.

#[local] Arguments Short_t : simpl never.
#[local] Arguments hit_flags : simpl never.
#[local] Arguments hit_number : simpl never.
#[local] Arguments hit_EtaPhi : simpl never.
#[local] Arguments new_tower : simpl never.
#[local] Arguments FinalizeTower : simpl never.
#[local] Arguments towerHit : simpl never.
#[local] Arguments hit_etaBin : simpl never.
#[local] Arguments hit_phiBin : simpl never.
#[local] Arguments Z.sub : simpl never.

Lemma input_loop_lookup (body : Z -> Candidate -> option Entry) (l : list Candidate) :
  forall (number : Z) (es : list Entry),
    input_loop body number l = Some es ->
    length es = length l
    /\ forall (i : nat) (c : Candidate), l !! i = Some c ->
         exists e : Entry,
           es !! i = Some e /\ body (number + 1 + Z.of_nat i)%Z c = Some e.
Proof.
  induction l as [|c l IH]; intros number es Hloop; simpl in Hloop.
  - injection Hloop as <-. split; [reflexivity|]. intros i c Hl. discriminate.
  - destruct (body (number + 1)%Z c) as [e|] eqn:Hbody; [|discriminate]. simpl in Hloop.
    destruct (input_loop body (number + 1)%Z l) as [es'|] eqn:Hrest; [|discriminate].
    simpl in Hloop. injection Hloop as <-.
    destruct (IH _ _ Hrest) as [Hlen Hlook]. split; [simpl; lia|].
    intros [|i] c' Hl; simpl in Hl.
    + injection Hl as <-. exists e. simpl. rewrite Z.add_0_r. auto.
    + destruct (Hlook i c' Hl) as (e' & He' & Hb). exists e'. simpl.
      split; [assumption|]. rewrite <- Hb. f_equal. lia.
Qed.

Lemma fill_tables_inv (cfg : Config) (tracks particles : list Candidate)
    (tabs : HitTables) :
  fill_tables cfg tracks particles = Some tabs ->
  exists te pe : list Entry,
    input_loop (track_entry cfg) (-1) tracks = Some te
    /\ input_loop (particle_entry cfg) (-1) particles = Some pe
    /\ fTowerHits tabs = omap entry_hit te ++ omap entry_hit pe
    /\ fTrackECalFractions tabs = map entry_ecal te
    /\ fTrackHCalFractions tabs = map entry_hcal te
    /\ fTowerECalFractions tabs = map entry_ecal pe
    /\ fTowerHCalFractions tabs = map entry_hcal pe
    /\ fParticlePDGId tabs = map entry_pdg pe.
Proof.
  unfold fill_tables. intros Hfill.
  destruct (input_loop (track_entry cfg) (-1) tracks) as [te|]; [|discriminate].
  simpl in Hfill.
  destruct (input_loop (particle_entry cfg) (-1) particles) as [pe|]; [|discriminate].
  simpl in Hfill. injection Hfill as <-. exists te, pe. simpl. tauto.
Qed.

(** Where a hit comes from: the track or the particle of its number. *)
Lemma track_entry_hit (cfg : Config) (i : nat) (track : Candidate) (e : Entry) (h : Z) :
  track_entry cfg (Z.of_nat i) track = Some e -> entry_hit e = Some h ->
  exists etaBin phiBin : Z,
    FindTower cfg (Eta (Position track)) (Phi (Position track)) = Some (etaBin, phiBin)
    /\ h = towerHit etaBin phiBin 1 (Z.of_nat i).
Proof.
  unfold track_entry. intros Hb He.
  destruct (find_fraction _ _) as [[ef hf]|]; [|discriminate]. simpl in Hb.
  injection Hb as <-. simpl in He.
  destruct (FindTower cfg _ _) as [[etaBin phiBin]|] eqn:Hft; [|discriminate].
  simpl in He. injection He as <-. exists etaBin, phiBin. auto.
Qed.

Lemma particle_flags (pdgCode : Z) :
  Z.lor 0 (Z.shiftl (Z.b2z (bool_decide (pdgCode = 11%Z \/ pdgCode = 22%Z))) 1)
  = if decide (pdgCode = 11%Z \/ pdgCode = 22%Z) then 2%Z else 0%Z.
Proof.
  destruct (decide _) as [Hd|Hd].
  - rewrite bool_decide_eq_true_2 by exact Hd. reflexivity.
  - rewrite bool_decide_eq_false_2 by exact Hd. reflexivity.
Qed.

Lemma particle_entry_hit (cfg : Config) (i : nat) (particle : Candidate) (e : Entry)
    (h : Z) :
  particle_entry cfg (Z.of_nat i) particle = Some e -> entry_hit e = Some h ->
  exists etaBin phiBin flags : Z,
    FindTower cfg (Eta (Position particle)) (Phi (Position particle))
    = Some (etaBin, phiBin)
    /\ (flags = 0%Z \/ flags = 2%Z)
    /\ h = towerHit etaBin phiBin flags (Z.of_nat i)
    /\ ~ (entry_ecal e < 1e-9 /\ entry_hcal e < 1e-9).
Proof.
  unfold particle_entry. intros Hb He.
  destruct (find_fraction _ _) as [[ef hf]|]; [|discriminate]. simpl in Hb.
  injection Hb as <-. simpl in He. simpl.
  destruct (decide (ef < 1e-9 /\ hf < 1e-9)) as [|Hskip]; [discriminate|].
  destruct (FindTower cfg _ _) as [[etaBin phiBin]|] eqn:Hft; [|discriminate].
  simpl in He. injection He as <-. rewrite particle_flags.
  eexists etaBin, phiBin, _. split; [reflexivity|]. split; [|split; [reflexivity|assumption]].
  destruct (decide _); auto.
Qed.

Lemma fill_tables_hits (cfg : Config) (tracks particles : list Candidate)
    (tabs : HitTables) (h : Z) :
  fill_tables cfg tracks particles = Some tabs -> h ∈ fTowerHits tabs ->
  (exists (i : nat) (track : Candidate) (etaBin phiBin : Z),
      tracks !! i = Some track
      /\ FindTower cfg (Eta (Position track)) (Phi (Position track))
         = Some (etaBin, phiBin)
      /\ h = towerHit etaBin phiBin 1 (Z.of_nat i))
  \/ (exists (i : nat) (particle : Candidate) (etaBin phiBin flags : Z),
        particles !! i = Some particle
        /\ FindTower cfg (Eta (Position particle)) (Phi (Position particle))
           = Some (etaBin, phiBin)
        /\ (flags = 0%Z \/ flags = 2%Z)
        /\ h = towerHit etaBin phiBin flags (Z.of_nat i)).
Proof.
  intros (te & pe & Hte & Hpe & Hhits & _)%fill_tables_inv Hh.
  rewrite Hhits in Hh. apply elem_of_app in Hh as [Hh|Hh].
  - left. destruct (input_loop_hit _ _ _ _ _ Hte Hh) as (i & track & e & Hl & Hb & He).
    replace (-1 + 1 + Z.of_nat i)%Z with (Z.of_nat i) in Hb by lia.
    destruct (track_entry_hit _ _ _ _ _ Hb He) as (etaBin & phiBin & Hft & ->).
    exists i, track, etaBin, phiBin. auto.
  - right. destruct (input_loop_hit _ _ _ _ _ Hpe Hh) as (i & particle & e & Hl & Hb & He).
    replace (-1 + 1 + Z.of_nat i)%Z with (Z.of_nat i) in Hb by lia.
    destruct (particle_entry_hit _ _ _ _ _ Hb He)
      as (etaBin & phiBin & flags & Hft & Hfl & -> & _).
    exists i, particle, etaBin, phiBin, flags. auto.
Qed.

Lemma vec_at_is_Some {A : Type} (v : list A) (i : nat) :
  (i < length v)%nat -> is_Some (vec_at v (Z.of_nat i)).
Proof. intros Hi. rewrite vec_at_of_nat. apply lookup_lt_is_Some_2. assumption. Qed.

Lemma hits_are_good (cfg : Config) (tracks particles : list Candidate)
    (tabs : HitTables) :
  wf_bins cfg ->
  (Z.of_nat (length tracks) <= 2 ^ 24)%Z ->
  (Z.of_nat (length particles) <= 2 ^ 24)%Z ->
  fill_tables cfg tracks particles = Some tabs ->
  Forall (good_hit cfg tabs tracks particles) (fTowerHits tabs).
Proof.
  intros Hwf Hnt Hnp Hfill. apply Forall_forall. intros h Hh.
  pose proof (fill_tables_inv _ _ _ _ Hfill)
    as (te & pe & Hte & Hpe & _ & Hte1 & Hte2 & Hpe1 & Hpe2 & Hpe3).
  destruct (input_loop_lookup _ _ _ _ Hte) as [Hlte _].
  destruct (input_loop_lookup _ _ _ _ Hpe) as [Hlpe _].
  destruct (fill_tables_hits _ _ _ _ _ Hfill Hh)
    as [(i & track & etaBin & phiBin & Hl & Hft & ->)
       |(i & particle & etaBin & phiBin & flags & Hl & Hft & Hfl & ->)].
  - pose proof (lookup_lt_Some _ _ _ Hl) as Hi.
    destruct (FindTower_range _ _ _ _ _ Hwf Hft) as [Hre Hrp].
    destruct (tower_of_hit_geometry cfg _ _ _ _ 1 (Z.of_nat i) Hwf Hft) as [t Ht];
      [lia..|].
    unfold good_hit.
    rewrite hit_EtaPhi_towerHit, hit_flags_towerHit, hit_number_towerHit by lia.
    split; [rewrite Ht; eauto|]. split; [lia|]. split.
    + intros _. rewrite Hte1, Hte2.
      repeat split; apply vec_at_is_Some; rewrite ?length_map; lia.
    + intros Hz. discriminate Hz.
  - pose proof (lookup_lt_Some _ _ _ Hl) as Hi.
    destruct (FindTower_range _ _ _ _ _ Hwf Hft) as [Hre Hrp].
    destruct (tower_of_hit_geometry cfg _ _ _ _ flags (Z.of_nat i) Hwf Hft) as [t Ht];
      [lia..|].
    unfold good_hit.
    rewrite hit_EtaPhi_towerHit, hit_flags_towerHit, hit_number_towerHit by lia.
    split; [rewrite Ht; eauto|]. split; [lia|]. split.
    + intros Hz. destruct Hfl as [-> | ->]; contradiction Hz; reflexivity.
    + intros _. rewrite Hpe1, Hpe2, Hpe3.
      repeat split; apply vec_at_is_Some; rewrite ?length_map; lia.
Qed.

Lemma track_step_some (cfg : Config) (tabs : HitTables) (tracks : list Candidate)
    (t : Tower) (number : Z) :
  is_Some (vec_at tracks number) ->
  is_Some (vec_at (fTrackECalFractions tabs) number) ->
  is_Some (vec_at (fTrackHCalFractions tabs) number) ->
  exists t' : Tower,
    track_step cfg tabs tracks t number = Some t'
    /\ (is_Some (fTower t) -> is_Some (fTower t')).
Proof.
  intros [track Ht] [ef He] [hf Hh]. unfold track_step. rewrite Ht, He, Hh. simpl.
  eexists. split; [reflexivity|]. simpl. intros [c ->].
  destruct (decide _); [destruct (electronsFromTrack cfg)|]; eauto.
Qed.

Lemma particle_step_some (cfg : Config) (tabs : HitTables) (particles : list Candidate)
    (t : Tower) (flags number : Z) :
  is_Some (vec_at particles number) ->
  is_Some (vec_at (fTowerECalFractions tabs) number) ->
  is_Some (vec_at (fTowerHCalFractions tabs) number) ->
  is_Some (vec_at (fParticlePDGId tabs) number) ->
  is_Some (fTower t) ->
  exists t' : Tower,
    particle_step cfg tabs particles t flags number = Some t'
    /\ is_Some (fTower t').
Proof.
  intros [particle Hp] [ef He] [hf Hh] [pdg Hpdg] [c Hc]. unfold particle_step.
  rewrite Hp, He, Hh, Hc, Hpdg. simpl.
  eexists. split; [reflexivity|]. simpl. eauto.
Qed.

Lemma new_tower_fresh (cfg : Config) (h : Z) (t : Tower) :
  new_tower cfg h = Some t ->
  fTower t = Some NewCandidate /\ fTowerTrackArray t = []
  /\ fTowerECalEnergy t = 0 /\ fTowerHCalEnergy t = 0
  /\ fTrackECalEnergy t = 0 /\ fTrackHCalEnergy t = 0.
Proof.
  rewrite new_tower_unfold.
  generalize (hit_etaBin h), (hit_phiBin h). intros etaBin phiBin.
  generalize (etaBin - 1)%Z, (phiBin - 1)%Z. intros etaBin' phiBin' Hn.
  destruct (vec_at (fPhiBins cfg) etaBin) as [phiBins|]; [|discriminate].
  simpl in Hn.
  destruct (vec_at (fEtaBins cfg) etaBin') as [etaLo|]; [|discriminate].
  simpl in Hn.
  destruct (vec_at (fEtaBins cfg) etaBin) as [etaHi|]; [|discriminate].
  simpl in Hn.
  destruct (vec_at phiBins phiBin') as [phiLo|]; [|discriminate].
  simpl in Hn.
  destruct (vec_at phiBins phiBin) as [phiHi|]; [|discriminate].
  simpl in Hn. injection Hn as <-. simpl. tauto.
Qed.

Lemma hit_step_some (cfg : Config) (tabs : HitTables) (tracks particles : list Candidate)
    (s : Scan) (h : Z) :
  good_hit cfg tabs tracks particles h ->
  (towerEtaPhi s <> 0%Z -> is_Some (fTower (tower s))) ->
  exists s' : Scan,
    hit_step cfg tabs tracks particles s h = Some s'
    /\ is_Some (fTower (tower s')).
Proof.
  intros ([t Hnew] & Hne0 & Htrack & Hpart) Hinv. unfold hit_step. cbv zeta.
  assert (Hstep : forall s1 : Scan,
            is_Some (fTower (tower s1)) ->
            exists s' : Scan,
              (t' ← (if decide (Z.land (hit_flags h) 1 <> 0%Z)
                     then track_step cfg tabs tracks (tower s1) (hit_number h)
                     else particle_step cfg tabs particles (tower s1) (hit_flags h)
                            (hit_number h));
               Some (mkScan (towerEtaPhi s1) t' (output s1) (gRandom s1))) = Some s'
              /\ is_Some (fTower (tower s'))).
  { intros s1 Hsome.
    destruct (decide (Z.land (hit_flags h) 1 <> 0%Z)) as [Hd|Hd].
    - destruct (Htrack Hd) as (H1 & H2 & H3).
      destruct (track_step_some cfg tabs tracks (tower s1) (hit_number h) H1 H2 H3)
        as (t' & -> & Hsome'). simpl. eexists. split; [reflexivity|]. simpl. auto.
    - assert (Hz : Z.land (hit_flags h) 1 = 0%Z)
        by (destruct (decide (Z.land (hit_flags h) 1 = 0%Z)); [assumption|contradiction]).
      destruct (Hpart Hz) as (H1 & H2 & H3 & H4).
      destruct (particle_step_some cfg tabs particles (tower s1) (hit_flags h)
                  (hit_number h) H1 H2 H3 H4 Hsome) as (t' & -> & Hsome').
      simpl. eexists. split; [reflexivity|]. simpl. auto. }
  destruct (decide (towerEtaPhi s <> hit_EtaPhi h)) as [Hd|Hd].
  - destruct (FinalizeTower cfg (tower s) (output s) (gRandom s)) as [out' g'].
    rewrite Hnew. apply new_tower_fresh in Hnew as [Hfresh _].
    apply (Hstep (mkScan (hit_EtaPhi h) t out' g')). simpl. rewrite Hfresh. eauto.
  - apply (Hstep s). apply Hinv.
    destruct (decide (towerEtaPhi s = hit_EtaPhi h)) as [->|]; [assumption|contradiction].
Qed.

Lemma scan_hits_some (cfg : Config) (tabs : HitTables) (tracks particles : list Candidate)
    (hits : list Z) :
  Forall (good_hit cfg tabs tracks particles) hits ->
  forall s : Scan,
    (towerEtaPhi s <> 0%Z -> is_Some (fTower (tower s))) ->
    is_Some (scan_hits cfg tabs tracks particles s hits).
Proof.
  induction 1 as [|h hits Hh Hhits IH]; intros s Hinv; simpl; [eauto|].
  destruct (hit_step_some cfg tabs tracks particles s h Hh Hinv) as (s' & -> & Hsome).
  simpl. apply IH. intros _. assumption.
Qed.

Lemma Process_total_aux (cfg : Config) (tracks particles : list Candidate) (g : TRandom) :
  wf_bins cfg ->
  is_Some (fFractionMap cfg !! 0%Z) ->
  (Z.of_nat (length tracks) <= 2 ^ 24)%Z ->
  (Z.of_nat (length particles) <= 2 ^ 24)%Z ->
  exists (tabs : HitTables) (s : Scan),
    fill_tables cfg tracks particles = Some tabs
    /\ scan_hits cfg tabs tracks particles (mkScan 0 Tower0 Output0 g)
         (sort (fTowerHits tabs)) = Some s
    /\ Process cfg tracks particles g
       = Some (FinalizeTower cfg (tower s) (output s) (gRandom s)).
Proof.
  intros Hwf H0 Hnt Hnp. unfold Process.
  destruct (fill_tables_some cfg tracks particles H0) as [tabs Hfill].
  rewrite Hfill. cbn [mbind option_bind].
  pose proof (hits_are_good _ _ _ _ Hwf Hnt Hnp Hfill) as Hgood.
  rewrite <- (sort_perm (fTowerHits tabs)) in Hgood.
  destruct (scan_hits_some cfg tabs tracks particles _ Hgood (mkScan 0 Tower0 Output0 g))
    as [s Hs]; [simpl; intros Hc; contradiction Hc; reflexivity|].
  exists tabs, s. rewrite Hs. auto.
Qed.

(** X8.  With the segmentation and the fraction map [Init] leaves and at
    most 2^24 tracks and 2^24 particles, [Process] runs to its end on every
    event: no lookup leaves its vector, no hit names a track or a particle
    that does not exist, and the tower is never null when a particle is
    added to it (a hit never has the tower code 0 the scan starts from,
    since bin numbers start at 1). *)
Theorem Process_stays_within_bounds (cfg : Config) (tracks particles : list Candidate)
    (g : TRandom) :
  wf_bins cfg ->
  is_Some (fFractionMap cfg !! 0%Z) ->
  (Z.of_nat (length tracks) <= 2 ^ 24)%Z ->
  (Z.of_nat (length particles) <= 2 ^ 24)%Z ->
  is_Some (Process cfg tracks particles g).
Proof.
  intros Hwf H0 Hnt Hnp. unfold Process.
  destruct (fill_tables_some cfg tracks particles H0) as [tabs Hfill].
  rewrite Hfill. simpl.
  pose proof (hits_are_good _ _ _ _ Hwf Hnt Hnp Hfill) as Hgood.
  rewrite <- (sort_perm (fTowerHits tabs)) in Hgood.
  destruct (scan_hits_some cfg tabs tracks particles _ Hgood (mkScan 0 Tower0 Output0 g))
    as [s ->]; [simpl; intros Hc; contradiction Hc; reflexivity|].
  simpl. eauto.
Qed.

Lemma Process_pion_neutron_runs :
  is_Some (Process three_by_three [charged_pion] [neutron] zero_draws).
Proof.
  apply (Process_stays_within_bounds three_by_three [charged_pion] [neutron]).
  - exact three_by_three_wf.
  - rewrite three_by_three_default. eauto.
  - simpl. lia.
  - simpl. lia.
Defined.

Lemma track_step_inv (cfg : Config) (tabs : HitTables) (tracks : list Candidate)
    (t t' : Tower) (number : Z) :
  track_step cfg tabs tracks t number = Some t' ->
  exists track : Candidate,
    vec_at tracks number = Some track
    /\ fTowerTrackArray t' = fTowerTrackArray t ++ [track]
    /\ fTowerECalEnergy t' = fTowerECalEnergy t
    /\ fTowerHCalEnergy t' = fTowerHCalEnergy t.
Proof.
  unfold track_step. intros Hs.
  destruct (vec_at tracks number) as [track|]; [|discriminate]. simpl in Hs.
  destruct (vec_at (fTrackECalFractions tabs) number) as [ef|]; [|discriminate].
  simpl in Hs.
  destruct (vec_at (fTrackHCalFractions tabs) number) as [hf|]; [|discriminate].
  simpl in Hs. injection Hs as <-. exists track. simpl. tauto.
Qed.

Lemma particle_step_inv (cfg : Config) (tabs : HitTables) (particles : list Candidate)
    (t t' : Tower) (flags number : Z) :
  particle_step cfg tabs particles t flags number = Some t' ->
  exists (particle : Candidate) (ef hf : R),
    vec_at particles number = Some particle
    /\ vec_at (fTowerECalFractions tabs) number = Some ef
    /\ vec_at (fTowerHCalFractions tabs) number = Some hf
    /\ fTowerTrackArray t' = fTowerTrackArray t
    /\ fTowerECalEnergy t' = fTowerECalEnergy t + E (Momentum particle) * ef
    /\ fTowerHCalEnergy t' = fTowerHCalEnergy t + E (Momentum particle) * hf.
Proof.
  unfold particle_step. intros Hs.
  destruct (vec_at particles number) as [particle|]; [|discriminate]. simpl in Hs.
  destruct (vec_at (fTowerECalFractions tabs) number) as [ef|]; [|discriminate].
  simpl in Hs.
  destruct (vec_at (fTowerHCalFractions tabs) number) as [hf|]; [|discriminate].
  simpl in Hs.
  destruct (fTower t) as [c|]; [|discriminate]. simpl in Hs.
  destruct (vec_at (fParticlePDGId tabs) number) as [pdg|]; [|discriminate].
  simpl in Hs. injection Hs as <-. exists particle, ef, hf. simpl. tauto.
Qed.

#[local] Arguments track_step : simpl never.
#[local] Arguments particle_step : simpl never.

Lemma is_track_hit_flags (h : Z) :
  is_track_hit h = bool_decide (Z.land (hit_flags h) 1 <> 0%Z).
Proof.
  unfold is_track_hit. destruct (Z.eqb_spec (Z.land (hit_flags h) 1) 0) as [Heq|Hne].
  - rewrite bool_decide_eq_false_2; [reflexivity|]. intros Hc. contradiction.
  - rewrite bool_decide_eq_true_2; [reflexivity | assumption].
Qed.

(** One step of the scan, taken apart: the tower is switched or kept,
    then the hit is added to it. *)
Lemma hit_step_inv (cfg : Config) (tabs : HitTables) (tracks particles : list Candidate)
    (s s' : Scan) (h : Z) :
  hit_step cfg tabs tracks particles s h = Some s' ->
  exists s1 : Scan,
    ((towerEtaPhi s <> hit_EtaPhi h
      /\ exists t : Tower,
           new_tower cfg h = Some t
           /\ s1 = mkScan (hit_EtaPhi h) t
                   (FinalizeTower cfg (tower s) (output s) (gRandom s)).1
                   (FinalizeTower cfg (tower s) (output s) (gRandom s)).2)
     \/ (towerEtaPhi s = hit_EtaPhi h /\ s1 = s))
    /\ output s' = output s1 /\ gRandom s' = gRandom s1
    /\ towerEtaPhi s' = towerEtaPhi s1
    /\ ((is_track_hit h = true
         /\ track_step cfg tabs tracks (tower s1) (hit_number h) = Some (tower s'))
        \/ (is_track_hit h = false
            /\ particle_step cfg tabs particles (tower s1) (hit_flags h) (hit_number h)
               = Some (tower s'))).
Proof.
  unfold hit_step. cbv zeta. rewrite is_track_hit_flags. intros Hs.
  assert (Hcont : forall s1 : Scan,
            (t' ← (if decide (Z.land (hit_flags h) 1 <> 0%Z)
                   then track_step cfg tabs tracks (tower s1) (hit_number h)
                   else particle_step cfg tabs particles (tower s1) (hit_flags h)
                          (hit_number h));
             Some (mkScan (towerEtaPhi s1) t' (output s1) (gRandom s1))) = Some s' ->
            output s' = output s1 /\ gRandom s' = gRandom s1
            /\ towerEtaPhi s' = towerEtaPhi s1
            /\ ((bool_decide (Z.land (hit_flags h) 1 <> 0%Z) = true
                 /\ track_step cfg tabs tracks (tower s1) (hit_number h) = Some (tower s'))
                \/ (bool_decide (Z.land (hit_flags h) 1 <> 0%Z) = false
                    /\ particle_step cfg tabs particles (tower s1) (hit_flags h)
                         (hit_number h) = Some (tower s')))).
  { intros s1 Hrest.
    destruct (decide (Z.land (hit_flags h) 1 <> 0%Z)) as [Hd|Hd].
    - destruct (track_step cfg tabs tracks (tower s1) (hit_number h)) as [t'|];
        [|discriminate].
      simpl in Hrest. injection Hrest as <-. cbn [output gRandom towerEtaPhi tower].
      rewrite bool_decide_eq_true_2 by assumption. tauto.
    - destruct (particle_step cfg tabs particles (tower s1) (hit_flags h) (hit_number h))
        as [t'|]; [|discriminate].
      simpl in Hrest. injection Hrest as <-. cbn [output gRandom towerEtaPhi tower].
      rewrite bool_decide_eq_false_2 by assumption. tauto. }
  destruct (decide (towerEtaPhi s <> hit_EtaPhi h)) as [Hd|Hd].
  - destruct (FinalizeTower cfg (tower s) (output s) (gRandom s)) as [out' g'].
    destruct (new_tower cfg h) as [t|]; [|discriminate].
    exists (mkScan (hit_EtaPhi h) t out' g').
    split; [left; split; [assumption|]; exists t; split; reflexivity|].
    apply Hcont. exact Hs.
  - exists s. split; [|apply Hcont; exact Hs]. right. split; [|reflexivity].
    destruct (decide (towerEtaPhi s = hit_EtaPhi h)); [assumption|contradiction].
Qed.

Lemma FinalizeTower_eflow_tracks (cfg : Config) (t : Tower) (out : Output) (g : TRandom) :
  (fTower t = None -> fTowerTrackArray t = []) ->
  fEFlowTrackOutputArray (FinalizeTower cfg t out g).1
  = fEFlowTrackOutputArray out ++ fTowerTrackArray t.
Proof.
  intros Hnone. unfold FinalizeTower. destruct (fTower t) as [tower0|].
  - destruct (smear cfg t g) as [[ecalEnergy hcalEnergy] g']. reflexivity.
  - rewrite Hnone by reflexivity. rewrite app_nil_r. reflexivity.
Qed.

Lemma hit_step_tracks (cfg : Config) (tabs : HitTables) (tracks particles : list Candidate)
    (s s' : Scan) (h : Z) :
  hit_step cfg tabs tracks particles s h = Some s' ->
  (fTower (tower s) = None -> fTowerTrackArray (tower s) = []) ->
  scan_tracks s' = scan_tracks s ++ omap (track_of tracks) [h].
Proof.
  intros (s1 & Hcase & Hout & _ & _ & Hstep)%hit_step_inv Hnone.
  assert (Hs1 : scan_tracks s1 = scan_tracks s).
  { destruct Hcase as [(_ & t & Hnew & ->)|[_ ->]]; [|reflexivity].
    apply new_tower_fresh in Hnew as (_ & Harr & _).
    unfold scan_tracks. cbn [output tower]. rewrite Harr, app_nil_r.
    apply FinalizeTower_eflow_tracks. assumption. }
  unfold scan_tracks in *. rewrite Hout. unfold track_of. cbn [omap list_omap].
  destruct Hstep as [[Htrack Hstep]|[Hpart Hstep]].
  - apply track_step_inv in Hstep as (track & Hat & Harr & _).
    rewrite Htrack, Hat, Harr, app_assoc, Hs1. reflexivity.
  - apply particle_step_inv in Hstep as (particle & ef & hf & _ & _ & _ & Harr & _).
    rewrite Hpart, Harr, Hs1, app_nil_r. reflexivity.
Qed.

Lemma hit_step_deterministic_some (cfg : Config) (tabs : HitTables)
    (tracks particles : list Candidate) (s s' : Scan) (h : Z) :
  good_hit cfg tabs tracks particles h ->
  (towerEtaPhi s <> 0%Z -> is_Some (fTower (tower s))) ->
  hit_step cfg tabs tracks particles s h = Some s' ->
  is_Some (fTower (tower s')).
Proof.
  intros Hgood Hinv Hstep.
  destruct (hit_step_some cfg tabs tracks particles s h Hgood Hinv) as (s'' & Hs'' & Hsome).
  rewrite Hstep in Hs''. injection Hs'' as <-. assumption.
Qed.

Lemma scan_hits_tracks (cfg : Config) (tabs : HitTables) (tracks particles : list Candidate)
    (hits : list Z) :
  Forall (good_hit cfg tabs tracks particles) hits ->
  forall s s' : Scan,
    (towerEtaPhi s <> 0%Z -> is_Some (fTower (tower s))) ->
    (fTower (tower s) = None -> fTowerTrackArray (tower s) = []) ->
    scan_hits cfg tabs tracks particles s hits = Some s' ->
    scan_tracks s' = scan_tracks s ++ omap (track_of tracks) hits
    /\ (fTower (tower s') = None -> fTowerTrackArray (tower s') = []).
Proof.
  induction 1 as [|h hits Hh Hhits IH]; intros s s' Hinv Hnone Hscan.
  - simpl in Hscan. injection Hscan as <-. cbn [omap list_omap].
    rewrite app_nil_r. auto.
  - cbn [scan_hits] in Hscan.
    destruct (hit_step cfg tabs tracks particles s h) as [s1|] eqn:Hstep; [|discriminate].
    cbn [mbind option_bind] in Hscan.
    pose proof (hit_step_deterministic_some _ _ _ _ _ _ _ Hh Hinv Hstep) as Hsome.
    pose proof (hit_step_tracks _ _ _ _ _ _ _ Hstep Hnone) as Htr.
    destruct (IH s1 s') as [IH1 IH2]; [auto | | assumption |].
    { intros Hc. rewrite Hc in Hsome. destruct Hsome; discriminate. }
    split; [|assumption].
    rewrite IH1, Htr, <- app_assoc. f_equal.
    change (h :: hits) with ([h] ++ hits). rewrite omap_app. reflexivity.
Qed.

Lemma track_entry_hit_eq (cfg : Config) (number : Z) (track : Candidate) (e : Entry) :
  track_entry cfg number track = Some e ->
  entry_hit e
  = ('(etaBin, phiBin) ← FindTower cfg (Eta (Position track)) (Phi (Position track));
     Some (towerHit etaBin phiBin 1 number)).
Proof.
  unfold track_entry. intros Hb.
  destruct (find_fraction _ _) as [[ef hf]|]; [|discriminate]. simpl in Hb.
  injection Hb as <-. reflexivity.
Qed.

Lemma is_track_hit_towerHit (e p f n : Z) :
  (0 <= p < 2 ^ 16)%Z -> (0 <= f < 2 ^ 8)%Z -> (0 <= n < 2 ^ 24)%Z ->
  is_track_hit (towerHit e p f n) = bool_decide (Z.land f 1 <> 0%Z).
Proof.
  intros Hp Hf Hn. rewrite is_track_hit_flags, hit_flags_towerHit by lia. reflexivity.
Qed.

Lemma track_entries_tracks (cfg : Config) (tracks : list Candidate) :
  wf_bins cfg -> (Z.of_nat (length tracks) <= 2 ^ 24)%Z ->
  forall (l pre : list Candidate) (es : list Entry),
    tracks = pre ++ l ->
    input_loop (track_entry cfg) (Z.of_nat (length pre) - 1) l = Some es ->
    omap (track_of tracks) (omap entry_hit es) = filter (reaches_tower cfg) l.
Proof.
  intros Hwf Hsize. induction l as [|c l IH]; intros pre es Htracks Hloop.
  - simpl in Hloop. injection Hloop as <-. reflexivity.
  - cbn [input_loop] in Hloop.
    replace (Z.of_nat (length pre) - 1 + 1)%Z with (Z.of_nat (length pre)) in Hloop by lia.
    destruct (track_entry cfg (Z.of_nat (length pre)) c) as [e|] eqn:Hb; [|discriminate].
    cbn [mbind option_bind] in Hloop.
    destruct (input_loop (track_entry cfg) (Z.of_nat (length pre)) l) as [es'|] eqn:Hrest;
      [|discriminate].
    cbn [mbind option_bind] in Hloop. injection Hloop as <-.
    assert (IH' : omap (track_of tracks) (omap entry_hit es') = filter (reaches_tower cfg) l).
    { apply (IH (pre ++ [c])).
      - rewrite <- app_assoc. exact Htracks.
      - rewrite length_app. simpl.
        replace (Z.of_nat (length pre + 1) - 1)%Z with (Z.of_nat (length pre)) by lia.
        exact Hrest. }
    assert (Hlen : (length pre < length tracks)%nat)
      by (rewrite Htracks, length_app; simpl; lia).
    pose proof (track_entry_hit_eq _ _ _ _ Hb) as Hhit.
    cbn [omap list_omap]. rewrite Hhit.
    destruct (FindTower cfg (Eta (Position c)) (Phi (Position c)))
      as [[etaBin phiBin]|] eqn:Hft.
    + destruct (FindTower_range _ _ _ _ _ Hwf Hft) as [Hre Hrp].
      cbn [mbind option_bind omap list_omap]. unfold track_of at 1.
      rewrite is_track_hit_towerHit, hit_number_towerHit by lia.
      rewrite bool_decide_eq_true_2 by (intros Hc; discriminate Hc).
      rewrite vec_at_of_nat, Htracks, list_lookup_middle by reflexivity.
      rewrite <- Htracks, IH'.
      rewrite filter_cons_True; [reflexivity|].
      unfold reaches_tower. rewrite Hft. eauto.
    + cbn [mbind option_bind]. rewrite IH'.
      rewrite filter_cons_False; [reflexivity|].
      unfold reaches_tower. rewrite Hft. intros [x Hx]. discriminate.
Qed.

Lemma omap_all_None {A B : Type} (f : A -> option B) (l : list A) :
  (forall x : A, x ∈ l -> f x = None) -> omap f l = [].
Proof.
  induction l as [|x l IH]; intros Hall; [reflexivity|].
  cbn [omap list_omap]. rewrite (Hall x) by (apply elem_of_cons; left; reflexivity).
  apply IH. intros y Hy. apply Hall. apply elem_of_cons. right. assumption.
Qed.

Lemma particle_entries_no_track (cfg : Config) (tracks particles : list Candidate)
    (pe : list Entry) :
  wf_bins cfg -> (Z.of_nat (length particles) <= 2 ^ 24)%Z ->
  input_loop (particle_entry cfg) (-1) particles = Some pe ->
  omap (track_of tracks) (omap entry_hit pe) = [].
Proof.
  intros Hwf Hsize Hpe. apply omap_all_None. intros h Hh.
  destruct (input_loop_hit _ _ _ _ _ Hpe Hh) as (i & particle & e & Hl & Hb & He).
  replace (-1 + 1 + Z.of_nat i)%Z with (Z.of_nat i) in Hb by lia.
  destruct (particle_entry_hit _ _ _ _ _ Hb He)
    as (etaBin & phiBin & flags & Hft & Hfl & -> & _).
  pose proof (lookup_lt_Some _ _ _ Hl) as Hi.
  destruct (FindTower_range _ _ _ _ _ Hwf Hft) as [Hre Hrp].
  unfold track_of. rewrite is_track_hit_towerHit by lia.
  rewrite bool_decide_eq_false_2; [reflexivity|].
  destruct Hfl as [-> | ->]; intros Hc; apply Hc; reflexivity.
Qed.

(** X9.  Every track that reaches a tower is exported as an energy-flow
    track, once, whatever the energy of its tower (also when the tower
    itself is not exported), and nothing else is: the energy-flow track
    array is a rearrangement of the tracks whose position the bin lookup
    accepts. *)
Theorem eflow_tracks_are_the_tracks_in_towers (cfg : Config)
    (tracks particles : list Candidate) (g : TRandom) :
  wf_bins cfg ->
  is_Some (fFractionMap cfg !! 0%Z) ->
  (Z.of_nat (length tracks) <= 2 ^ 24)%Z ->
  (Z.of_nat (length particles) <= 2 ^ 24)%Z ->
  exists (out : Output) (g' : TRandom),
    Process cfg tracks particles g = Some (out, g')
    /\ fEFlowTrackOutputArray out ≡ₚ filter (reaches_tower cfg) tracks.
Proof.
  intros Hwf H0 Hnt Hnp.
  destruct (Process_total_aux cfg tracks particles g Hwf H0 Hnt Hnp)
    as (tabs & s & Hfill & Hscan & Hproc).
  destruct (FinalizeTower cfg (tower s) (output s) (gRandom s)) as [out g'] eqn:HF.
  exists out, g'. split; [assumption|].
  pose proof (hits_are_good _ _ _ _ Hwf Hnt Hnp Hfill) as Hgood.
  rewrite <- (sort_perm (fTowerHits tabs)) in Hgood.
  destruct (scan_hits_tracks cfg tabs tracks particles _ Hgood
              (mkScan 0 Tower0 Output0 g) s) as [Htr Hnone];
    [simpl; intros Hc; contradiction Hc; reflexivity | intros _; reflexivity
    | exact Hscan |].
  replace out with (FinalizeTower cfg (tower s) (output s) (gRandom s)).1
    by (rewrite HF; reflexivity).
  rewrite FinalizeTower_eflow_tracks by assumption.
  change (fEFlowTrackOutputArray (output s) ++ fTowerTrackArray (tower s))
    with (scan_tracks s).
  rewrite Htr. unfold scan_tracks. cbn [output tower Output0 Tower0
    fEFlowTrackOutputArray fTowerTrackArray app].
  rewrite (sort_perm (fTowerHits tabs)).
  destruct (fill_tables_inv _ _ _ _ Hfill) as (te & pe & Hte & Hpe & -> & _).
  rewrite omap_app.
  rewrite (track_entries_tracks cfg tracks Hwf Hnt tracks [] te eq_refl Hte).
  rewrite (particle_entries_no_track cfg tracks particles pe Hwf Hnp Hpe).
  rewrite app_nil_r. reflexivity.
Qed.

Lemma pion_is_an_eflow_track :
  exists (out : Output) (g' : TRandom),
    Process three_by_three [charged_pion] [neutron] zero_draws = Some (out, g')
    /\ fEFlowTrackOutputArray out ≡ₚ filter (reaches_tower three_by_three) [charged_pion].
Proof.
  apply (eflow_tracks_are_the_tracks_in_towers three_by_three [charged_pion] [neutron]).
  - exact three_by_three_wf.
  - rewrite three_by_three_default. eauto.
  - simpl. lia.
  - simpl. lia.
Defined.

(** *** Energy *)

Lemma LogNormal_sigma_0 (mean : R) (g : TRandom) :
  0 <= mean -> (LogNormal mean 0 g).1 = mean.
Proof.
  intros Hmean. unfold LogNormal. destruct (decide (mean > 0)) as [Hpos|Hneg].
  - unfold Gaus01, next_draw. cbn [fst].
    replace (1 + 0 * 0 / (mean * mean)) with 1 by (field; lra).
    rewrite ln_1, sqrt_0.
    replace (ln mean - 0.5 * 0 * 0 + 0 * draws g (drawn g)) with (ln mean) by ring.
    apply exp_ln. lra.
  - cbn [fst]. lra.
Qed.

Lemma sum_energies_app (l1 l2 : list R) :
  sum_energies (l1 ++ l2) = sum_energies l1 + sum_energies l2.
Proof.
  unfold sum_energies. induction l1 as [|x l1 IH]; simpl; [lra|]. rewrite IH. lra.
Qed.

Lemma sum_energies_perm (l1 l2 : list R) :
  l1 ≡ₚ l2 -> sum_energies l1 = sum_energies l2.
Proof.
  unfold sum_energies. induction 1; simpl; lra.
Qed.

Lemma FinalizeTower_energy (cfg : Config) (t : Tower) (out : Output) (g : TRandom) :
  (forall eta energy : R, fECalResolutionFormula cfg eta energy = 0) ->
  (forall eta energy : R, fHCalResolutionFormula cfg eta energy = 0) ->
  0 <= fTowerECalEnergy t -> 0 <= fTowerHCalEnergy t ->
  (fTower t = None -> fTowerECalEnergy t = 0 /\ fTowerHCalEnergy t = 0) ->
  sum_energies (map tower_energy (fTowerOutputArray (FinalizeTower cfg t out g).1))
  = sum_energies (map tower_energy (fTowerOutputArray out))
    + (fTowerECalEnergy t + fTowerHCalEnergy t).
Proof.
  intros Hecal Hhcal He Hh Hnone. unfold FinalizeTower.
  destruct (fTower t) as [tower0|].
  - unfold smear. rewrite Hecal, Hhcal.
    pose proof (LogNormal_sigma_0 (fTowerECalEnergy t) g He) as H1.
    destruct (LogNormal (fTowerECalEnergy t) 0 g) as [ecalEnergy g1].
    pose proof (LogNormal_sigma_0 (fTowerHCalEnergy t) g1 Hh) as H2.
    destruct (LogNormal (fTowerHCalEnergy t) 0 g1) as [hcalEnergy g2].
    cbn [fst] in H1, H2. subst ecalEnergy hcalEnergy.
    cbn [fst fTowerOutputArray].
    destruct (decide (fTowerECalEnergy t + fTowerHCalEnergy t > 0)) as [Hpos|Hzero].
    + rewrite map_app, sum_energies_app. f_equal.
      unfold sum_energies, tower_energy. simpl. lra.
    + lra.
  - destruct (Hnone eq_refl) as [-> ->]. cbn [fst]. lra.
Qed.

Lemma vec_at_elem_of {A : Type} (v : list A) (i : Z) (x : A) :
  vec_at v i = Some x -> x ∈ v.
Proof.
  unfold vec_at. destruct (decide (0 <= i)%Z); [|discriminate].
  apply list_elem_of_lookup_2.
Qed.

Lemma hit_step_energy (cfg : Config) (tabs : HitTables) (tracks particles : list Candidate)
    (s s' : Scan) (h : Z) :
  (forall eta energy : R, fECalResolutionFormula cfg eta energy = 0) ->
  (forall eta energy : R, fHCalResolutionFormula cfg eta energy = 0) ->
  Forall (fun particle => 0 <= E (Momentum particle)) particles ->
  Forall (fun fraction => 0 <= fraction) (fTowerECalFractions tabs) ->
  Forall (fun fraction => 0 <= fraction) (fTowerHCalFractions tabs) ->
  hit_step cfg tabs tracks particles s h = Some s' ->
  0 <= fTowerECalEnergy (tower s) -> 0 <= fTowerHCalEnergy (tower s) ->
  (fTower (tower s) = None ->
   fTowerECalEnergy (tower s) = 0 /\ fTowerHCalEnergy (tower s) = 0) ->
  scan_energy s' = scan_energy s + hit_energy tabs particles h
  /\ 0 <= fTowerECalEnergy (tower s') /\ 0 <= fTowerHCalEnergy (tower s').
Proof.
  intros Hecal Hhcal HE Hef Hhf (s1 & Hcase & Hout & _ & _ & Hstep)%hit_step_inv
    He Hh Hnone.
  assert (Hs1 : scan_energy s1 = scan_energy s
                /\ 0 <= fTowerECalEnergy (tower s1) /\ 0 <= fTowerHCalEnergy (tower s1)).
  { destruct Hcase as [(_ & t & Hnew & ->)|[_ ->]]; [|auto].
    apply new_tower_fresh in Hnew as (_ & _ & H1 & H2 & _).
    unfold scan_energy. cbn [output tower]. rewrite H1, H2.
    rewrite FinalizeTower_energy by assumption. split; [|lra]. lra. }
  destruct Hs1 as (Hs1 & He1 & Hh1).
  unfold scan_energy in *. rewrite Hout. unfold hit_energy.
  destruct Hstep as [[Htrack Hstep]|[Hpart Hstep]].
  - apply track_step_inv in Hstep as (track & _ & _ & H1 & H2).
    rewrite Htrack, H1, H2. split; [lra|]. split; assumption.
  - apply particle_step_inv in Hstep
      as (particle & ef & hf & Hat & Hatef & Hathf & _ & H1 & H2).
    rewrite Hpart, Hat, Hatef, Hathf, H1, H2.
    rewrite Forall_forall in HE. rewrite Forall_forall in Hef.
    rewrite Forall_forall in Hhf.
    pose proof (HE _ (vec_at_elem_of _ _ _ Hat)) as HEp. simpl in HEp.
    pose proof (Hef _ (vec_at_elem_of _ _ _ Hatef)) as Hefp.
    pose proof (Hhf _ (vec_at_elem_of _ _ _ Hathf)) as Hhfp.
    pose proof (Rmult_le_pos _ _ HEp Hefp).
    pose proof (Rmult_le_pos _ _ HEp Hhfp).
    split; [lra|]. split; lra.
Qed.

Lemma scan_hits_energy (cfg : Config) (tabs : HitTables) (tracks particles : list Candidate)
    (hits : list Z) :
  (forall eta energy : R, fECalResolutionFormula cfg eta energy = 0) ->
  (forall eta energy : R, fHCalResolutionFormula cfg eta energy = 0) ->
  Forall (fun particle => 0 <= E (Momentum particle)) particles ->
  Forall (fun fraction => 0 <= fraction) (fTowerECalFractions tabs) ->
  Forall (fun fraction => 0 <= fraction) (fTowerHCalFractions tabs) ->
  Forall (good_hit cfg tabs tracks particles) hits ->
  forall s s' : Scan,
    (towerEtaPhi s <> 0%Z -> is_Some (fTower (tower s))) ->
    0 <= fTowerECalEnergy (tower s) -> 0 <= fTowerHCalEnergy (tower s) ->
    (fTower (tower s) = None ->
     fTowerECalEnergy (tower s) = 0 /\ fTowerHCalEnergy (tower s) = 0) ->
    scan_hits cfg tabs tracks particles s hits = Some s' ->
    scan_energy s' = scan_energy s + sum_energies (map (hit_energy tabs particles) hits)
    /\ 0 <= fTowerECalEnergy (tower s') /\ 0 <= fTowerHCalEnergy (tower s')
    /\ (fTower (tower s') = None ->
        fTowerECalEnergy (tower s') = 0 /\ fTowerHCalEnergy (tower s') = 0).
Proof.
  intros Hecal Hhcal HE Hef Hhf.
  induction 1 as [|h hits Hgood Hhits IH]; intros s s' Hinv He Hh Hnone Hscan.
  - simpl in Hscan. injection Hscan as <-. unfold sum_energies. simpl.
    split; [lra|]. auto.
  - cbn [scan_hits] in Hscan.
    destruct (hit_step cfg tabs tracks particles s h) as [s1|] eqn:Hstep; [|discriminate].
    cbn [mbind option_bind] in Hscan.
    pose proof (hit_step_deterministic_some _ _ _ _ _ _ _ Hgood Hinv Hstep) as Hsome.
    destruct (hit_step_energy _ _ _ _ _ _ _ Hecal Hhcal HE Hef Hhf Hstep He Hh Hnone)
      as (Hen & He1 & Hh1).
    destruct (IH s1 s') as (IH1 & IH2); [auto | assumption | assumption | | assumption |].
    { intros Hc. rewrite Hc in Hsome. destruct Hsome; discriminate. }
    split; [|assumption].
    rewrite IH1, Hen. unfold sum_energies. simpl. lra.
Qed.

Lemma sum_energies_pointwise {A B : Type} (f : A -> R) (k : B -> R) :
  forall (l1 : list A) (l2 : list B),
    length l1 = length l2 ->
    (forall (i : nat) (a : A) (b : B), l1 !! i = Some a -> l2 !! i = Some b -> f a = k b) ->
    sum_energies (map f l1) = sum_energies (map k l2).
Proof.
  unfold sum_energies.
  induction l1 as [|a l1 IH]; intros [|b l2] Hlen Hpt; simpl in *; try lia; [reflexivity|].
  rewrite (Hpt 0%nat a b) by reflexivity. f_equal. apply IH; [lia|].
  intros i a' b' Ha Hb. apply (Hpt (S i)); assumption.
Qed.

Lemma sum_energies_omap {A : Type} (f : A -> option Z) (k : Z -> R) (l : list A) :
  sum_energies (map k (omap f l))
  = sum_energies (map (fun a => match f a with Some h => k h | None => 0 end) l).
Proof.
  unfold sum_energies. induction l as [|a l IH]; [reflexivity|].
  cbn [omap list_omap map foldr]. destruct (f a); simpl; rewrite IH; lra.
Qed.

Lemma sum_energies_zero {A : Type} (f : A -> R) (l : list A) :
  (forall a : A, a ∈ l -> f a = 0) -> sum_energies (map f l) = 0.
Proof.
  unfold sum_energies. induction l as [|a l IH]; intros Hall; [reflexivity|]. simpl.
  rewrite (Hall a) by (apply elem_of_cons; left; reflexivity).
  rewrite IH; [lra|]. intros b Hb. apply Hall. apply elem_of_cons. right. assumption.
Qed.

Lemma particle_entry_fractions (cfg : Config) (number : Z) (particle : Candidate)
    (e : Entry) :
  particle_entry cfg number particle = Some e ->
  find_fraction (fFractionMap cfg) (Z.abs (PID (gen particle)))
  = Some (entry_ecal e, entry_hcal e)
  /\ entry_hit e
     = (if decide (entry_ecal e < 1e-9 /\ entry_hcal e < 1e-9) then None
        else
          '(etaBin, phiBin) ← FindTower cfg (Eta (Position particle))
                                (Phi (Position particle));
          Some (towerHit etaBin phiBin
                  (if decide (Z.abs (PID (gen particle)) = 11%Z
                              \/ Z.abs (PID (gen particle)) = 22%Z) then 2%Z else 0%Z)
                  number)).
Proof.
  unfold particle_entry. intros Hb.
  destruct (find_fraction _ _) as [[ef hf]|]; [|discriminate]. simpl in Hb.
  injection Hb as <-. cbn [entry_ecal entry_hcal entry_hit]. split; [reflexivity|].
  destruct (decide (ef < 1e-9 /\ hf < 1e-9)); [reflexivity|].
  rewrite particle_flags. reflexivity.
Qed.

Lemma find_fraction_value (m : gmap Z (R * R)) (pdgCode : Z) (p : R * R) :
  find_fraction m pdgCode = Some p -> exists code : Z, m !! code = Some p.
Proof.
  unfold find_fraction. destruct (m !! pdgCode) as [q|] eqn:Hq.
  - intros [= <-]. eauto.
  - eauto.
Qed.

Lemma input_loop_entries (body : Z -> Candidate -> option Entry) (l : list Candidate)
    (number : Z) (es : list Entry) (e : Entry) :
  input_loop body number l = Some es -> e ∈ es ->
  exists (i : nat) (c : Candidate),
    l !! i = Some c /\ es !! i = Some e /\ body (number + 1 + Z.of_nat i)%Z c = Some e.
Proof.
  intros Hloop Hin. destruct (input_loop_lookup _ _ _ _ Hloop) as [Hlen Hlook].
  apply list_elem_of_lookup_1 in Hin as [i Hi].
  pose proof (lookup_lt_Some _ _ _ Hi) as Hlt. rewrite Hlen in Hlt.
  destruct (lookup_lt_is_Some_2 l i Hlt) as [c Hc].
  destruct (Hlook i c Hc) as (e' & He' & Hb). rewrite Hi in He'. injection He' as <-.
  exists i, c. auto.
Qed.

Lemma tables_nonneg (cfg : Config) (tracks particles : list Candidate) (tabs : HitTables) :
  (forall (code : Z) (ef hf : R),
      fFractionMap cfg !! code = Some (ef, hf) -> 0 <= ef /\ 0 <= hf) ->
  fill_tables cfg tracks particles = Some tabs ->
  Forall (fun fraction => 0 <= fraction) (fTowerECalFractions tabs)
  /\ Forall (fun fraction => 0 <= fraction) (fTowerHCalFractions tabs).
Proof.
  intros Hmap (te & pe & _ & Hpe & _ & _ & _ & -> & -> & _)%fill_tables_inv.
  assert (Hall : forall e : Entry, e ∈ pe -> 0 <= entry_ecal e /\ 0 <= entry_hcal e).
  { intros e He. destruct (input_loop_entries _ _ _ _ _ Hpe He) as (i & c & _ & _ & Hb).
    apply particle_entry_fractions in Hb as [Hff _].
    apply find_fraction_value in Hff as [code Hcode]. eapply Hmap. eassumption. }
  split; apply Forall_fmap, Forall_forall; intros e He; simpl; apply Hall; assumption.
Qed.

Lemma track_hit_energy (cfg : Config) (tabs : HitTables) (tracks particles : list Candidate)
    (te : list Entry) (e : Entry) :
  wf_bins cfg -> (Z.of_nat (length tracks) <= 2 ^ 24)%Z ->
  input_loop (track_entry cfg) (-1) tracks = Some te -> e ∈ te ->
  match entry_hit e with Some h => hit_energy tabs particles h | None => 0 end = 0.
Proof.
  intros Hwf Hsize Hte He.
  destruct (input_loop_entries _ _ _ _ _ Hte He) as (i & c & Hl & _ & Hb).
  replace (-1 + 1 + Z.of_nat i)%Z with (Z.of_nat i) in Hb by lia.
  pose proof (lookup_lt_Some _ _ _ Hl) as Hi.
  rewrite (track_entry_hit_eq _ _ _ _ Hb).
  destruct (FindTower cfg _ _) as [[etaBin phiBin]|] eqn:Hft; [|reflexivity].
  destruct (FindTower_range _ _ _ _ _ Hwf Hft) as [Hre Hrp].
  cbn [mbind option_bind]. unfold hit_energy.
  rewrite is_track_hit_towerHit by lia.
  rewrite bool_decide_eq_true_2 by (intros Hc; discriminate Hc). reflexivity.
Qed.

Lemma particle_hit_energy (cfg : Config) (tabs : HitTables) (particles : list Candidate)
    (pe : list Entry) (i : nat) (c : Candidate) (e : Entry) :
  wf_bins cfg -> (Z.of_nat (length particles) <= 2 ^ 24)%Z ->
  fTowerECalFractions tabs = map entry_ecal pe ->
  fTowerHCalFractions tabs = map entry_hcal pe ->
  particles !! i = Some c -> pe !! i = Some e ->
  particle_entry cfg (Z.of_nat i) c = Some e ->
  match entry_hit e with Some h => hit_energy tabs particles h | None => 0 end
  = deposit cfg c.
Proof.
  intros Hwf Hsize Hef Hhf Hc He Hb.
  pose proof (lookup_lt_Some _ _ _ Hc) as Hi.
  apply particle_entry_fractions in Hb as [Hff Hhit].
  unfold deposit. rewrite Hff, Hhit.
  destruct (decide (entry_ecal e < 1e-9 /\ entry_hcal e < 1e-9)); [reflexivity|].
  destruct (FindTower cfg (Eta (Position c)) (Phi (Position c)))
    as [[etaBin phiBin]|] eqn:Hft.
  - destruct (FindTower_range _ _ _ _ _ Hwf Hft) as [Hre Hrp].
    cbn [mbind option_bind].
    rewrite (decide_True (P := reaches_tower cfg c))
      by (unfold reaches_tower; rewrite Hft; eauto).
    set (flags := if decide (Z.abs (PID (gen c)) = 11%Z \/ Z.abs (PID (gen c)) = 22%Z)
                  then 2%Z else 0%Z).
    assert (Hfl : flags = 0%Z \/ flags = 2%Z) by (unfold flags; destruct (decide _); auto).
    unfold hit_energy.
    rewrite is_track_hit_towerHit, hit_number_towerHit by lia.
    rewrite bool_decide_eq_false_2
      by (destruct Hfl as [-> | ->]; intros Hx; apply Hx; reflexivity).
    rewrite !vec_at_of_nat, Hc, Hef, Hhf, !list_lookup_fmap, He. reflexivity.
  - cbn [mbind option_bind].
    rewrite (decide_False (P := reaches_tower cfg c)); [reflexivity|].
    unfold reaches_tower. rewrite Hft. intros [x Hx]. discriminate.
Qed.

(** X10.  Without resolution smearing (both formulas "0", the default),
    with non-negative fractions and particle energies, the calorimeter
    neither makes nor loses energy: the energies [Eem + Ehad] of the
    exported towers add up to what the particles deposit, that is, for
    every particle that reaches a tower and has a fraction of at least
    1.0E-9, its energy times each of its two fractions.  Tracks add
    nothing to the towers. *)
Theorem towers_hold_the_deposited_energy (cfg : Config)
    (tracks particles : list Candidate) (g : TRandom) :
  wf_bins cfg ->
  (Z.of_nat (length tracks) <= 2 ^ 24)%Z ->
  (Z.of_nat (length particles) <= 2 ^ 24)%Z ->
  is_Some (fFractionMap cfg !! 0%Z) ->
  (forall (code : Z) (ef hf : R),
      fFractionMap cfg !! code = Some (ef, hf) -> 0 <= ef /\ 0 <= hf) ->
  (forall eta energy : R, fECalResolutionFormula cfg eta energy = 0) ->
  (forall eta energy : R, fHCalResolutionFormula cfg eta energy = 0) ->
  Forall (fun particle => 0 <= E (Momentum particle)) particles ->
  exists (out : Output) (g' : TRandom),
    Process cfg tracks particles g = Some (out, g')
    /\ sum_energies (map tower_energy (fTowerOutputArray out))
       = sum_energies (map (deposit cfg) particles).
Proof.
  intros Hwf Hnt Hnp H0 Hmap Hecal Hhcal HE.
  destruct (Process_total_aux cfg tracks particles g Hwf H0 Hnt Hnp)
    as (tabs & s & Hfill & Hscan & Hproc).
  destruct (FinalizeTower cfg (tower s) (output s) (gRandom s)) as [out g'] eqn:HF.
  exists out, g'. split; [assumption|].
  pose proof (hits_are_good _ _ _ _ Hwf Hnt Hnp Hfill) as Hgood.
  rewrite <- (sort_perm (fTowerHits tabs)) in Hgood.
  destruct (tables_nonneg _ _ _ _ Hmap Hfill) as [Hef Hhf].
  destruct (scan_hits_energy cfg tabs tracks particles _ Hecal Hhcal HE Hef Hhf Hgood
              (mkScan 0 Tower0 Output0 g) s) as (Hen & He & Hh & Hnone);
    [simpl; intros Hc; contradiction Hc; reflexivity | simpl; lra | simpl; lra
    | intros _; simpl; auto | exact Hscan |].
  replace out with (FinalizeTower cfg (tower s) (output s) (gRandom s)).1
    by (rewrite HF; reflexivity).
  rewrite FinalizeTower_energy by assumption.
  change (sum_energies (map tower_energy (fTowerOutputArray (output s)))
          + (fTowerECalEnergy (tower s) + fTowerHCalEnergy (tower s)))
    with (scan_energy s).
  rewrite Hen.
  rewrite (sum_energies_perm
             (map (hit_energy tabs particles) (sort (fTowerHits tabs)))
             (map (hit_energy tabs particles) (fTowerHits tabs)))
    by (apply (fmap_Permutation (hit_energy tabs particles)), sort_perm).
  destruct (fill_tables_inv _ _ _ _ Hfill)
    as (te & pe & Hte & Hpe & Hhits & _ & _ & Hpe1 & Hpe2 & _).
  rewrite Hhits, map_app, sum_energies_app, !sum_energies_omap.
  rewrite (sum_energies_zero _ te)
    by (intros e Hin; exact (track_hit_energy cfg tabs tracks particles te e Hwf Hnt Hte Hin)).
  destruct (input_loop_lookup _ _ _ _ Hpe) as [Hlen Hlook].
  rewrite (sum_energies_pointwise _ (deposit cfg) pe particles Hlen).
  - unfold scan_energy, sum_energies. simpl. lra.
  - intros i e c He' Hc. destruct (Hlook i c Hc) as (e' & He'' & Hb).
    rewrite He' in He''. injection He'' as <-.
    replace (-1 + 1 + Z.of_nat i)%Z with (Z.of_nat i) in Hb by lia.
    exact (particle_hit_energy cfg tabs particles pe i c e Hwf Hnp Hpe1 Hpe2 Hc He' Hb).
Qed.

Lemma three_by_three_fractions (code : Z) (ef hf : R) :
  fFractionMap three_by_three !! code = Some (ef, hf) -> 0 <= ef /\ 0 <= hf.
Proof.
  simpl. intros Hl.
  apply lookup_insert_Some in Hl as [[_ Hl]|[_ Hl]]; [injection Hl as <- <-; lra|].
  apply lookup_insert_Some in Hl as [[_ Hl]|[_ Hl]]; [injection Hl as <- <-; lra|].
  apply lookup_singleton_Some in Hl as [_ Hl]. injection Hl as <- <-. lra.
Qed.

Lemma pion_neutron_towers_hold_the_energy :
  exists (out : Output) (g' : TRandom),
    Process three_by_three [charged_pion] [neutron] zero_draws = Some (out, g')
    /\ sum_energies (map tower_energy (fTowerOutputArray out))
       = sum_energies (map (deposit three_by_three) [neutron]).
Proof.
  apply (towers_hold_the_deposited_energy three_by_three [charged_pion] [neutron]).
  - exact three_by_three_wf.
  - simpl. lia.
  - simpl. lia.
  - rewrite three_by_three_default. eauto.
  - exact three_by_three_fractions.
  - reflexivity.
  - reflexivity.
  - repeat constructor. simpl. lra.
Defined.

End CalorimeterScan.

(** ** Calorimeter: smearing, time and energy flow of a tower *)

Module CalorimeterFinalize.
Import Root Classes Calorimeter Examples CalorimeterTowers CalorimeterScan.
Local Open Scope R_scope.

(** X11.  With a resolution of zero (the formula "0", the default) the
    smearing returns the mean itself, for every positive mean and
    whatever the generator gives; the draw is made all the same. *)
Theorem LogNormal_without_resolution (mean : R) (g : TRandom) :
  mean > 0 ->
  LogNormal mean 0 g = (mean, mkRandom (draws g) (S (drawn g))).
Proof.
  intros Hpos. unfold LogNormal. rewrite decide_True by assumption.
  unfold Gaus01, next_draw.
  replace (1 + 0 * 0 / (mean * mean)) with 1 by (field; lra).
  rewrite ln_1, sqrt_0.
  replace (ln mean - 0.5 * 0 * 0 + 0 * draws g (drawn g)) with (ln mean) by ring.
  rewrite exp_ln by lra. reflexivity.
Qed.

Lemma LogNormal_100_without_resolution :
  LogNormal 100 0 zero_draws = (100, mkRandom (draws zero_draws) (S (drawn zero_draws))).
Proof. apply (LogNormal_without_resolution 100 zero_draws). lra. Defined.

Lemma foldl_sum_shift {A : Type} (w : A -> R) (l : list A) :
  forall acc : R,
    foldl (fun acc p => acc + w p) acc l = acc + foldl (fun acc p => acc + w p) 0 l.
Proof.
  induction l as [|p l IH]; intros acc; simpl; [lra|].
  rewrite (IH (acc + w p)), (IH (0 + w p)). lra.
Qed.

Lemma weighted_sums (l : list (R * R)) (lo hi : R) :
  Forall (fun p => 0 < p.1 /\ lo <= p.2 <= hi) l ->
  let sumT := foldl (fun acc p => acc + sqrt p.1 * p.2) 0 l in
  let sumW := foldl (fun acc p => acc + sqrt p.1) 0 l in
  0 <= sumW /\ (l <> [] -> 0 < sumW) /\ lo * sumW <= sumT <= hi * sumW.
Proof.
  induction 1 as [|[energy time] l [He Ht] Hl IH]; simpl.
  - split; [lra|]. split; [congruence|lra].
  - simpl in He, Ht.
    rewrite (foldl_sum_shift (fun p => sqrt p.1 * p.2)), (foldl_sum_shift (fun p => sqrt p.1)).
    simpl in IH. destruct IH as (Hw & _ & Hlo & Hhi).
    pose proof (sqrt_lt_R0 energy He) as Hs.
    assert (lo * sqrt energy <= sqrt energy * time) by nra.
    assert (sqrt energy * time <= hi * sqrt energy) by nra.
    split; [lra|]. split; [intros _; lra|]. split; nra.
Qed.

Lemma foldl_sum (A : Type) (w : A -> R) (l : list A) :
  foldl (fun acc p => acc + w p) 0 l = fold_right Rplus 0 (map w l).
Proof.
  induction l as [|p l IH]; [reflexivity|].
  cbn [foldl map fold_right]. rewrite foldl_sum_shift, IH. lra.
Qed.

(** X12.  The time given to a tower whose entries all have positive
    energy is the mean of the entries' times weighted by the square roots
    of their energies, (sum of sqrt(E_i) * t_i) / (sum of sqrt(E_i)), and
    so lies between the earliest and the latest of them; a tower without
    entry gets 999999. *)
Theorem tower_time_is_a_weighted_mean (ecal_E_t : list (R * R)) (lo hi : R) :
  Forall (fun p => 0 < p.1 /\ lo <= p.2 <= hi) ecal_E_t ->
  let weights := map (fun p => sqrt p.1) ecal_E_t in
  let weighted_times := map (fun p => sqrt p.1 * p.2) ecal_E_t in
  (ecal_E_t <> [] ->
   0 < fold_right Rplus 0 weights
   /\ tower_time ecal_E_t
      = fold_right Rplus 0 weighted_times / fold_right Rplus 0 weights
   /\ lo <= tower_time ecal_E_t <= hi)
  /\ (ecal_E_t = [] -> tower_time ecal_E_t = 999999).
Proof.
  intros Hall. cbv zeta. split.
  - intros Hne. destruct (weighted_sums _ _ _ Hall) as (_ & Hpos & Hlo & Hhi).
    specialize (Hpos Hne). unfold tower_time.
    rewrite (foldl_sum _ (fun p => sqrt p.1 * p.2)) in *.
    rewrite (foldl_sum _ (fun p => sqrt p.1)) in *.
    set (sumT := fold_right Rplus 0 (map (fun p => sqrt p.1 * p.2) ecal_E_t)) in *.
    set (sumW := fold_right Rplus 0 (map (fun p => sqrt p.1) ecal_E_t)) in *.
    rewrite decide_True by lra.
    assert (Hinv : 0 < / sumW) by (apply Rinv_0_lt_compat; assumption).
    split; [exact Hpos|]. split; [reflexivity|]. split.
    + replace lo with (lo * sumW / sumW) by (field; lra).
      unfold Rdiv. apply Rmult_le_compat_r; lra.
    + replace hi with (hi * sumW / sumW) by (field; lra).
      unfold Rdiv. apply Rmult_le_compat_r; lra.
  - intros ->. unfold tower_time. simpl. rewrite decide_False by lra. reflexivity.
Qed.

Lemma tower_time_of_two_entries :
  tower_time [(4, 1); (9, 2)]
  = (sqrt 4 * 1 + (sqrt 9 * 2 + 0)) / (sqrt 4 + (sqrt 9 + 0))
  /\ 1 <= tower_time [(4, 1); (9, 2)] <= 2.
Proof.
  destruct (tower_time_is_a_weighted_mean [(4, 1); (9, 2)] 1 2) as [Hmean _].
  - repeat constructor; simpl; lra.
  - destruct (Hmean ltac:(discriminate)) as (_ & Hvalue & Hbounds).
    split; [exact Hvalue | exact Hbounds].
Defined.

Lemma eflow_tower_cases (t : Tower) (ec hc : R) (tower : Candidate) :
  (ec <= fTrackECalEnergy t /\ hc <= fTrackHCalEnergy t
   /\ eflow_tower t ec hc tower = [])
  \/ ((ec > fTrackECalEnergy t \/ hc > fTrackHCalEnergy t)
      /\ exists eflowTower : Candidate,
          eflow_tower t ec hc tower = [eflowTower]
          /\ Eem (calo eflowTower) = Rmax 0 (ec - fTrackECalEnergy t)
          /\ Ehad (calo eflowTower) = Rmax 0 (hc - fTrackHCalEnergy t)
          /\ E (Momentum eflowTower) = Eem (calo eflowTower) + Ehad (calo eflowTower)
          /\ Eta (Momentum eflowTower) = fTowerEta t
          /\ Phi (Momentum eflowTower) = fTowerPhi t).
Proof.
  unfold eflow_tower.
  destruct (decide (ec - fTrackECalEnergy t < 0)) as [He|He];
    destruct (decide (hc - fTrackHCalEnergy t < 0)) as [Hh|Hh];
    match goal with |- context [decide (?x > 0)] => destruct (decide (x > 0)) end;
    try (left; split; [lra | split; [lra | reflexivity]]);
    try (exfalso; lra);
    (right; split;
       [destruct (Rle_lt_dec ec (fTrackECalEnergy t)); [right; lra | left; lra]|]);
    (eexists; split; [reflexivity|]); simpl;
    first [rewrite (Rmax_left 0 (ec - fTrackECalEnergy t)) by lra
          |rewrite (Rmax_right 0 (ec - fTrackECalEnergy t)) by lra];
    first [rewrite (Rmax_left 0 (hc - fTrackHCalEnergy t)) by lra
          |rewrite (Rmax_right 0 (hc - fTrackHCalEnergy t)) by lra];
    repeat split; reflexivity.
Qed.

(** X13.  The energy-flow tower of a tower carries, for the ECAL and for
    the HCAL, the smeared energy in excess of that of the tower's tracks,
    never less than zero; it is exported only when one of the two excesses
    is positive, and then the tower itself is exported as well (the
    tracks' energies being non-negative). *)
Theorem eflow_tower_is_the_excess_over_tracks (cfg : Config) (t : Tower) (out : Output)
    (g : TRandom) (tower0 : Candidate) :
  fTower t = Some tower0 ->
  0 <= fTrackECalEnergy t -> 0 <= fTrackHCalEnergy t ->
  let ecalEnergy := (smear cfg t g).1.1 in
  let hcalEnergy := (smear cfg t g).1.2 in
  let out' := (FinalizeTower cfg t out g).1 in
  (ecalEnergy <= fTrackECalEnergy t /\ hcalEnergy <= fTrackHCalEnergy t
   /\ fEFlowTowerOutputArray out' = fEFlowTowerOutputArray out)
  \/ ((ecalEnergy > fTrackECalEnergy t \/ hcalEnergy > fTrackHCalEnergy t)
      /\ exists eflowTower : Candidate,
          fEFlowTowerOutputArray out' = fEFlowTowerOutputArray out ++ [eflowTower]
          /\ Eem (calo eflowTower) = Rmax 0 (ecalEnergy - fTrackECalEnergy t)
          /\ Ehad (calo eflowTower) = Rmax 0 (hcalEnergy - fTrackHCalEnergy t)
          /\ E (Momentum eflowTower) = Eem (calo eflowTower) + Ehad (calo eflowTower)
          /\ Eta (Momentum eflowTower) = fTowerEta t
          /\ Phi (Momentum eflowTower) = fTowerPhi t
          /\ fTowerOutputArray out'
             = fTowerOutputArray out ++ [finalized t ecalEnergy hcalEnergy tower0]).
Proof.
  intros Htower Hte Hth ecalEnergy hcalEnergy out'.
  pose proof (smear_nonneg cfg t g) as [Hec Hhc].
  fold ecalEnergy in Hec. fold hcalEnergy in Hhc.
  unfold out', FinalizeTower. rewrite Htower.
  unfold ecalEnergy, hcalEnergy in *.
  destruct (smear cfg t g) as [[ec hc] g']. cbn [fst snd] in *.
  destruct (eflow_tower_cases t ec hc (finalized t ec hc tower0))
    as [(He & Hh & ->)|(Hex & e & -> & Hrest)].
  - left. rewrite app_nil_r. auto.
  - right. split; [assumption|]. exists e. split; [reflexivity|].
    rewrite (decide_True (P := ec + hc > 0)) by lra. tauto.
Qed.

Lemma photon_tower_eflow :
  (smear three_by_three photon_tower zero_draws).1.1 > fTrackECalEnergy photon_tower
  /\ exists eflowTower : Candidate,
       fEFlowTowerOutputArray (FinalizeTower three_by_three photon_tower Output0 zero_draws).1
       = [eflowTower]
       /\ E (Momentum eflowTower) = Eem (calo eflowTower) + Ehad (calo eflowTower).
Proof.
  assert (Hsmear : (smear three_by_three photon_tower zero_draws).1.1 = 100).
  { unfold smear. simpl.
    pose proof (LogNormal_sigma_0 100 zero_draws ltac:(lra)) as H100.
    destruct (LogNormal 100 0 zero_draws) as [ecalEnergy g1].
    destruct (LogNormal 0 0 g1) as [hcalEnergy g2]. exact H100. }
  destruct (eflow_tower_is_the_excess_over_tracks three_by_three photon_tower Output0
              zero_draws NewCandidate eq_refl)
    as [(He & _)|(_ & e & He & _ & _ & HE & _)].
  - simpl. lra.
  - simpl. lra.
  - rewrite Hsmear in He. simpl in He. lra.
  - split; [rewrite Hsmear; simpl; lra|]. exists e. split; assumption.
Defined.

End CalorimeterFinalize.

(** ** FastJetFinder: the input list and the exported jets *)

Module FastJetFinderExport.
Import Root Classes FastJetFinder Examples RootFacts FastJetFinderFacts.
Local Open Scope R_scope.

Section WithFastJet.
Context {PseudoJet : Type} `{FastJet PseudoJet}.

Lemma input_list_from (cfg : Config) (cands : list Candidate) :
  forall number : Z,
    input_list cfg number cands
    = imap (fun i candidate => mkPseudoJet (Momentum candidate) (number + Z.of_nat i)%Z)
        (filter (fun candidate => ~ (fKeepPileUp cfg = 0%Z /\ (IsPU candidate > 0)%Z))
           cands).
Proof.
  induction cands as [|candidate rest IH]; intros number; [reflexivity|].
  simpl. rewrite filter_cons.
  destruct (decide (fKeepPileUp cfg = 0%Z /\ (IsPU candidate > 0)%Z)) as [Hpu|Hkeep].
  - rewrite decide_False by tauto. apply IH.
  - rewrite decide_True by assumption. simpl. rewrite Z.add_0_r. f_equal.
    rewrite IH. apply imap_ext. intros i c _. simpl. f_equal. lia.
Qed.

(** X14.  The user index given to an input object is its position among
    the candidates that are kept, counted from 0: with [KeepPileUp] at 0
    the pile-up candidates are skipped and take no number, otherwise the
    index is the position in the input array. *)
Theorem input_list_numbers_the_kept_candidates (cfg : Config) (cands : list Candidate) :
  input_list cfg 0 cands
  = imap (fun i candidate => mkPseudoJet (Momentum candidate) (Z.of_nat i))
      (filter (fun candidate => ~ (fKeepPileUp cfg = 0%Z /\ (IsPU candidate > 0)%Z))
         cands)
  /\ (fKeepPileUp cfg <> 0%Z ->
      input_list cfg 0 cands
      = imap (fun i candidate => mkPseudoJet (Momentum candidate) (Z.of_nat i)) cands).
Proof.
  assert (Hgen : input_list cfg 0 cands
                 = imap (fun i candidate => mkPseudoJet (Momentum candidate) (Z.of_nat i))
                     (filter (fun candidate =>
                                ~ (fKeepPileUp cfg = 0%Z /\ (IsPU candidate > 0)%Z)) cands)).
  { rewrite input_list_from. apply imap_ext. intros i c _. reflexivity. }
  split; [exact Hgen|]. intros Hkeep. rewrite Hgen. f_equal.
  clear Hgen. induction cands as [|c cands IH]; [reflexivity|].
  rewrite filter_cons, decide_True by tauto. f_equal. exact IH.
Qed.

Lemma fold_Rmax_ge_init (a : R) (l : list R) : a <= fold_right Rmax a l.
Proof.
  induction l as [|x l IH]; simpl; [lra|].
  eapply Rle_trans; [exact IH|]. apply Rmax_r.
Qed.

Lemma fold_Rmax_ge_elem (a : R) (l : list R) (x : R) :
  x ∈ l -> x <= fold_right Rmax a l.
Proof.
  induction l as [|y l IH]; intros Hin; [inversion Hin|].
  apply elem_of_cons in Hin as [->|Hin]; simpl.
  - apply Rmax_l.
  - eapply Rle_trans; [apply IH; assumption|]. apply Rmax_r.
Qed.

(** X15.  [detaMax] and [dphiMax] are set to zero before the loop over
    the jets and never again, so along the exported jets DeltaEta and
    DeltaPhi never decrease: each jet gets the largest distance of a
    constituent from its jet's axis over all the jets exported so far,
    itself included. *)
Theorem exported_DeltaEta_never_decreases (cfg : Config) (fInputArray : list Candidate)
    (inputList outputList : list PseudoJet) :
  forall (detaMax dphiMax : R) (out : list Candidate) (calls : list Call),
    export_loop cfg fInputArray inputList (detaMax, dphiMax) outputList
    = Some (out, calls) ->
    forall (i j : nat) (first later : Candidate),
      (i <= j)%nat -> out !! i = Some first -> out !! j = Some later ->
      detaMax <= DeltaEta first /\ DeltaEta first <= DeltaEta later
      /\ dphiMax <= DeltaPhi first /\ DeltaPhi first <= DeltaPhi later.
Proof.
  induction outputList as [|jet rest IH];
    intros detaMax dphiMax out calls Hloop i j first later Hij Hi Hj;
    cbn [export_loop] in Hloop.
  - injection Hloop as <- <-. rewrite lookup_nil in Hi. discriminate.
  - destruct (export_jet cfg fInputArray inputList (detaMax, dphiMax) jet)
      as [[[[d1 p1] candidate] calls1]|] eqn:Hexp; [|simpl in Hloop; discriminate].
    simpl in Hloop.
    destruct (export_loop cfg fInputArray inputList (d1, p1) rest)
      as [[out' calls']|] eqn:Hrest; [|simpl in Hloop; discriminate].
    simpl in Hloop. injection Hloop as <- <-.
    apply export_jet_running_max in Hexp as (cs & _ & Hd & Hp & -> & ->).
    pose proof (fold_Rmax_ge_init detaMax
                  (map (fun k => Rabs (Eta (pj_momentum jet) - Eta (Momentum k))) cs)) as Hd0.
    pose proof (fold_Rmax_ge_init dphiMax
                  (map (fun k => Rabs (Root.DeltaPhi (pj_momentum jet) (Momentum k))) cs))
      as Hp0.
    rewrite <- Hd in Hd0. rewrite <- Hp in Hp0.
    destruct i as [|i]; destruct j as [|j]; simpl in Hi, Hj; try lia.
    + injection Hi as <-. injection Hj as <-. lra.
    + injection Hi as <-.
      destruct (IH _ _ _ _ Hrest j j later later ltac:(lia) Hj Hj) as (H1 & _ & H2 & _).
      lra.
    + destruct (IH _ _ _ _ Hrest i j first later ltac:(lia) Hi Hj) as (H1 & H2 & H3 & H4).
      lra.
Qed.

Lemma constituent_loop_some (fInputArray : list Candidate) (momentum : TLorentzVector)
    (l : list PseudoJet) :
  Forall (fun pj => is_Some (vec_at fInputArray (user_index pj))) l ->
  forall (d p : R) (c : Candidate),
    exists (d' p' : R) (c' : Candidate),
      constituent_loop fInputArray momentum (d, p, c) l = Some (d', p', c')
      /\ fArray c' = fArray c ++ map (fun pj => Z.to_nat (user_index pj)) l.
Proof.
  induction 1 as [|pj l [k Hk] Hl IH]; intros d p c; simpl.
  - exists d, p, c. rewrite app_nil_r. auto.
  - rewrite Hk. simpl.
    match goal with
    | |- context [constituent_loop _ _ (?d1, ?p1, ?c1) l] =>
        destruct (IH d1 p1 c1) as (d' & p' & c' & -> & Harr)
    end.
    exists d', p', c'. split; [reflexivity|].
    rewrite Harr. simpl. rewrite <- app_assoc. reflexivity.
Qed.

Lemma export_jet_some (cfg : Config) (fInputArray : list Candidate)
    (inputList : list PseudoJet) (d p : R) (jet : PseudoJet) :
  Forall (fun pj => is_Some (vec_at fInputArray (user_index pj)))
    (constituents inputList jet) ->
  exists (d' p' : R) (candidate : Candidate) (calls : list Call),
    export_jet cfg fInputArray inputList (d, p) jet = Some (d', p', candidate, calls)
    /\ Momentum candidate = pj_momentum jet
    /\ Area candidate
       = (if fAreaDefinition cfg then area_4vector jet else TLorentzVector0)
    /\ fArray candidate
       = map (fun pj => Z.to_nat (user_index pj)) (constituents inputList jet).
Proof.
  intros Hall. unfold export_jet.
  destruct (constituent_loop_some fInputArray (pj_momentum jet) _ Hall d p NewCandidate)
    as (d' & p' & c' & -> & Harr).
  simpl. unfold substructure.
  destruct (decide (perp jet > 200)); do 4 eexists; (split; [reflexivity|]);
    simpl; rewrite Harr; auto.
Qed.

Lemma export_loop_some (cfg : Config) (fInputArray : list Candidate)
    (inputList outputList : list PseudoJet) :
  Forall (fun jet =>
            Forall (fun pj => is_Some (vec_at fInputArray (user_index pj)))
              (constituents inputList jet)) outputList ->
  forall d p : R,
    exists (out : list Candidate) (calls : list Call),
      export_loop cfg fInputArray inputList (d, p) outputList = Some (out, calls)
      /\ map Momentum out = map pj_momentum outputList
      /\ map Area out
         = map (fun jet => if fAreaDefinition cfg then area_4vector jet
                           else TLorentzVector0) outputList
      /\ map fArray out
         = map (fun jet => map (fun pj => Z.to_nat (user_index pj))
                             (constituents inputList jet)) outputList.
Proof.
  induction 1 as [|jet rest Hjet Hrest IH]; intros d p; cbn [export_loop].
  - exists [], []. auto.
  - destruct (export_jet_some cfg fInputArray inputList d p jet Hjet)
      as (d' & p' & candidate & calls & -> & Hm & Ha & Hf).
    cbn [mbind option_bind]. cbv beta iota.
    destruct (IH d' p') as (out & calls' & -> & Hms & Has & Hfs).
    simpl. do 2 eexists. split; [reflexivity|]. simpl.
    rewrite Hm, Ha, Hf, Hms, Has, Hfs. auto.
Qed.

(** X16.  When every constituent FastJet returns carries the user index
    of an object of the input array, [Process] exports one candidate per
    jet, in FastJet's order: its momentum is the jet's, its area is the
    jet's four-vector area (zero without an area definition) and its
    constituents are the objects the user indices name, in the order
    FastJet lists them. *)
Theorem Process_exports_every_jet (cfg : Config) (fInputArray : list Candidate) :
  let inputList := input_list cfg 0 fInputArray in
  let outputList := inclusive_jets inputList (fJetPTMin cfg) in
  Forall (fun jet =>
            Forall (fun pj => is_Some (vec_at fInputArray (user_index pj)))
              (constituents inputList jet)) outputList ->
  exists (out : list Candidate) (calls : list Call),
    Process cfg fInputArray = Some (out, calls)
    /\ map Momentum out = map pj_momentum outputList
    /\ map Area out
       = map (fun jet => if fAreaDefinition cfg then area_4vector jet
                         else TLorentzVector0) outputList
    /\ map fArray out
       = map (fun jet => map (fun pj => Z.to_nat (user_index pj))
                           (constituents inputList jet)) outputList.
Proof.
  intros inputList outputList Hall. unfold Process.
  apply export_loop_some. exact Hall.
Qed.

End WithFastJet.

Lemma Process_three_towers :
  exists (jetA jetB : Candidate) (calls : list Call),
    Process jet_config three_towers = Some ([jetA; jetB], calls).
Proof.
  unfold Process, input_list, three_towers, jet_config. eval_decide.
  unfold inclusive_jets. simpl. unfold toy_cluster. simpl.
  rewrite !filter_cons. eval_decide.
  unfold export_jet. simpl. unfold constituent_step, vec_at. eval_decide.
  unfold Root.DeltaPhi. simpl. rewrite !Phi_mpi_pi_0.
  eval_decide. unfold substructure. eval_decide.
  do 3 eexists. reflexivity.
Qed.

Lemma three_towers_DeltaEta_never_decreases :
  exists (jetA jetB : Candidate) (calls : list Call),
    Process jet_config three_towers = Some ([jetA; jetB], calls)
    /\ 0 <= DeltaEta jetA /\ DeltaEta jetA <= DeltaEta jetB
    /\ 0 <= DeltaPhi jetA /\ DeltaPhi jetA <= DeltaPhi jetB.
Proof.
  destruct Process_three_towers as (jetA & jetB & calls & Hprocess).
  exists jetA, jetB, calls. split; [exact Hprocess|].
  unfold Process in Hprocess.
  apply (exported_DeltaEta_never_decreases _ _ _ _ _ _ _ _ Hprocess 0 1 jetA jetB).
  - lia.
  - reflexivity.
  - reflexivity.
Defined.

Lemma three_towers_constituents :
  Forall (fun jet =>
            Forall (fun pj => is_Some (vec_at three_towers (user_index pj)))
              (constituents (input_list jet_config 0 three_towers) jet))
    (inclusive_jets (input_list jet_config 0 three_towers) (fJetPTMin jet_config)).
Proof.
  unfold input_list, three_towers, jet_config. eval_decide.
  unfold inclusive_jets. simpl. unfold toy_cluster. simpl.
  rewrite !filter_cons. eval_decide.
  repeat constructor; simpl; unfold vec_at; simpl; eauto.
Qed.

Lemma Process_exports_the_two_jets :
  exists (out : list Candidate) (calls : list Call),
    Process jet_config three_towers = Some (out, calls)
    /\ map Momentum out
       = map pj_momentum
           (inclusive_jets (input_list jet_config 0 three_towers) (fJetPTMin jet_config))
    /\ map Area out
       = map (fun jet => if fAreaDefinition jet_config then area_4vector jet
                         else TLorentzVector0)
           (inclusive_jets (input_list jet_config 0 three_towers) (fJetPTMin jet_config))
    /\ map fArray out
       = map (fun jet => map (fun pj => Z.to_nat (user_index pj))
                           (constituents (input_list jet_config 0 three_towers) jet))
           (inclusive_jets (input_list jet_config 0 three_towers) (fJetPTMin jet_config)).
Proof.
  apply (Process_exports_every_jet jet_config three_towers).
  exact three_towers_constituents.
Defined.

End FastJetFinderExport.

(** ** BTagging: selection, flavours and draws *)

Module BTaggingSelectionFacts.
Import Root Classes BTagging BTaggingSelection Examples FlavourExamples RootFacts.
Import BTaggingFlavour BTaggingTags.
Local Open Scope R_scope.

(** X17.  Both classifiers answer 0 (kept) or -1 only.  A parton is kept
    when its pT is above [PartonPTMin], its |eta| at most [PartonEtaMax],
    its status is not -1 and its |PID| is 21 or at most 5 (0 included);
    the LHE classifier keeps what the parton classifier keeps provided the
    status is 1. *)
Theorem classifiers_keep (cfg : Config) (parton : Candidate) :
  (GetCategory cfg parton = 0%Z \/ GetCategory cfg parton = (-1)%Z)
  /\ (GetCategoryLHE cfg parton = 0%Z \/ GetCategoryLHE cfg parton = (-1)%Z)
  /\ (GetCategory cfg parton = 0%Z
      <-> Pt (Momentum parton) > fPTMin cfg
          /\ Rabs (Eta (Momentum parton)) <= fEtaMax cfg
          /\ Status (gen parton) <> (-1)%Z
          /\ (Z.abs (PID (gen parton)) = 21%Z \/ (Z.abs (PID (gen parton)) <= 5)%Z))
  /\ (GetCategoryLHE cfg parton = 0%Z
      <-> GetCategory cfg parton = 0%Z /\ Status (gen parton) = 1%Z).
Proof.
  unfold GetCategory, GetCategoryLHE.
  destruct (decide (Pt (Momentum parton) <= fPTMin cfg
                    \/ Rabs (Eta (Momentum parton)) > fEtaMax cfg)) as [Hout|Hin].
  - repeat split; auto; try discriminate; try (intros [H _]; discriminate H).
    intros (H1 & H2 & _). exfalso. destruct Hout; lra.
  - destruct (decide (Status (gen parton) = (-1)%Z)) as [Hs|Hs].
    + repeat split; auto; try discriminate; try (intros [H _]; discriminate H).
      intros (_ & _ & H & _). contradiction.
    + destruct (decide (Z.abs (PID (gen parton)) <> 21%Z
                        /\ (Z.abs (PID (gen parton)) > 5)%Z)) as [Hp|Hp].
      * repeat split; auto; try discriminate; try (intros [H _]; discriminate H).
        intros (_ & _ & _ & H). exfalso. destruct Hp as [Hp1 Hp2]. destruct H; lia.
      * assert (Hcode : Z.abs (PID (gen parton)) = 21%Z
                        \/ (Z.abs (PID (gen parton)) <= 5)%Z).
        { destruct (decide (Z.abs (PID (gen parton)) = 21%Z)); [tauto|].
          right. destruct (decide (Z.abs (PID (gen parton)) <= 5)%Z); [assumption|].
          exfalso. apply Hp. split; [assumption | lia]. }
        assert (Hkin : Pt (Momentum parton) > fPTMin cfg
                       /\ Rabs (Eta (Momentum parton)) <= fEtaMax cfg).
        { split.
          - destruct (Rle_lt_dec (Pt (Momentum parton)) (fPTMin cfg)); [|lra].
            exfalso. apply Hin. tauto.
          - destruct (Rle_lt_dec (Rabs (Eta (Momentum parton))) (fEtaMax cfg));
              [assumption|].
            exfalso. apply Hin. right. lra. }
        destruct (decide (Status (gen parton) = 3%Z \/ Status (gen parton) = 2%Z));
          destruct (decide (Status (gen parton) <> 1%Z)) as [Hn1|H1];
          repeat split; auto; try discriminate; try tauto;
          try (intros [_ H]; contradiction);
          try (destruct (decide (Status (gen parton) = 1%Z)); [assumption|contradiction]).
Qed.

Lemma GetSubArray_none (classifier : Candidate -> Z) (held : bool)
    (array : list Candidate) :
  Forall (fun c => classifier c <> 0%Z) array ->
  GetSubArray classifier 0 held array = if held then Some [] else None.
Proof.
  intros Hall. unfold GetSubArray.
  replace (filter (fun c => classifier c = 0%Z) array) with (@nil Candidate);
    [reflexivity|].
  symmetry. induction Hall as [|c array Hc Hall IH]; [reflexivity|].
  rewrite filter_cons, decide_False by assumption. exact IH.
Qed.

Lemma record_parton_idempotent (cfg : Config) (jet parton : Candidate) (st : AlgoState) :
  record_parton cfg jet parton (record_parton cfg jet parton st)
  = record_parton cfg jet parton st.
Proof.
  unfold record_parton.
  destruct (decide (DeltaR (Momentum jet) (Momentum parton) <= fDeltaR cfg)) as [Hin|Hout];
    [|reflexivity].
  destruct (decide (DeltaR (Momentum jet) (Momentum parton) < minDr st));
    destruct (decide (Z.abs (PID (gen parton)) = 4%Z));
    destruct (decide (Z.abs (PID (gen parton)) = 5%Z));
    destruct (decide (Pt (Momentum parton) > maxPt st));
    cbn [tempParticle tempPartonHighestPt tempNearest maxPt minDr];
    repeat match goal with
      | |- context [decide (?x < ?x)] => rewrite (decide_False (P := x < x)) by lra
      | |- context [decide (?x > ?x)] => rewrite (decide_False (P := x > x)) by lra
      | H : ?P |- context [decide ?P] => rewrite (decide_True (P := P)) by exact H
      | H : ~ ?P |- context [decide ?P] => rewrite (decide_False (P := P)) by exact H
      end;
    reflexivity.
Qed.

Lemma lhe_loop_fixed (cfg : Config) (fParticleInputArray : list Candidate)
    (jet parton : Candidate) (n : Z) (LHEpartons : list Candidate) :
  nparton_daughters fParticleInputArray parton = Some n ->
  forall st : AlgoState,
    ((n > 0)%Z \/ record_parton cfg jet parton st = st) ->
    lhe_loop cfg fParticleInputArray jet parton st LHEpartons = Some st.
Proof.
  intros Hn. induction LHEpartons as [|LHEParton rest IH]; intros st Hfix; simpl;
    [reflexivity|].
  destruct (decide (same_parton 0.001 parton LHEParton)); [reflexivity|].
  rewrite Hn. simpl.
  destruct (decide (n > 0)%Z) as [Hpos|Hzero].
  - apply IH. left. assumption.
  - destruct Hfix as [Hpos|Hfix]; [contradiction|]. rewrite Hfix. apply IH.
    right. assumption.
Qed.

(** X19.  In [GetAlgoFlavour] the test that drops a parton matching an
    LHE parton only works against the first LHE parton: the parton is
    recorded inside the loop over the LHE partons, as soon as one of them
    does not match, so a parton without parton daughters is left out only
    if it matches the first LHE parton of the array; a match with a later
    one comes after the parton has been recorded. *)
Theorem LHE_match_drops_a_parton_only_against_the_first_LHE_parton (cfg : Config)
    (fParticleInputArray : list Candidate) (jet parton : Candidate) (st : AlgoState)
    (first : Candidate) (rest : list Candidate) (n : Z) :
  nparton_daughters fParticleInputArray parton = Some n ->
  lhe_loop cfg fParticleInputArray jet parton st (first :: rest)
  = Some (if decide (same_parton 0.001 parton first) then st
          else if decide (n > 0)%Z then st
          else record_parton cfg jet parton st).
Proof.
  intros Hn. simpl.
  destruct (decide (same_parton 0.001 parton first)); [reflexivity|].
  rewrite Hn. simpl.
  destruct (decide (n > 0)%Z) as [Hpos|Hzero].
  - apply (lhe_loop_fixed cfg fParticleInputArray jet parton n rest Hn). left. assumption.
  - apply (lhe_loop_fixed cfg fParticleInputArray jet parton n rest Hn). right.
    apply record_parton_idempotent.
Qed.

Lemma b_quark_daughters : nparton_daughters all_particles b_quark = Some 0%Z.
Proof. unfold nparton_daughters. eval_decide. reflexivity. Qed.

Lemma b_quark_recorded_after_a_gluon :
  lhe_loop btag_config all_particles jet_100 b_quark
    (mkAlgoState NewCandidate NewCandidate NewCandidate 0 1000) [lhe_gluon; b_quark]
  = Some (if decide (same_parton 0.001 b_quark lhe_gluon)
          then mkAlgoState NewCandidate NewCandidate NewCandidate 0 1000
          else if decide (0 > 0)%Z
          then mkAlgoState NewCandidate NewCandidate NewCandidate 0 1000
          else record_parton btag_config jet_100 b_quark
                 (mkAlgoState NewCandidate NewCandidate NewCandidate 0 1000)).
Proof.
  apply (LHE_match_drops_a_parton_only_against_the_first_LHE_parton btag_config
           all_particles jet_100 b_quark
           (mkAlgoState NewCandidate NewCandidate NewCandidate 0 1000)
           lhe_gluon [b_quark] 0).
  exact b_quark_daughters.
Defined.

Lemma lhe_scan_no_match (parton : Candidate) (remaining : list Candidate) :
  Forall (fun LHEParton => ~ same_parton 0.01 parton LHEParton) remaining ->
  lhe_scan parton remaining = (true, []).
Proof.
  induction 1 as [|LHEParton rest Hno Hrest IH]; simpl; [reflexivity|].
  rewrite decide_False by assumption. exact IH.
Qed.

Lemma contamination_loop_exhausted (jet : Candidate) (partons : list Candidate) :
  contamination_loop jet [] partons = filter (contaminates jet) partons.
Proof.
  induction partons as [|parton rest IH]; [reflexivity|].
  simpl. rewrite filter_cons, IH. unfold contaminates.
  destruct (decide (D1 (gen parton) <> (-1)%Z \/ D2 (gen parton) <> (-1)%Z)) as [Hd|Hd].
  - destruct (decide ((Z.abs (PID (gen parton)) < 4)%Z \/ Z.abs (PID (gen parton)) = 21%Z))
      as [Hl|Hh].
    + rewrite decide_False by tauto. reflexivity.
    + destruct (decide (DeltaR (Momentum jet) (Momentum parton) < 0.7)) as [Hc|Hc].
      * rewrite decide_True by tauto. reflexivity.
      * rewrite decide_False by tauto. reflexivity.
  - rewrite decide_False by tauto. reflexivity.
Qed.

(** X20.  In [GetPhysicsFlavour] the iterator over the LHE partons is
    reset once, before the loop over the partons, and the inner loop
    resumes where it stopped: a parton that matches none of the LHE
    partons left uses them all up, so that parton and every parton after
    it are taken as contaminations on their daughters, flavour and
    distance alone, without being compared with any LHE parton. *)
Theorem LHE_partons_are_used_up_by_the_first_unmatched_parton (jet parton : Candidate)
    (rest remaining : list Candidate) :
  Forall (fun LHEParton => ~ same_parton 0.01 parton LHEParton) remaining ->
  contamination_loop jet remaining (parton :: rest)
  = filter (contaminates jet) (parton :: rest).
Proof.
  intros Hno. rewrite <- contamination_loop_exhausted.
  cbn [contamination_loop]. rewrite (lhe_scan_no_match _ _ Hno).
  cbn [lhe_scan]. reflexivity.
Qed.

Lemma decaying_b_after_unmatched_parton :
  contamination_loop jet_100 [lhe_gluon; lhe_up] [b_quark; decaying_b]
  = filter (contaminates jet_100) [b_quark; decaying_b].
Proof.
  apply (LHE_partons_are_used_up_by_the_first_unmatched_parton jet_100 b_quark
           [decaying_b] [lhe_gluon; lhe_up]).
  repeat constructor; unfold same_parton; simpl; intros (_ & Hpid & _); discriminate.
Defined.

Lemma lhe_step_nearest (cfg : Config) (jet : Candidate) (l : list Candidate) :
  forall st : PhysicsState,
    let st' := foldl (lhe_step cfg jet) st l in
    phys_minDr st' <= phys_minDr st
    /\ (forall q : Candidate, q ∈ l -> Status (gen q) = 1%Z ->
        phys_minDr st' <= DeltaR (Momentum jet) (Momentum q))
    /\ ((phys_tempNearest st' = phys_tempNearest st /\ phys_minDr st' = phys_minDr st)
        \/ (phys_tempNearest st' ∈ l /\ Status (gen (phys_tempNearest st')) = 1%Z
            /\ DeltaR (Momentum jet) (Momentum (phys_tempNearest st')) = phys_minDr st')).
Proof.
  induction l as [|p l IH]; intros st; simpl.
  - split; [lra|]. split; [intros q Hq; inversion Hq | left; auto].
  - destruct (IH (lhe_step cfg jet st p)) as (Hle & Hall & Hnear). simpl in Hle, Hall, Hnear.
    assert (Hstep : phys_minDr (lhe_step cfg jet st p) <= phys_minDr st
                    /\ (Status (gen p) = 1%Z ->
                        phys_minDr (lhe_step cfg jet st p)
                        <= DeltaR (Momentum jet) (Momentum p))
                    /\ ((phys_tempNearest (lhe_step cfg jet st p) = phys_tempNearest st
                         /\ phys_minDr (lhe_step cfg jet st p) = phys_minDr st)
                        \/ (phys_tempNearest (lhe_step cfg jet st p) = p
                            /\ Status (gen p) = 1%Z
                            /\ DeltaR (Momentum jet) (Momentum p)
                               = phys_minDr (lhe_step cfg jet st p)))).
    { unfold lhe_step.
      destruct (decide (Status (gen p) = 1%Z
                        /\ DeltaR (Momentum jet) (Momentum p) < phys_minDr st))
        as [[Hs Hlt]|Hno];
        destruct (decide (Status (gen p) = 1%Z
                          /\ DeltaR (Momentum jet) (Momentum p) <= fDeltaR cfg));
        simpl.
      - split; [lra|]. split; [intros _; lra|]. right. auto.
      - split; [lra|]. split; [intros _; lra|]. right. auto.
      - split; [lra|]. split; [|left; auto]. intros Hs.
        destruct (Rle_lt_dec (phys_minDr st) (DeltaR (Momentum jet) (Momentum p)));
          [assumption|]. exfalso. apply Hno. auto.
      - split; [lra|]. split; [|left; auto]. intros Hs.
        destruct (Rle_lt_dec (phys_minDr st) (DeltaR (Momentum jet) (Momentum p)));
          [assumption|]. exfalso. apply Hno. auto. }
    destruct Hstep as (Hle1 & Hp & Hnear1).
    split; [lra|]. split.
    + intros q Hq Hs. apply elem_of_cons in Hq as [->|Hq].
      * specialize (Hp Hs). lra.
      * apply Hall; assumption.
    + destruct Hnear as [[Hn Hm]|(Hin & Hs & Hd)].
      * rewrite Hn, Hm. destruct Hnear1 as [[Hn1 Hm1]|(Hn1 & Hs1 & Hd1)].
        -- left. split; congruence.
        -- right. rewrite Hn1. split; [apply elem_of_cons; left; reflexivity|]. auto.
      * right. split; [apply elem_of_cons; right; assumption|]. auto.
Qed.

(** X21.  [flavourNearest3] is the flavour of the LHE parton nearest to
    the jet: when some status-1 LHE parton lies at a distance below 1000,
    the parton whose |PID| is written is a status-1 LHE parton of the
    array and no status-1 LHE parton is nearer to the jet. *)
Theorem flavourNearest3_is_the_nearest_LHE_parton (cfg : Config)
    (fParticleInputArray : list Candidate) (jet jet' : Candidate)
    (partonArray LHEpartonArray : list Candidate) (some : Candidate) :
  GetPhysicsFlavour cfg fParticleInputArray jet partonArray LHEpartonArray = Some jet' ->
  some ∈ LHEpartonArray -> Status (gen some) = 1%Z ->
  DeltaR (Momentum jet) (Momentum some) < 1000 ->
  exists nearest : Candidate,
    nearest ∈ LHEpartonArray /\ Status (gen nearest) = 1%Z
    /\ Nearest3 (flavour jet') = Z.abs (PID (gen nearest))
    /\ forall other : Candidate,
         other ∈ LHEpartonArray -> Status (gen other) = 1%Z ->
         DeltaR (Momentum jet) (Momentum nearest) <= DeltaR (Momentum jet) (Momentum other).
Proof.
  unfold GetPhysicsFlavour. intros Hget Hin Hs Hd.
  destruct (if decide (nInTheCone _ <> 1%Z) then _ else _) as [flavourPhysics|];
    [|discriminate].
  simpl in Hget. injection Hget as <-. simpl.
  destruct (lhe_step_nearest cfg jet LHEpartonArray
              (mkPhysicsState NewCandidate NewCandidate 1000 0)) as (_ & Hall & Hnear).
  fold (physics_state cfg jet LHEpartonArray) in Hall, Hnear. simpl in Hall, Hnear.
  pose proof (Hall some Hin Hs) as Hsome.
  destruct Hnear as [[_ Hm]|(Hnin & Hns & Hnd)]; [lra|].
  exists (phys_tempNearest (physics_state cfg jet LHEpartonArray)).
  split; [assumption|]. split; [assumption|]. split; [reflexivity|].
  intros other Ho Hos. rewrite Hnd. apply Hall; assumption.
Qed.

Lemma gluon_is_the_nearest_LHE_parton :
  exists (jet' nearest : Candidate),
    GetPhysicsFlavour btag_config all_particles jet_100 [b_quark] [lhe_gluon] = Some jet'
    /\ nearest ∈ [lhe_gluon] /\ Status (gen nearest) = 1%Z
    /\ Nearest3 (flavour jet') = Z.abs (PID (gen nearest)).
Proof.
  assert (Hget : is_Some (GetPhysicsFlavour btag_config all_particles jet_100 [b_quark]
                            [lhe_gluon])).
  { unfold GetPhysicsFlavour, physics_state, lhe_step. simpl. unfold lhe_step.
    eval_DeltaR. eval_decide. eauto. }
  destruct Hget as [jet' Hget].
  destruct (flavourNearest3_is_the_nearest_LHE_parton btag_config all_particles jet_100
              jet' [b_quark] [lhe_gluon] lhe_gluon Hget)
    as (nearest & Hin & Hs & Hn & _).
  - apply elem_of_cons. left. reflexivity.
  - reflexivity.
  - rewrite DeltaR_same_phi by reflexivity. simpl. eval_Rabs. lra.
  - exists jet', nearest. auto.
Defined.

Lemma parton_loop_pdgCodeMax (cfg : Config) (fParticleInputArray : list Candidate)
    (jet : Candidate) (LHEpartons partons : list Candidate) :
  forall (pdgCode pdgCodeMax : Z) (st : AlgoState) (final : Z) (st' : AlgoState),
    parton_loop cfg fParticleInputArray jet LHEpartons pdgCode pdgCodeMax st partons
    = Some (final, st') ->
    (final = pdgCodeMax \/ final = pdgCode \/ final = 0%Z)
    /\ (Forall (fun parton => Z.abs (PID (gen parton)) <> 21%Z) partons ->
        final = pdgCodeMax \/ final = pdgCode).
Proof.
  induction partons as [|parton rest IH]; intros pdgCode pdgCodeMax st final st' Hloop;
    cbn [parton_loop] in Hloop.
  - injection Hloop as <- <-. auto.
  - destruct (lhe_loop cfg fParticleInputArray jet parton st LHEpartons) as [st1|];
      [|discriminate].
    cbn [mbind option_bind] in Hloop. apply IH in Hloop as [Hgen Hquarks].
    split.
    + destruct (decide (Z.abs (PID (gen parton)) = 21%Z));
        destruct (decide (DeltaR (Momentum jet) (Momentum parton) <= fDeltaR cfg));
        try destruct (decide (pdgCodeMax < 0)%Z);
        try destruct (decide (pdgCodeMax < pdgCode)%Z);
        intuition congruence.
    + intros Hall. apply Forall_cons in Hall as [Hq Hall]. specialize (Hquarks Hall).
      rewrite (decide_False (P := Z.abs (PID (gen parton)) = 21%Z)) in Hquarks
        by assumption.
      destruct (decide (DeltaR (Momentum jet) (Momentum parton) <= fDeltaR cfg));
        try destruct (decide (pdgCodeMax < pdgCode)%Z);
        intuition congruence.
Qed.

(** X22.  [flavourDefault] is made of the two locals [pdgCode] and
    [pdgCodeMax], which [GetAlgoFlavour] never initialises: the only value
    the function itself gives to [pdgCode] is 0, for a gluon, so the
    flavour written is that of whatever [pdgCodeMax] or [pdgCode] held on
    entry, or 21; no quark flavour ever enters, and without a gluon among
    the partons the result is made of the values on entry alone. *)
Theorem flavourDefault_is_made_of_uninitialised_locals (cfg : Config)
    (fParticleInputArray : list Candidate) (pdgCode pdgCodeMax : Z)
    (jet jet' : Candidate) (partonArray LHEpartonArray : list Candidate) :
  GetAlgoFlavour cfg fParticleInputArray (pdgCode, pdgCodeMax) jet partonArray
    LHEpartonArray = Some jet' ->
  (Default (flavour jet') = default_flavour pdgCodeMax
   \/ Default (flavour jet') = default_flavour pdgCode
   \/ Default (flavour jet') = 21%Z)
  /\ (Forall (fun parton => Z.abs (PID (gen parton)) <> 21%Z) partonArray ->
      Default (flavour jet') = default_flavour pdgCodeMax
      \/ Default (flavour jet') = default_flavour pdgCode).
Proof.
  unfold GetAlgoFlavour. cbn [fst snd]. intros Hget.
  destruct (parton_loop _ _ _ _ _ _ _ _) as [[final st]|] eqn:Hloop; [|discriminate].
  cbn [mbind option_bind] in Hget. injection Hget as <-.
  apply parton_loop_pdgCodeMax in Hloop as [Hgen Hquarks].
  assert (Hd : Default (flavour (algo_flavours final st jet)) = default_flavour final).
  { unfold algo_flavours, default_flavour. cbn [flavour set_flavour Default].
    destruct (decide (final = 0%Z)) as [->|Hne]; [reflexivity|].
    destruct (decide (final = (-1)%Z)); reflexivity. }
  rewrite Hd. split.
  - destruct Hgen as [->|[->| ->]]; auto.
  - intros Hall. destruct (Hquarks Hall) as [->| ->]; auto.
Qed.

Lemma b_jet_flavourDefault :
  exists jet' : Candidate,
    GetAlgoFlavour btag_config all_particles (0%Z, 0%Z) jet_100 [b_quark] [lhe_gluon]
    = Some jet'
    /\ (Default (flavour jet') = default_flavour 0
        \/ Default (flavour jet') = default_flavour 0
        \/ Default (flavour jet') = 21%Z).
Proof.
  destruct (b_jet_flavours jet_100 eq_refl) as (jet1 & jet2 & Halgo & _).
  exists jet1. split; [exact Halgo|].
  apply (flavourDefault_is_made_of_uninitialised_locals btag_config all_particles 0 0
           jet_100 jet1 [b_quark] [lhe_gluon] Halgo).
Defined.

Lemma record_parton_tempParticle (cfg : Config) (jet parton : Candidate) (st : AlgoState) :
  tempParticle (record_parton cfg jet parton st)
  = if decide (DeltaR (Momentum jet) (Momentum parton) <= fDeltaR cfg /\ heavy parton)
    then parton else tempParticle st.
Proof.
  unfold record_parton, heavy.
  destruct (decide (DeltaR (Momentum jet) (Momentum parton) <= fDeltaR cfg)) as [Hin|Hout].
  - destruct (decide (DeltaR (Momentum jet) (Momentum parton) < minDr st));
      destruct (decide (Pt (Momentum parton) > maxPt st));
      destruct (decide (Z.abs (PID (gen parton)) = 4%Z)) as [H4|H4];
      destruct (decide (Z.abs (PID (gen parton)) = 5%Z)) as [H5|H5];
      cbn [tempParticle];
      first [ rewrite decide_True by tauto; reflexivity
            | rewrite decide_False by tauto; reflexivity ].
  - rewrite decide_False by tauto. reflexivity.
Qed.

Lemma lhe_loop_tempParticle (cfg : Config) (fParticleInputArray : list Candidate)
    (jet first parton : Candidate) (rest : list Candidate) (st st1 : AlgoState) :
  lhe_loop cfg fParticleInputArray jet parton st (first :: rest) = Some st1 ->
  tempParticle st1
  = if decide (recorded cfg fParticleInputArray jet first parton /\ heavy parton)
    then parton else tempParticle st.
Proof.
  intros Hlhe. cbn [lhe_loop] in Hlhe.
  destruct (decide (same_parton 0.001 parton first)) as [Hsame|Hdiff].
  - injection Hlhe as <-.
    rewrite decide_False; [reflexivity|]. intros [(Hno & _) _]. exact (Hno Hsame).
  - destruct (nparton_daughters fParticleInputArray parton) as [n|] eqn:Hn;
      [|discriminate].
    cbn [mbind option_bind] in Hlhe.
    assert (Hnpd : no_parton_daughter fParticleInputArray parton <-> (n <= 0)%Z)
      by (unfold no_parton_daughter; rewrite Hn; reflexivity).
    destruct (decide (n > 0)%Z) as [Hpos|Hzero].
    + rewrite (lhe_loop_fixed cfg fParticleInputArray jet parton n rest Hn st) in Hlhe
        by (left; assumption).
      injection Hlhe as <-.
      rewrite decide_False; [reflexivity|]. intros [(_ & Hd & _) _].
      apply Hnpd in Hd. lia.
    + rewrite (lhe_loop_fixed cfg fParticleInputArray jet parton n rest Hn
                 (record_parton cfg jet parton st)) in Hlhe
        by (right; apply record_parton_idempotent).
      injection Hlhe as <-. rewrite record_parton_tempParticle.
      destruct (decide (DeltaR (Momentum jet) (Momentum parton) <= fDeltaR cfg
                        /\ heavy parton)) as [[Hin Hheavy]|Hno].
      * rewrite decide_True; [reflexivity|].
        split; [|assumption]. split; [assumption|]. split; [|assumption].
        apply Hnpd. lia.
      * rewrite decide_False; [reflexivity|]. intros [(_ & _ & Hin) Hheavy].
        apply Hno. split; assumption.
Qed.

Lemma parton_loop_tempParticle (cfg : Config) (fParticleInputArray : list Candidate)
    (jet first : Candidate) (rest partons : list Candidate) :
  forall (pdgCode pdgCodeMax : Z) (st : AlgoState) (final : Z) (st' : AlgoState),
    parton_loop cfg fParticleInputArray jet (first :: rest) pdgCode pdgCodeMax st partons
    = Some (final, st') ->
    tempParticle st'
    = default (tempParticle st)
        (last (filter (fun parton => recorded cfg fParticleInputArray jet first parton
                                     /\ heavy parton) partons)).
Proof.
  induction partons as [|parton others IH]; intros pdgCode pdgCodeMax st final st' Hloop;
    cbn [parton_loop] in Hloop.
  - injection Hloop as <- <-. reflexivity.
  - destruct (lhe_loop cfg fParticleInputArray jet parton st (first :: rest))
      as [st1|] eqn:Hlhe; [|discriminate].
    cbn [mbind option_bind] in Hloop. apply IH in Hloop. rewrite Hloop. clear Hloop IH.
    apply lhe_loop_tempParticle in Hlhe. rewrite Hlhe.
    destruct (decide (recorded cfg fParticleInputArray jet first parton /\ heavy parton))
      as [Hyes|Hno].
    + rewrite filter_cons_True by exact Hyes. rewrite last_cons.
      destruct (last _); reflexivity.
    + rewrite filter_cons_False by exact Hno. reflexivity.
Qed.

(** X23.  [flavourHeaviest] is the flavour of the last c or b quark that
    the loop records, whichever of the two it is: a parton is recorded when
    it does not match the first LHE parton, the count of lines 311-322
    finds no parton among its daughters and it lies in the cone, and each
    recorded c or b replaces the one before it (a c after a b included).
    That count takes the first daughter when its |PID| is 1 to 5 or 21,
    and the second when its |PID| is 1 to 4 or 21 or when the first
    daughter's is 5: a b quark as second daughter is not counted.  With
    no parton recorded the flavour is that of a fresh candidate. *)
Theorem flavourHeaviest_is_the_last_heavy_parton_recorded (cfg : Config)
    (fParticleInputArray : list Candidate) (uninit : Z * Z) (jet jet' first : Candidate)
    (partonArray rest : list Candidate) :
  GetAlgoFlavour cfg fParticleInputArray uninit jet partonArray (first :: rest)
  = Some jet' ->
  Heaviest (flavour jet')
  = Z.abs (PID (gen (default NewCandidate
                       (last (filter (fun parton =>
                                        recorded cfg fParticleInputArray jet first parton
                                        /\ heavy parton) partonArray))))).
Proof.
  unfold GetAlgoFlavour. intros Hget.
  destruct (parton_loop _ _ _ _ _ _ _ _) as [[final st]|] eqn:Hloop; [|discriminate].
  cbn [mbind option_bind] in Hget. injection Hget as <-.
  apply parton_loop_tempParticle in Hloop. cbn [tempParticle] in Hloop.
  rewrite <- Hloop. reflexivity.
Qed.

Lemma b_with_b_daughter_count :
  nparton_daughters two_particles b_with_b_daughter = Some 0%Z.
Proof. unfold nparton_daughters. eval_decide. unfold vec_at. eval_decide. reflexivity. Qed.

Lemma GetAlgoFlavour_b_with_b_daughter :
  is_Some (GetAlgoFlavour btag_config two_particles (0%Z, 0%Z) jet_100
             [b_with_b_daughter] [lhe_gluon]).
Proof.
  unfold GetAlgoFlavour, parton_loop, lhe_loop.
  rewrite (decide_False (P := same_parton 0.001 b_with_b_daughter lhe_gluon))
    by (unfold same_parton; simpl; intros (_ & Hpid & _); discriminate).
  rewrite b_with_b_daughter_count. cbn [mbind option_bind]. eauto.
Qed.

Lemma b_with_b_daughter_recorded :
  recorded btag_config two_particles jet_100 lhe_gluon b_with_b_daughter
  /\ heavy b_with_b_daughter.
Proof.
  split; [|right; reflexivity]. split; [|split].
  - unfold same_parton. simpl. intros (_ & Hpid & _). discriminate.
  - unfold no_parton_daughter. rewrite b_with_b_daughter_count. lia.
  - rewrite DeltaR_same_phi by reflexivity. simpl. eval_Rabs. lra.
Qed.

Lemma b_with_a_b_daughter_is_recorded :
  exists jet' : Candidate,
    GetAlgoFlavour btag_config two_particles (0%Z, 0%Z) jet_100 [b_with_b_daughter]
      [lhe_gluon] = Some jet'
    /\ vec_at two_particles (D2 (gen b_with_b_daughter)) = Some (parton_at 5 2 60 1)
    /\ Heaviest (flavour jet') = 5%Z.
Proof.
  destruct GetAlgoFlavour_b_with_b_daughter as [jet' Hget]. exists jet'.
  split; [exact Hget|]. split; [reflexivity|].
  rewrite (flavourHeaviest_is_the_last_heavy_parton_recorded btag_config two_particles
             (0%Z, 0%Z) jet_100 jet' lhe_gluon [b_with_b_daughter] [] Hget).
  rewrite filter_cons_True by exact b_with_b_daughter_recorded. reflexivity.
Defined.

Lemma tag_variants_some (cfg : Config) (randomNumber : R) (jet : Candidate) :
  is_Some (fEfficiencyMap cfg !! 0%Z) -> is_Some (tag_variants cfg randomNumber jet).
Proof.
  intros H0. unfold tag_variants, tag.
  destruct (find_formula_some (fEfficiencyMap cfg) (Heaviest (flavour jet)) H0) as [f1 ->].
  destruct (find_formula_some (fEfficiencyMap cfg) (HighestPt (flavour jet)) H0) as [f2 ->].
  destruct (find_formula_some (fEfficiencyMap cfg) (Nearest2 (flavour jet)) H0) as [f3 ->].
  destruct (find_formula_some (fEfficiencyMap cfg) (Nearest3 (flavour jet)) H0) as [f4 ->].
  destruct (find_formula_some (fEfficiencyMap cfg) (Algo (flavour jet)) H0) as [f5 ->].
  destruct (find_formula_some (fEfficiencyMap cfg) (Physics (flavour jet)) H0) as [f6 ->].
  destruct (find_formula_some (fEfficiencyMap cfg) (Default (flavour jet)) H0) as [f7 ->].
  cbn [mbind option_bind]. eauto.
Qed.

Lemma jet_loop_per_jet (cfg : Config) (fParticleInputArray : list Candidate)
    (partonArray LHEpartonArray : list Candidate) (uninit : nat -> Z * Z)
    (jets : list Candidate) :
  forall (number : nat) (g g' : TRandom) (jets' : list Candidate),
    jet_loop cfg fParticleInputArray partonArray LHEpartonArray uninit number jets g
    = Some (jets', g') ->
    forall (j : nat) (jet : Candidate),
      jets !! j = Some jet ->
      exists jet' : Candidate,
        jets' !! j = Some jet'
        /\ process_jet cfg fParticleInputArray partonArray LHEpartonArray
             (uninit (number + j)%nat) jet (mkRandom (draws g) (drawn g + j))
           = Some (jet', mkRandom (draws g) (drawn g + S j)).
Proof.
  induction jets as [|jet0 jets IH]; intros number g g' jets' Hloop j jet Hj.
  - rewrite lookup_nil in Hj. discriminate.
  - cbn [jet_loop] in Hloop.
    destruct (process_jet cfg fParticleInputArray partonArray LHEpartonArray
                (uninit number) jet0 g) as [[jet1 g1]|] eqn:Hp; [|discriminate].
    cbn [mbind option_bind] in Hloop.
    destruct (jet_loop cfg fParticleInputArray partonArray LHEpartonArray uninit
                (S number) jets g1) as [[rest g2]|] eqn:Hrest; [|discriminate].
    cbn [mbind option_bind] in Hloop. injection Hloop as <- <-.
    pose proof (process_jet_draw _ _ _ _ _ _ _ _ _ Hp) as Hg1.
    destruct j as [|j].
    + injection Hj as <-. exists jet1. split; [reflexivity|].
      rewrite !Nat.add_0_r, Nat.add_1_r.
      destruct g as [d n]. cbn [draws drawn] in *. rewrite <- Hg1. exact Hp.
    + cbn [lookup list_lookup] in Hj.
      destruct (IH (S number) g1 g2 rest Hrest j jet Hj) as (jet' & Hj' & Hp').
      exists jet'. split; [exact Hj'|].
      rewrite Hg1 in Hp'. cbn [draws drawn] in Hp'.
      replace (number + S j)%nat with (S number + j)%nat by lia.
      replace (drawn g + S j)%nat with (S (drawn g) + j)%nat by lia.
      replace (drawn g + S (S j))%nat with (S (drawn g) + S j)%nat by lia.
      exact Hp'.
Qed.

(** X24.  With an array of partons of each kind returned by the filters,
    [Process] treats the jets one by one in the order of the input array and independently of each
    other: the jet at position [j] gets its flavours and tags from the
    loop body run on it alone with the generator advanced by [j] draws, so
    it is tagged with the [j]-th random number after the ones drawn
    before the call, whatever the other jets are; the call draws one
    number per jet. *)
Theorem Process_tags_each_jet_with_its_own_draw (cfg : Config) (held heldLHE : bool)
    (fPartonInputArray fLHEPartonInputArray fParticleInputArray fJetInputArray
       partonArray LHEpartonArray jets' : list Candidate)
    (uninit : nat -> Z * Z) (g g' : TRandom) :
  GetSubArray (GetCategory cfg) 0 held fPartonInputArray = Some partonArray ->
  GetSubArray (GetCategoryLHE cfg) 0 heldLHE fLHEPartonInputArray
  = Some LHEpartonArray ->
  Process cfg held heldLHE fPartonInputArray fLHEPartonInputArray fParticleInputArray
    fJetInputArray uninit g = Some (jets', g') ->
  length jets' = length fJetInputArray
  /\ g' = mkRandom (draws g) (drawn g + length fJetInputArray)
  /\ forall (j : nat) (jet : Candidate),
       fJetInputArray !! j = Some jet ->
       exists jet' : Candidate,
         jets' !! j = Some jet'
         /\ process_jet cfg fParticleInputArray partonArray LHEpartonArray
              (uninit j) jet (mkRandom (draws g) (drawn g + j))
            = Some (jet', mkRandom (draws g) (drawn g + S j)).
Proof.
  intros Hpartons Hlhe. unfold Process. rewrite Hpartons, Hlhe. intros Hloop.
  destruct (jet_loop_draws _ _ _ _ _ _ _ _ _ _ Hloop) as [Hlen Hg].
  split; [exact Hlen|]. split; [exact Hg|].
  intros j jet Hj.
  exact (jet_loop_per_jet _ _ _ _ _ _ _ _ _ _ Hloop j jet Hj).
Qed.

Lemma b_quark_selected (held : bool) :
  GetSubArray (GetCategory btag_config) 0 held [b_quark] = Some [b_quark].
Proof.
  unfold GetSubArray. rewrite !filter_cons. unfold GetCategory. eval_decide.
  reflexivity.
Qed.

Lemma process_jet_100_some (jet : Candidate) (g : TRandom) :
  Momentum jet = Momentum jet_100 ->
  is_Some (process_jet btag_config all_particles [b_quark] [lhe_gluon] (0%Z, 0%Z) jet g).
Proof.
  intros Hm. destruct (b_jet_flavours jet Hm) as (jet1 & jet2 & Halgo & Hphys & _).
  unfold process_jet. rewrite Halgo. cbn [mbind option_bind]. rewrite Hphys.
  cbn [mbind option_bind]. destruct (Uniform g) as [randomNumber g1].
  destruct (tag_variants_some btag_config randomNumber jet2
              (with_default_formula_has_0 _)) as [jet3 ->].
  cbn [mbind option_bind]. eauto.
Qed.

Lemma Process_two_jets :
  is_Some (Process btag_config false false [b_quark] [lhe_gluon] all_particles
             [jet_100; tagged_jet_100] (fun _ => (0%Z, 0%Z)) half_draws).
Proof.
  unfold Process. rewrite b_quark_selected, lhe_gluon_selected. cbn [jet_loop].
  destruct (process_jet_100_some jet_100 half_draws eq_refl) as [[jet1 g1] ->].
  cbn [mbind option_bind].
  destruct (process_jet_100_some tagged_jet_100 g1 eq_refl) as [[jet2 g2] ->].
  cbn [mbind option_bind]. eauto.
Qed.

Lemma two_jets_two_draws :
  exists (jets' : list Candidate) (g' : TRandom),
    Process btag_config false false [b_quark] [lhe_gluon] all_particles
      [jet_100; tagged_jet_100] (fun _ => (0%Z, 0%Z)) half_draws = Some (jets', g')
    /\ length jets' = 2%nat
    /\ g' = mkRandom (fun _ => 0.5) 2.
Proof.
  destruct Process_two_jets as [[jets' g'] HP]. exists jets', g'.
  split; [exact HP|].
  destruct (Process_tags_each_jet_with_its_own_draw btag_config false false
              [b_quark] [lhe_gluon] all_particles [jet_100; tagged_jet_100]
              [b_quark] [lhe_gluon] jets' (fun _ => (0%Z, 0%Z)) half_draws g'
              (b_quark_selected false) (lhe_gluon_selected false) HP)
    as (Hlen & Hg & _).
  split; [exact Hlen | exact Hg].
Defined.

Lemma tag_variants_flavour (cfg : Config) (randomNumber : R) (jet jet' : Candidate) :
  tag_variants cfg randomNumber jet = Some jet' -> flavour jet' = flavour jet.
Proof.
  unfold tag_variants. intros Ht.
  repeat match type of Ht with
         | context [tag ?c ?r ?v ?f ?b] =>
             destruct (tag c r v f b); cbn [mbind option_bind] in Ht; [|discriminate]
         end.
  injection Ht as <-. reflexivity.
Qed.

Lemma process_jet_without_parton (cfg : Config) (fParticleInputArray : list Candidate)
    (LHEpartonArray : list Candidate) (uninit : Z * Z) (jet : Candidate) (g : TRandom) :
  is_Some (fEfficiencyMap cfg !! 0%Z) ->
  exists jet' : Candidate,
    process_jet cfg fParticleInputArray [] LHEpartonArray uninit jet g
    = Some (jet', mkRandom (draws g) (S (drawn g)))
    /\ Heaviest (flavour jet') = 0%Z /\ HighestPt (flavour jet') = 0%Z
    /\ Nearest2 (flavour jet') = 0%Z /\ Algo (flavour jet') = 0%Z.
Proof.
  intros H0. unfold process_jet, GetAlgoFlavour. cbn [parton_loop mbind option_bind].
  set (jet1 := algo_flavours _ _ jet).
  assert (Hphys : exists jet2 : Candidate,
             GetPhysicsFlavour cfg fParticleInputArray jet1 [] LHEpartonArray = Some jet2
             /\ Heaviest (flavour jet2) = 0%Z /\ HighestPt (flavour jet2) = 0%Z
             /\ Nearest2 (flavour jet2) = 0%Z /\ Algo (flavour jet2) = 0%Z).
  { unfold GetPhysicsFlavour. cbn [contaminations contamination_loop length].
    destruct (decide (nInTheCone (physics_state cfg jet1 LHEpartonArray) <> 1%Z)).
    - cbn [mbind option_bind]. eexists. split; [reflexivity|].
      subst jet1. unfold algo_flavours. cbn. rewrite decide_True by lra.
      repeat split; reflexivity.
    - rewrite decide_True by reflexivity. cbn [mbind option_bind].
      eexists. split; [reflexivity|].
      subst jet1. unfold algo_flavours. cbn. rewrite decide_True by lra.
      repeat split; reflexivity. }
  destruct Hphys as (jet2 & -> & Hfl). cbn [mbind option_bind]. unfold Uniform, next_draw.
  destruct (tag_variants_some cfg (draws g (drawn g)) jet2 H0) as [jet3 Htag].
  rewrite Htag. cbn [mbind option_bind]. exists jet3. split; [reflexivity|].
  rewrite (tag_variants_flavour _ _ _ _ Htag). exact Hfl.
Qed.

Lemma jet_loop_without_parton (cfg : Config) (fParticleInputArray : list Candidate)
    (LHEpartonArray : list Candidate) (uninit : nat -> Z * Z) (jets : list Candidate) :
  is_Some (fEfficiencyMap cfg !! 0%Z) ->
  forall (number : nat) (g : TRandom),
    exists jets' : list Candidate,
      jet_loop cfg fParticleInputArray [] LHEpartonArray uninit number jets g
      = Some (jets', mkRandom (draws g) (drawn g + length jets))
      /\ length jets' = length jets
      /\ Forall (fun jet' => Heaviest (flavour jet') = 0%Z
                             /\ HighestPt (flavour jet') = 0%Z
                             /\ Nearest2 (flavour jet') = 0%Z
                             /\ Algo (flavour jet') = 0%Z) jets'.
Proof.
  intros H0. induction jets as [|jet jets IH]; intros number g.
  - exists []. cbn [jet_loop length]. rewrite Nat.add_0_r. destruct g.
    split; [reflexivity|]. split; [reflexivity | constructor].
  - cbn [jet_loop].
    destruct (process_jet_without_parton cfg fParticleInputArray LHEpartonArray
                (uninit number) jet g H0) as (jet' & -> & Hfl).
    cbn [mbind option_bind].
    destruct (IH (S number) (mkRandom (draws g) (S (drawn g))))
      as (jets' & -> & Hlen & Hall).
    cbn [mbind option_bind draws drawn]. exists (jet' :: jets').
    split; [do 3 f_equal; cbn [length]; lia|].
    split; [cbn [length]; lia|]. constructor; assumption.
Qed.

(** X18.  An event in which no parton passes the parton classifier.
    While [fFilter] holds no array yet (no parton has passed since
    [Init]), [Process] returns at once: the jets keep their flavours and
    tags and no random number is drawn.  Once it holds one, the empty
    selection comes back as an empty array and, when the LHE filter
    returns an array too, [Process] runs the loop over the jets on it:
    every jet gets the flavours 0 of a parton never found and one random
    number is drawn per jet. *)
Theorem Process_without_selected_partons (cfg : Config) (held heldLHE : bool)
    (fPartonInputArray fLHEPartonInputArray fParticleInputArray fJetInputArray
       : list Candidate)
    (uninit : nat -> Z * Z) (g : TRandom) :
  Forall (fun parton => GetCategory cfg parton <> 0%Z) fPartonInputArray ->
  (held = false ->
   Process cfg held heldLHE fPartonInputArray fLHEPartonInputArray
     fParticleInputArray fJetInputArray uninit g
   = Some (fJetInputArray, g))
  /\ (held = true ->
      is_Some (fEfficiencyMap cfg !! 0%Z) ->
      is_Some (GetSubArray (GetCategoryLHE cfg) 0 heldLHE fLHEPartonInputArray) ->
      exists jets' : list Candidate,
        Process cfg held heldLHE fPartonInputArray fLHEPartonInputArray
          fParticleInputArray fJetInputArray uninit g
        = Some (jets', mkRandom (draws g) (drawn g + length fJetInputArray))
        /\ length jets' = length fJetInputArray
        /\ Forall (fun jet' => Heaviest (flavour jet') = 0%Z
                               /\ HighestPt (flavour jet') = 0%Z
                               /\ Nearest2 (flavour jet') = 0%Z
                               /\ Algo (flavour jet') = 0%Z) jets').
Proof.
  intros Hnone. pose proof (GetSubArray_none (GetCategory cfg) held _ Hnone) as Hsub.
  split.
  - intros ->. apply Process_without_partons. left. exact Hsub.
  - intros -> H0 [LHEpartonArray Hlhe]. unfold Process. rewrite Hsub, Hlhe.
    apply jet_loop_without_parton. exact H0.
Qed.

Lemma Process_without_partons_after_a_b_event :
  Process btag_config false false [] [lhe_gluon] all_particles [jet_100]
    (fun _ => (0%Z, 0%Z)) half_draws
  = Some ([jet_100], half_draws)
  /\ exists jets' : list Candidate,
       Process btag_config true false [] [lhe_gluon] all_particles [jet_100]
         (fun _ => (0%Z, 0%Z)) half_draws
       = Some (jets', mkRandom (fun _ => 0.5) 1)
       /\ length jets' = 1%nat.
Proof.
  split.
  - apply (Process_without_selected_partons btag_config false false [] [lhe_gluon]
             all_particles [jet_100] (fun _ => (0%Z, 0%Z)) half_draws);
      [constructor | reflexivity].
  - destruct (Process_without_selected_partons btag_config true false [] [lhe_gluon]
                all_particles [jet_100] (fun _ => (0%Z, 0%Z)) half_draws
                ltac:(constructor)) as [_ Hruns].
    destruct (Hruns eq_refl (with_default_formula_has_0 _)
                (ex_intro _ _ (lhe_gluon_selected false)))
      as (jets' & HP & Hlen & _).
    exists jets'. split; [exact HP | exact Hlen].
Defined.

End BTaggingSelectionFacts.

(** ** BTagging: the efficiency formulas after [Init] *)

Module BTaggingInitFacts.
Import Root Classes BTagging ExRootConf ExRootConfFacts BTaggingInit.
Local Open Scope R_scope.

(** X25.  The efficiency formula [Process] finds for a flavour after
    [Init]: the one of the last entry of [EfficiencyFormula] that names
    the flavour; for a flavour the card does not name, the one of the last
    entry for flavour 0; and when the card has no entry for 0 either, the
    formula "0.0".  A formula is found for every flavour. *)
Theorem Init_efficiency_lookup (card : Card) (flavour : Z) :
  find_formula (fEfficiencyMap (Init card)) flavour
  = Some (match configured (EfficiencyFormula card) flavour with
          | Some entry => entry.2
          | None =>
              match configured (EfficiencyFormula card) 0%Z with
              | Some entry => entry.2
              | None => fun _ _ => 0
              end
          end).
Proof.
  unfold Init, find_formula, with_default_formula. cbn [fEfficiencyMap].
  rewrite (assign_lookup (EfficiencyFormula card) 0%Z ∅). rewrite lookup_empty.
  destruct (configured (EfficiencyFormula card) 0%Z) as [entry0|] eqn:H0.
  - rewrite !assign_lookup, H0. rewrite lookup_empty.
    destruct (configured (EfficiencyFormula card) flavour); reflexivity.
  - destruct (decide (flavour = 0%Z)) as [->|Hne].
    + rewrite lookup_insert_eq, H0. reflexivity.
    + rewrite lookup_insert_ne by congruence. rewrite lookup_insert_eq.
      rewrite assign_lookup, lookup_empty.
      destruct (configured (EfficiencyFormula card) flavour); reflexivity.
Qed.

End BTaggingInitFacts.

(** ** Reader: the arrays it fills and the events it accepts *)

Module DelphesPythia8Facts.
Import Root Classes DelphesPythia8 ReaderExamples.
Local Open Scope R_scope.

Section WithRoot.
Variable SetPxPyPzE : R -> R -> R -> R -> TLorentzVector.
Variable GetParticle : Z -> option R.

Lemma convert_loop (event : list Pythia8.Particle) :
  forall arrays : Arrays,
    let out := foldl (convert_particle SetPxPyPzE GetParticle) arrays event in
    let new := map (convert SetPxPyPzE GetParticle) event in
    allParticleOutputArray out = allParticleOutputArray arrays ++ new
    /\ stableParticleOutputArray out
       = stableParticleOutputArray arrays
         ++ filter (fun c => Status (gen (candidate c)) = 1%Z) new
    /\ partonOutputArray out
       = partonOutputArray arrays ++ filter kept_as_parton new.
Proof.
  induction event as [|particle event IH]; intros arrays; cbn [foldl map].
  - cbn. rewrite !app_nil_r. auto.
  - destruct (IH (convert_particle SetPxPyPzE GetParticle arrays particle))
      as (Hall & Hstable & Hpartons).
    cbn zeta in Hall, Hstable, Hpartons. cbn zeta.
    rewrite Hall, Hstable, Hpartons. clear IH Hall Hstable Hpartons.
    unfold convert_particle.
    cbn [allParticleOutputArray stableParticleOutputArray partonOutputArray].
    assert (Hkept : kept_as_parton (convert SetPxPyPzE GetParticle particle)
                    <-> Pythia8.statusHepMC particle <> 1%Z
                        /\ ((Z.abs (Pythia8.id particle) <= 5)%Z
                            \/ Z.abs (Pythia8.id particle) = 21%Z
                            \/ Z.abs (Pythia8.id particle) = 15%Z)) by reflexivity.
    assert (Hstatus : Status (gen (candidate (convert SetPxPyPzE GetParticle particle)))
                      = Pythia8.statusHepMC particle) by reflexivity.
    split; [rewrite <- app_assoc; reflexivity|].
    destruct (decide (Pythia8.statusHepMC particle = 1%Z)) as [H1|H1].
    + rewrite filter_cons_True by (rewrite Hstatus; exact H1).
      rewrite filter_cons_False by (rewrite Hkept; tauto).
      split; [rewrite <- app_assoc; reflexivity | reflexivity].
    + rewrite filter_cons_False by (rewrite Hstatus; exact H1).
      split; [reflexivity|].
      destruct (decide ((Z.abs (Pythia8.id particle) <= 5)%Z
                        \/ Z.abs (Pythia8.id particle) = 21%Z
                        \/ Z.abs (Pythia8.id particle) = 15%Z)) as [Hp|Hp].
      * rewrite filter_cons_True by (rewrite Hkept; tauto).
        rewrite <- app_assoc. reflexivity.
      * rewrite filter_cons_False by (rewrite Hkept; tauto). reflexivity.
Qed.

(** X26.  From cleared arrays, [ConvertInput] puts every entry of the
    Pythia event in [allParticles], in order; [stableParticles] is the
    part of it with status 1 and [partons] the part with another status
    and |PID| at most 5 (0 included), 21 or 15, each in the same order.
    So a candidate is never in both, a quark or gluon of status 1 is not a
    parton, a tau that is not final is one, and a top quark never is. *)
Theorem ConvertInput_routes_by_status (eventCounter : Z) (info : Pythia8.Info)
    (event : list Pythia8.Particle) (readTime procTime : R) :
  let out := (ConvertInput SetPxPyPzE GetParticle eventCounter info event readTime
                procTime cleared).2 in
  allParticleOutputArray out = map (convert SetPxPyPzE GetParticle) event
  /\ stableParticleOutputArray out
     = filter (fun c => Status (gen (candidate c)) = 1%Z) (allParticleOutputArray out)
  /\ partonOutputArray out = filter kept_as_parton (allParticleOutputArray out)
  /\ forall c : GenCandidate,
       c ∈ stableParticleOutputArray out -> c ∉ partonOutputArray out.
Proof.
  cbn zeta. unfold ConvertInput. cbn [snd].
  destruct (convert_loop event cleared) as (Hall & Hstable & Hpartons).
  cbn zeta in Hall, Hstable, Hpartons. cbn [cleared allParticleOutputArray
    stableParticleOutputArray partonOutputArray app] in Hall, Hstable, Hpartons.
  rewrite Hall, Hstable, Hpartons. repeat split.
  intros c Hs Hp.
  apply list_elem_of_filter in Hs as [Hs _]. apply list_elem_of_filter in Hp as [[Hp _] _].
  exact (Hp Hs).
Qed.

(** X27.  The candidate of entry [i] of the Pythia event is at position
    [i] of [allParticles] (the loop starts at entry 0), while its mother
    and daughter fields are Pythia's numbers minus one.  So the candidate
    that [allParticles] holds at index [D1] is the one of entry
    [daughter1 - 1] of the event, and the one at index [M1] that of entry
    [mother1 - 1]: the entry before the one Pythia names. *)
Theorem ConvertInput_links_name_the_entry_before (eventCounter : Z)
    (info : Pythia8.Info) (event : list Pythia8.Particle) (readTime procTime : R)
    (i : nat) (particle : Pythia8.Particle) :
  event !! i = Some particle ->
  let all := allParticleOutputArray
               (ConvertInput SetPxPyPzE GetParticle eventCounter info event readTime
                  procTime cleared).2 in
  exists c : GenCandidate,
    all !! i = Some c
    /\ c = convert SetPxPyPzE GetParticle particle
    /\ vec_at all (D1 (gen (candidate c)))
       = convert SetPxPyPzE GetParticle
           <$> vec_at event (Pythia8.daughter1 particle - 1)
    /\ vec_at all (M1 (gen (candidate c)))
       = convert SetPxPyPzE GetParticle
           <$> vec_at event (Pythia8.mother1 particle - 1).
Proof.
  intros Hi. cbn zeta. unfold ConvertInput. cbn [snd].
  destruct (convert_loop event cleared) as (Hall & _).
  cbn zeta in Hall. cbn [cleared allParticleOutputArray app] in Hall. rewrite Hall.
  exists (convert SetPxPyPzE GetParticle particle).
  split; [rewrite list_lookup_fmap, Hi; reflexivity|].
  split; [reflexivity|].
  assert (Hat : forall k : Z,
             vec_at (map (convert SetPxPyPzE GetParticle) event) k
             = convert SetPxPyPzE GetParticle <$> vec_at event k).
  { intros k. unfold vec_at. destruct (decide (0 <= k)%Z); [|reflexivity].
    apply list_lookup_fmap. }
  split; apply Hat.
Qed.

End WithRoot.

Lemma b_quark_names_itself_as_daughter :
  exists c : GenCandidate,
    allParticleOutputArray
      (ConvertInput along_beam no_database 0 (Pythia8.mkInfo 0 1 0 0 0 0 0 0 0 0 0 0)
         b_event 0 0 cleared).2 !! 1%nat = Some c
    /\ c = convert along_beam no_database b_entry
    /\ vec_at (allParticleOutputArray
                 (ConvertInput along_beam no_database 0
                    (Pythia8.mkInfo 0 1 0 0 0 0 0 0 0 0 0 0) b_event 0 0 cleared).2)
              (D1 (gen (candidate c)))
       = Some (convert along_beam no_database b_entry).
Proof.
  destruct (ConvertInput_links_name_the_entry_before along_beam no_database 0
              (Pythia8.mkInfo 0 1 0 0 0 0 0 0 0 0 0 0) b_event 0 0 1 b_entry eq_refl)
    as (c & Hc & Heq & Hd & _).
  exists c. split; [exact Hc|]. split; [exact Heq|]. rewrite Hd. reflexivity.
Defined.

Lemma jQuark_loop_spec (Mjj_cut : R) (quarks : list FourVector) :
  forall (tmp4vect : FourVector) (Mjj_check : Z),
    let result := jQuark_loop Mjj_cut tmp4vect Mjj_check quarks in
    (result = 1%Z \/ result = Mjj_check)
    /\ (result = 1%Z <->
        Mjj_check = 1%Z
        \/ exists run post : list FourVector,
             quarks = run ++ post /\ run <> []
             /\ M (foldl add tmp4vect run) > Mjj_cut).
Proof.
  induction quarks as [|quark rest IH]; intros tmp4vect Mjj_check; cbn [jQuark_loop].
  - cbn zeta. split; [auto|]. split; [auto|].
    intros [H|(run & post & Happ & Hne & _)]; [exact H|].
    symmetry in Happ. apply app_eq_nil in Happ as [-> _]. congruence.
  - cbn zeta.
    destruct (IH (add tmp4vect quark)
                (if decide (M (add tmp4vect quark) > Mjj_cut) then 1%Z else Mjj_check))
      as [Hval Hiff].
    cbn zeta in Hval, Hiff. split.
    + destruct (decide (M (add tmp4vect quark) > Mjj_cut)); tauto.
    + rewrite Hiff. clear Hiff Hval IH. split.
      * intros [Hchk|(run & post & Happ & Hne & Hm)].
        -- destruct (decide (M (add tmp4vect quark) > Mjj_cut)) as [Hm|Hm]; [|auto].
           right. exists [quark], rest. repeat split; [congruence | exact Hm].
        -- right. exists (quark :: run), post. rewrite Happ.
           repeat split; [congruence | exact Hm].
      * intros [Hchk|(run & post & Happ & Hne & Hm)].
        -- left. rewrite Hchk. destruct (decide _); reflexivity.
        -- destruct run as [|q run]; [congruence|].
           cbn [app] in Happ. injection Happ as <- ->. cbn [foldl] in Hm.
           destruct run as [|q' run].
           ++ left. cbn [foldl] in Hm. rewrite decide_True by exact Hm. reflexivity.
           ++ right. exists (q' :: run), post. repeat split; [congruence | exact Hm].
Qed.

Lemma iPartons_loop_spec (Mjj_cut : R) (outPartons : list FourVector) :
  forall Mjj_check : Z,
    let result := iPartons_loop Mjj_cut Mjj_check outPartons in
    (result = 1%Z \/ result = Mjj_check)
    /\ (result = 1%Z <->
        Mjj_check = 1%Z
        \/ exists (pre : list FourVector) (parton : FourVector)
                  (run post : list FourVector),
             outPartons = pre ++ parton :: run ++ post /\ run <> []
             /\ M (foldl add parton run) > Mjj_cut).
Proof.
  induction outPartons as [|parton rest IH]; intros Mjj_check; cbn [iPartons_loop].
  - cbn zeta. split; [auto|]. split; [auto|].
    intros [H|(pre & p & run & post & Happ & _)]; [exact H|].
    destruct pre; discriminate.
  - cbn zeta. destruct (IH (jQuark_loop Mjj_cut parton Mjj_check rest)) as [Hval Hiff].
    destruct (jQuark_loop_spec Mjj_cut rest parton Mjj_check) as [Hqval Hqiff].
    cbn zeta in Hval, Hiff, Hqval, Hqiff. split.
    + destruct Hval as [Hv|Hv]; [auto|]. rewrite Hv. exact Hqval.
    + rewrite Hiff, Hqiff. clear. split.
      * intros [[Hchk|(run & post & Happ & Hne & Hm)]
               |(pre & p & run & post & Happ & Hne & Hm)].
        -- auto.
        -- right. exists [], parton, run, post. rewrite Happ. auto.
        -- right. exists (parton :: pre), p, run, post. rewrite Happ. auto.
      * intros [Hchk|(pre & p & run & post & Happ & Hne & Hm)]; [auto|].
        destruct pre as [|p0 pre]; cbn [app] in Happ; injection Happ as <- ->.
        -- left. right. exists run, post. auto.
        -- right. exists pre, p, run, post. auto.
Qed.

Lemma momentum_at_some (hepeup : HEPEUP) (iPart : nat) :
  complete hepeup -> (iPart < length (IDUP hepeup))%nat ->
  is_Some (momentum_at hepeup iPart).
Proof.
  intros (_ & _ & Hpup & _ & Hfour) Hi. unfold momentum_at.
  destruct (lookup_lt_is_Some_2 (PUP hepeup) iPart ltac:(lia)) as [pup Hp].
  rewrite Hp. cbn [mbind option_bind].
  rewrite Forall_forall in Hfour.
  specialize (Hfour pup (list_elem_of_lookup_2 _ _ _ Hp)).
  destruct pup as [|p0 [|p1 [|p2 [|p3 pup]]]]; cbn in Hfour; try lia.
  cbn. eauto.
Qed.

Lemma count_loop_spec (hepeup : HEPEUP) (iParts : list nat) :
  complete hepeup ->
  Forall (fun iPart => (iPart < length (IDUP hepeup))%nat) iParts ->
  forall (outPartons : list FourVector) (leptons : Z),
    count_loop hepeup (outPartons, leptons) iParts
    = Some (outPartons
              ++ omap (fun iPart =>
                         status ← ISTUP hepeup !! iPart;
                         id ← IDUP hepeup !! iPart;
                         if decide (status = 1%Z /\ is_parton id)
                         then momentum_at hepeup iPart else None) iParts,
            (leptons + Z.of_nat (length (filter (lepton_at hepeup) iParts)))%Z).
Proof.
  intros Hc Hin. induction Hin as [|iPart rest Hi Hrest IH]; intros outPartons leptons.
  - cbn. rewrite app_nil_r. do 2 f_equal. lia.
  - cbn [count_loop omap list_omap]. unfold count_particle.
    destruct (momentum_at_some hepeup iPart Hc Hi) as [tmp4vect Hm].
    pose proof Hc as (Hist & _).
    destruct (lookup_lt_is_Some_2 (ISTUP hepeup) iPart ltac:(lia)) as [status Hs].
    destruct (lookup_lt_is_Some_2 (IDUP hepeup) iPart Hi) as [id Hid].
    assert (Hl : lepton_at hepeup iPart <-> is_lepton id)
      by (unfold lepton_at; rewrite Hid; reflexivity).
    rewrite Hs, Hid, Hm. cbn [mbind option_bind].
    assert (Hcount : (if decide (is_lepton id) then (leptons + 1)%Z else leptons)
                     = (leptons
                        + Z.of_nat (length (filter (lepton_at hepeup) [iPart])))%Z).
    { destruct (decide (is_lepton id)) as [Hy|Hn].
      - rewrite filter_cons_True by (apply Hl; exact Hy). cbn. lia.
      - rewrite filter_cons_False by (rewrite Hl; exact Hn). cbn. lia. }
    rewrite Hcount. clear Hcount.
    change (filter (lepton_at hepeup) (iPart :: rest))
      with (filter (lepton_at hepeup) ([iPart] ++ rest)).
    rewrite filter_app, length_app.
    destruct (decide (status = 1%Z)) as [H1|H1].
    + cbn [mbind option_bind].
      destruct (decide (is_parton id)) as [Hp|Hp].
      * rewrite decide_True by tauto. rewrite IH. rewrite <- app_assoc. cbn [app].
        do 2 f_equal. lia.
      * rewrite decide_False by tauto. rewrite IH. do 2 f_equal. lia.
    + cbn [mbind option_bind]. rewrite decide_False by tauto. rewrite IH.
      do 2 f_equal. lia.
Qed.

Lemma leptons_counted (hepeup : HEPEUP) :
  (0 < length (filter (lepton_at hepeup) (seq 0 (length (IDUP hepeup)))))%nat
  <-> Exists is_lepton (IDUP hepeup).
Proof.
  rewrite Exists_exists. split.
  - intros Hpos.
    destruct (filter (lepton_at hepeup) (seq 0 (length (IDUP hepeup))))
      as [|iPart l] eqn:Hf; [cbn in Hpos; lia|].
    assert (Hin : iPart ∈ filter (lepton_at hepeup) (seq 0 (length (IDUP hepeup))))
      by (rewrite Hf; left).
    apply list_elem_of_filter in Hin as [Hl _]. unfold lepton_at in Hl.
    destruct (IDUP hepeup !! iPart) as [id|] eqn:Hid; [|contradiction].
    exists id. split; [|exact Hl].
    exact (list_elem_of_lookup_2 _ _ _ Hid).
  - intros (id & Hin & Hl).
    apply list_elem_of_lookup_1 in Hin. destruct Hin as [iPart Hid].
    assert (Hf : iPart ∈ filter (lepton_at hepeup) (seq 0 (length (IDUP hepeup)))).
    { apply list_elem_of_filter. split.
      - unfold lepton_at. rewrite Hid. exact Hl.
      - apply (proj2 (list_elem_of_In _ _)). apply in_seq.
        apply lookup_lt_Some in Hid. lia. }
    destruct (filter (lepton_at hepeup) (seq 0 (length (IDUP hepeup))));
      [inversion Hf | cbn; lia].
Qed.

Section WithRoot.
Variable SetPxPyPzE : R -> R -> R -> R -> TLorentzVector.
Variable GetParticle : Z -> option R.

Lemma store_loop_some (hepeup : HEPEUP) (iParts : list nat) :
  complete hepeup ->
  Forall (fun iPart => (iPart < length (IDUP hepeup))%nat) iParts ->
  forall LHEparticlesArray : list GenCandidate,
    exists array : list GenCandidate,
      store_loop SetPxPyPzE GetParticle hepeup LHEparticlesArray iParts = Some array
      /\ length array = (length LHEparticlesArray + length iParts)%nat.
Proof.
  intros Hc Hin. induction Hin as [|iPart rest Hi Hrest IH]; intros LHEparticlesArray.
  - exists LHEparticlesArray. split; [reflexivity | cbn; lia].
  - cbn [store_loop]. unfold lhe_candidate.
    destruct (momentum_at_some hepeup iPart Hc Hi) as [tmp4vect ->].
    pose proof Hc as (Hist & Hmoth & _ & Hspin & _).
    destruct (lookup_lt_is_Some_2 (ISTUP hepeup) iPart ltac:(lia)) as [status ->].
    destruct (lookup_lt_is_Some_2 (IDUP hepeup) iPart Hi) as [id ->].
    destruct (lookup_lt_is_Some_2 (MOTHUP hepeup) iPart ltac:(lia)) as [mothers ->].
    destruct (lookup_lt_is_Some_2 (SPINUP hepeup) iPart ltac:(lia)) as [spin ->].
    cbn [mbind option_bind].
    match goal with
    | |- context [store_loop _ _ _ (LHEparticlesArray ++ [?c]) rest] =>
        destruct (IH (LHEparticlesArray ++ [c])) as (array & Hst & Hlen)
    end.
    exists array. split; [exact Hst|]. rewrite Hlen, length_app. cbn. lia.
Qed.

(** X28.  On an event block whose vectors have one entry per particle,
    [LHEEventPreselection] returns, and it accepts the event exactly when
    both of these hold.  (1) The fully-hadronic filter is off, or the
    block has an electron, muon or tau of any status (incoming and
    intermediate leptons count).  (2) There are fewer than two status-1
    partons (|id| from 1 to 6, or 21), or, among them in file order, some
    run of two or more consecutive partons has a summed mass above
    [Mjj_cut]: the sums are those of consecutive runs, not of every pair.
    A rejected event adds nothing to the array and no entry to the
    branch; an accepted one adds one candidate per particle of the block,
    of any status. *)
Theorem LHEEventPreselection_accepts (hepeup : HEPEUP) (Mjj_cut : R)
    (SkimFullyHadronic : Z) (LHEparticlesArray : list GenCandidate) :
  complete hepeup ->
  exists result : Preselection,
    LHEEventPreselection SetPxPyPzE GetParticle hepeup Mjj_cut SkimFullyHadronic
      LHEparticlesArray = Some result
    /\ (accepted result = true <->
        (SkimFullyHadronic = 0%Z \/ Exists is_lepton (IDUP hepeup))
        /\ ((length (final_state_partons hepeup) < 2)%nat
            \/ exists (pre : list FourVector) (parton : FourVector)
                      (run post : list FourVector),
                 final_state_partons hepeup = pre ++ parton :: run ++ post
                 /\ run <> []
                 /\ M (foldl add parton run) > Mjj_cut))
    /\ (accepted result = false ->
        LHEparticles result = LHEparticlesArray /\ lheEvt result = None)
    /\ (accepted result = true ->
        length (LHEparticles result)
        = (length LHEparticlesArray + length (IDUP hepeup))%nat).
Proof.
  intros Hc.
  assert (Hrange : Forall (fun iPart => (iPart < length (IDUP hepeup))%nat)
                     (seq 0 (length (IDUP hepeup)))).
  { apply List.Forall_forall. intros i Hi. apply in_seq in Hi. lia. }
  unfold LHEEventPreselection. cbn zeta.
  rewrite (count_loop_spec hepeup _ Hc Hrange [] 0%Z). cbn [app].
  fold (final_state_partons hepeup).
  pose proof (leptons_counted hepeup) as Hlep.
  destruct (iPartons_loop_spec Mjj_cut (final_state_partons hepeup) 0) as [Hval Hiff].
  cbn zeta in Hval, Hiff.
  set (leptons := length (filter (lepton_at hepeup) (seq 0 (length (IDUP hepeup)))))
    in *.
  destruct (decide (SkimFullyHadronic <> 0%Z /\ (0 + Z.of_nat leptons < 1)%Z))
    as [[Hskim Hnone]|Hpass].
  - eexists. split; [reflexivity|]. cbn [accepted LHEparticles lheEvt].
    split; [|split; [auto | discriminate]].
    split; [discriminate|]. intros [[Hoff|Hex] _]; [contradiction|].
    apply Hlep in Hex. lia.
  - assert (Hfilter : SkimFullyHadronic = 0%Z \/ Exists is_lepton (IDUP hepeup)).
    { destruct (decide (SkimFullyHadronic = 0%Z)) as [Hoff|Hon]; [left; exact Hoff|].
      right. apply Hlep. destruct (decide (0 < leptons)%nat); [assumption|].
      exfalso. apply Hpass. split; [exact Hon | lia]. }
    destruct (decide ((2 <= length (final_state_partons hepeup))%nat
                      /\ iPartons_loop Mjj_cut 0 (final_state_partons hepeup) = 0%Z))
      as [[Htwo Hzero]|Hmjj].
    + eexists. split; [reflexivity|]. cbn [accepted LHEparticles lheEvt].
      split; [|split; [auto | discriminate]].
      split; [discriminate|]. intros [_ [Hfew|Hrun]]; [lia|].
      assert (H1 : iPartons_loop Mjj_cut 0 (final_state_partons hepeup) = 1%Z)
        by (apply Hiff; right; exact Hrun).
      congruence.
    + destruct (store_loop_some hepeup _ Hc Hrange LHEparticlesArray)
        as (array & -> & Hlen).
      cbn [mbind option_bind]. eexists. split; [reflexivity|].
      cbn [accepted LHEparticles lheEvt].
      split; [|split; [discriminate|]].
      * split; [|reflexivity]. intros _. split; [exact Hfilter|].
        destruct (decide (length (final_state_partons hepeup) < 2)%nat) as [Hfew|Hmany];
          [left; exact Hfew|].
        right. destruct Hval as [H1|H0].
        -- apply Hiff in H1 as [H1|H1]; [discriminate | exact H1].
        -- exfalso. apply Hmjj. split; [lia | exact H0].
      * intros _. rewrite Hlen, length_seq. reflexivity.
Qed.

End WithRoot.

Lemma two_quarks_complete : complete two_quarks.
Proof.
  unfold complete. cbn. repeat split; try reflexivity.
  repeat constructor; cbn; lia.
Qed.

Lemma two_quarks_preselection :
  exists result : Preselection,
    LHEEventPreselection along_beam no_database two_quarks 0 0 [] = Some result
    /\ length (LHEparticles result) = 4%nat.
Proof.
  destruct (LHEEventPreselection_accepts along_beam no_database two_quarks 0 0 []
              two_quarks_complete) as (result & Hres & Hacc & _ & Hlen).
  exists result. split; [exact Hres|].
  apply Hlen. apply Hacc. split; [left; reflexivity|].
  right. exists [], (PxPyPzE 0 0 10 10), [PxPyPzE 0 0 (-10) 10], [].
  split; [|split; [discriminate|]].
  - unfold final_state_partons, momentum_at. cbn. rewrite !decide_False by lia.
    rewrite !decide_True by (unfold is_parton; cbn; lia). reflexivity.
  - cbn [foldl]. unfold M, Mag2, add. cbn [Px Py Pz En].
    rewrite decide_False by lra. apply sqrt_lt_R0. lra.
Defined.

End DelphesPythia8Facts.
